(** * BitFieldStructParser: a shallow embedding of [struct_parser.h]

    The header parses the text of a C-like struct declaration, lays its
    fields out (bit-fields included) and reads or writes single fields of a
    raw byte buffer.  The definitions below follow the C++ source function
    by function and keep its names.

    Conventions of the embedding:
    - [std::string] is [string]; a [char] is an [ascii];
    - [int] is a [Z] kept in range by [to_int] (two's complement, 32 bits),
      [size_t] and [uint64_t] are [Z] kept in range by [to_size_t]; an [int]
      sum beyond [INT_MAX] wraps around, as it does on the machines the
      header is compiled for;
    - a C++ exception is a [failure] carried by [Err]; behaviour that C++
      leaves undefined (a shift by 64 or more, an access outside the buffer)
      is the failure [Undefined];
    - byte order is little-endian, as on the machines the header is used on. *)

From Stdlib Require Import ZArith Lia List Bool Ascii String Sorted.
From coqutil Require Import Z.bitblast.
Import ListNotations.
Local Open Scope string_scope.
Local Open Scope Z_scope.

(** ** Results and failures *)

Inductive failure : Type :=
| UnknownType (type : string)      (* getTypeSize: "Unknown type: " + type *)
| StructBodyNotFound               (* parseStruct: no "{...}" in the text *)
| FieldNotFound (name : string)    (* struct_write, struct_read *)
| StoiOutOfRange                   (* std::stoi: std::out_of_range *)
| StoiInvalid                      (* std::stoi: no digits at all *)
| Undefined.                       (* undefined behaviour *)

Inductive result (A : Type) : Type :=
| Ok (a : A)
| Err (e : failure).
Arguments Ok {A} a.
Arguments Err {A} e.

Definition bind {A B : Type} (r : result A) (k : A -> result B) : result B :=
  match r with
  | Ok a => k a
  | Err e => Err e
  end.

Notation "x <- e ;; k" := (bind e (fun x => k))
  (at level 61, e at next level, right associativity).

(** ** Machine integers *)

Definition INT_MAX : Z := 2 ^ 31 - 1.

(** Conversion to [int]: wrap-around modulo 2^32 into [-2^31, 2^31). *)
Definition to_int (z : Z) : Z := (z + 2 ^ 31) mod 2 ^ 32 - 2 ^ 31.

(** Conversion to [size_t] / [uint64_t]: wrap-around modulo 2^64. *)
Definition to_size_t (z : Z) : Z := z mod 2 ^ 64.

(** ** Records of the source *)

Record FieldInfo : Type := mkFieldInfo {
  type : string;
  name : string;
  bitWidth : Z;
  byteOffset : Z;
  bitOffset : Z;
  size : Z;
  isBitField : bool;
  isAnonymous : bool
}.

Record StructInfo : Type := mkStructInfo {
  structName : string;
  fields : list FieldInfo;
  totalSize : Z
}.

(** ** The type registry *)

Definition typeSizes : list (string * Z) :=
  [ ("uint8_t", 1); ("int8_t", 1); ("char", 1);
    ("uint16_t", 2); ("int16_t", 2); ("short", 2);
    ("uint32_t", 4); ("int32_t", 4); ("float", 4);
    ("uint64_t", 8); ("int64_t", 8); ("double", 8) ].

Fixpoint find_type (type : string) (m : list (string * Z)) : option Z :=
  match m with
  | [] => None
  | (k, v) :: m' => if String.eqb k type then Some v else find_type type m'
  end.

Definition getTypeSize (type : string) : result Z :=
  match find_type type typeSizes with
  | Some sz => Ok sz
  | None => Err (UnknownType type)
  end.

(** ** Characters *)

Definition LF : ascii := "010"%char.
Definition CR : ascii := "013"%char.
Definition TAB : ascii := "009"%char.

(** [std::isspace] in the "C" locale: space, \t, \n, \v, \f, \r. *)
Definition isspace (c : ascii) : bool :=
  let n := N_of_ascii c in
  ((n =? 32) || ((9 <=? n) && (n <=? 13)))%N.

(** [\d] *)
Definition isdigit (c : ascii) : bool :=
  let n := N_of_ascii c in
  ((48 <=? n) && (n <=? 57))%N.

(** [\w]: letters, digits and the underscore. *)
Definition isword (c : ascii) : bool :=
  let n := N_of_ascii c in
  (isdigit c || ((65 <=? n) && (n <=? 90)) || ((97 <=? n) && (n <=? 122))
   || (n =? 95))%N.

(** [.] of ECMAScript: every character but the line terminators. *)
Definition isdot (c : ascii) : bool :=
  negb (Ascii.eqb c LF || Ascii.eqb c CR).

(** ** String helpers of the standard library of C++ *)

Definition empty (s : string) : bool :=
  match s with
  | EmptyString => true
  | String _ _ => false
  end.

Definition push_back (s : string) (c : ascii) : string := s ++ String c "".

Fixpoint back (s : string) : option ascii :=
  match s with
  | EmptyString => None
  | String c EmptyString => Some c
  | String _ rest => back rest
  end.

Fixpoint mem_char (c : ascii) (set : string) : bool :=
  match set with
  | EmptyString => false
  | String d set' => Ascii.eqb c d || mem_char c set'
  end.

(** [npos] is [None]. *)
Fixpoint find_first_not_of (set : string) (str : string) : option nat :=
  match str with
  | EmptyString => None
  | String c rest =>
      if mem_char c set then option_map S (find_first_not_of set rest)
      else Some O
  end.

Fixpoint find_last_not_of (set : string) (str : string) : option nat :=
  match str with
  | EmptyString => None
  | String c rest =>
      match find_last_not_of set rest with
      | Some i => Some (S i)
      | None => if mem_char c set then None else Some O
      end
  end.

Definition trim_set : string :=
  String " " (String TAB (String LF (String CR ""))).

Definition trim (str : string) : string :=
  match find_first_not_of trim_set str with
  | None => ""
  | Some start =>
      match find_last_not_of trim_set str with
      | Some last => substring start (last - start + 1) str
      | None => ""
      end
  end.

(** ** removeCommentsAndExtraSpaces

    The index loop of the source, as a recursion on the text that is still
    to be read; a [++i] inside the body drops one more character. *)

Fixpoint removeComments_loop (str : string) (inLineComment inBlockComment : bool)
    (result : string) : string :=
  match str with
  | EmptyString => result
  | String c rest =>
      if inLineComment then
        if Ascii.eqb c LF
        then removeComments_loop rest false inBlockComment (push_back result " ")
        else removeComments_loop rest inLineComment inBlockComment result
      else if inBlockComment then
        match rest with
        | String c1 rest1 =>
            if Ascii.eqb c "*" && Ascii.eqb c1 "/"
            then removeComments_loop rest1 inLineComment false result
            else removeComments_loop rest inLineComment inBlockComment result
        | EmptyString =>
            removeComments_loop rest inLineComment inBlockComment result
        end
      else
        let plain :=
          if isspace c then
            if empty result || negb (match back result with
                                     | Some b => Ascii.eqb b " "
                                     | None => false
                                     end)
            then removeComments_loop rest inLineComment inBlockComment
                   (push_back result " ")
            else removeComments_loop rest inLineComment inBlockComment result
          else removeComments_loop rest inLineComment inBlockComment
                 (push_back result c) in
        match rest with
        | String c1 rest1 =>
            if Ascii.eqb c "/" then
              if Ascii.eqb c1 "/"
              then removeComments_loop rest1 true inBlockComment result
              else if Ascii.eqb c1 "*"
              then removeComments_loop rest1 inLineComment true result
              else plain
            else plain
        | EmptyString => plain
        end
  end.

Definition removeCommentsAndExtraSpaces (str : string) : string :=
  trim (removeComments_loop str false false "").

(** ** splitFields *)

Fixpoint splitFields_loop (content : string) (fields : list string)
    (currentField : string) (braceLevel : Z) : list string :=
  match content with
  | EmptyString =>
      if negb (empty currentField) then (fields ++ [trim currentField])%list
      else fields
  | String c rest =>
      let braceLevel :=
        if Ascii.eqb c "{" then to_int (braceLevel + 1)
        else if Ascii.eqb c "}" then to_int (braceLevel - 1)
        else braceLevel in
      if Ascii.eqb c ";" && Z.eqb braceLevel 0 then
        if negb (empty currentField)
        then splitFields_loop rest (fields ++ [trim currentField])%list "" braceLevel
        else splitFields_loop rest fields currentField braceLevel
      else splitFields_loop rest fields (push_back currentField c) braceLevel
  end.

Definition splitFields (content : string) : list string :=
  splitFields_loop content [] "" 0.

(** ** Regular expressions

    The five patterns of the source use literals, the classes [\s], [\w],
    [\d] and [.], the greedy quantifiers star and plus on a class, and capture
    groups around one quantified class.  [std::regex] (ECMAScript grammar)
    matches by backtracking: a greedy quantifier first takes as many
    characters as it can and gives them back one by one while the rest of
    the pattern fails. *)

Inductive atom : Type :=
| Lit (c : ascii)                 (* one literal character *)
| Star (cls : ascii -> bool)      (* a class, zero or more times *)
| Plus (cls : ascii -> bool).     (* a class, one or more times *)

Inductive node : Type :=
| Plain (a : atom)
| Capture (a : atom).             (* an atom inside a capture group *)

Definition regex : Type := list node.

Definition atom_of (n : node) : atom :=
  match n with
  | Plain a => a
  | Capture a => a
  end.

Definition captures (n : node) : bool :=
  match n with
  | Plain _ => false
  | Capture _ => true
  end.

(** Greedy repetition of a class followed by the continuation [k], which
    receives the characters taken and the text left. *)
Fixpoint greedy {A : Type} (cls : ascii -> bool) (s : string) (taken : string)
    (k : string -> string -> option A) : option A :=
  match s with
  | String c s' =>
      if cls c then
        match greedy cls s' (push_back taken c) k with
        | Some r => Some r
        | None => k taken s
        end
      else k taken s
  | EmptyString => k taken s
  end.

(** [exec r anchored s caps]: match [r] at the start of [s]; with [anchored]
    the match has to end where [s] ends.  The result is the list of the
    captured groups, in order. *)
Fixpoint exec (r : regex) (anchored : bool) (s : string) (caps : list string)
    : option (list string) :=
  match r with
  | [] => if anchored then (if empty s then Some caps else None) else Some caps
  | n :: r' =>
      let continue taken rest :=
        exec r' anchored rest (if captures n then caps ++ [taken] else caps)%list in
      match atom_of n with
      | Lit c =>
          match s with
          | String c' s' => if Ascii.eqb c c' then continue (String c' "") s' else None
          | EmptyString => None
          end
      | Star cls => greedy cls s "" continue
      | Plus cls =>
          greedy cls s "" (fun taken rest =>
            if empty taken then None else continue taken rest)
      end
  end.

(** [std::regex_match]: the whole string has to match. *)
Definition regex_match (r : regex) (s : string) : option (list string) :=
  exec r true s [].

(** [std::regex_search]: the first position at which the pattern matches. *)
Fixpoint regex_search (r : regex) (s : string) : option (list string) :=
  match exec r false s [] with
  | Some m => Some m
  | None =>
      match s with
      | String _ s' => regex_search r s'
      | EmptyString => None
      end
  end.

(** [match[i]] for [i >= 1]. *)
Definition sub_match (m : list string) (i : nat) : string := nth (i - 1) m "".

Fixpoint lits (s : string) : regex :=
  match s with
  | EmptyString => []
  | String c s' => Plain (Lit c) :: lits s'
  end.

(** Tokens of the pattern, blanks added:  struct  \s+  ( \w+ )  \s*  \{  *)
Definition structNameRegex : regex :=
  (lits "struct" ++
   [Plain (Plus isspace); Capture (Plus isword); Plain (Star isspace);
    Plain (Lit "{")])%list.

(** Tokens of the pattern, blanks added:  \{  ( .* )  \}  *)
Definition contentRegex : regex :=
  [Plain (Lit "{"); Capture (Star isdot); Plain (Lit "}")].

(** Tokens of the pattern, blanks added:  ( \w+ )  \s+  ( \w* )  \s*  :  \s*  ( \d+ )  *)
Definition bitFieldRegex : regex :=
  [Capture (Plus isword); Plain (Plus isspace); Capture (Star isword);
   Plain (Star isspace); Plain (Lit ":"); Plain (Star isspace);
   Capture (Plus isdigit)].

(** Tokens of the pattern, blanks added:  ( \w+ )  \s+  ( \w+ )  *)
Definition normalFieldRegex : regex :=
  [Capture (Plus isword); Plain (Plus isspace); Capture (Plus isword)].

(** Tokens of the pattern, blanks added:  ( \w+ )  \s*  :  \s*  ( \d+ )  *)
Definition anonymousBitFieldRegex : regex :=
  [Capture (Plus isword); Plain (Star isspace); Plain (Lit ":");
   Plain (Star isspace); Capture (Plus isdigit)].

(** Tokens of the pattern, blanks added:  ( \w+ )  \s+  ( \w+ )  .*  *)
Definition normalFieldWithMultipleSpaces : regex :=
  [Capture (Plus isword); Plain (Plus isspace); Capture (Plus isword);
   Plain (Star isdot)].

(** [std::regex_replace] with the pattern "\s+" and the text " ": every maximal run of
    white space becomes one space; [inRun] tells that the run was already
    replaced. *)
Fixpoint regex_replace_spaces (s : string) (inRun : bool) : string :=
  match s with
  | EmptyString => ""
  | String c rest =>
      if isspace c then
        if inRun then regex_replace_spaces rest true
        else String " " (regex_replace_spaces rest true)
      else String c (regex_replace_spaces rest false)
  end.

(** [std::stoi] on the digits a [(\d+)] group captured. *)
Fixpoint digits_value (s : string) (acc : Z) : Z :=
  match s with
  | String c rest =>
      if isdigit c then digits_value rest (10 * acc + (Z.of_N (N_of_ascii c) - 48))
      else acc
  | EmptyString => acc
  end.

Definition stoi (s : string) : result Z :=
  match s with
  | String c _ =>
      if isdigit c then
        let v := digits_value s 0 in
        if v >? INT_MAX then Err StoiOutOfRange else Ok v
      else Err StoiInvalid
  | EmptyString => Err StoiInvalid
  end.

(** ** parseStruct *)

(** The classification of one declaration (the four [regex_match] tests of
    the loop body).  [None] is the branch that prints a warning and goes on
    to the next declaration.  The members the layout assigns afterwards
    ([byteOffset], [bitOffset], [size]) are still unset here and shown as 0. *)
Definition classifyField (simplifiedLine : string) : result (option FieldInfo) :=
  match regex_match bitFieldRegex simplifiedLine with
  | Some m =>
      w <- stoi (sub_match m 3) ;;
      Ok (Some (mkFieldInfo (sub_match m 1) (sub_match m 2) w 0 0 0 true false))
  | None =>
  match regex_match anonymousBitFieldRegex simplifiedLine with
  | Some m =>
      w <- stoi (sub_match m 2) ;;
      Ok (Some (mkFieldInfo (sub_match m 1) "" w 0 0 0 true true))
  | None =>
  match regex_match normalFieldRegex simplifiedLine with
  | Some m =>
      Ok (Some (mkFieldInfo (sub_match m 1) (sub_match m 2) 0 0 0 0 false false))
  | None =>
  match regex_match normalFieldWithMultipleSpaces simplifiedLine with
  | Some m =>
      Ok (Some (mkFieldInfo (sub_match m 1) (sub_match m 2) 0 0 0 0 false false))
  | None => Ok None
  end end end end.

(** [i += sz] for an [int i] and a [size_t sz]: the sum is taken in
    [size_t] and converted back. *)
Definition int_add_size (i sz : Z) : Z := to_int (to_size_t (to_size_t i + sz)).

Definition set_layout (field : FieldInfo) (sz byteOff bitOff : Z) : FieldInfo :=
  mkFieldInfo (type field) (name field) (bitWidth field) byteOff bitOff sz
    (isBitField field) (isAnonymous field).

(** The variables the loop carries from one declaration to the next. *)
Record LoopState : Type := mkLoopState {
  currentByteOffset : Z;
  currentBitOffset : Z;
  structFields : list FieldInfo
}.

(** The layout of one classified field: the two branches of
    [if (!field.isBitField)].  The result is the field with its offsets and
    the two cursors after it. *)
Definition placeField (field : FieldInfo) (currentByteOffset currentBitOffset : Z)
    : result (FieldInfo * Z * Z) :=
  if negb (isBitField field) then
    sz <- getTypeSize (type field) ;;
    Ok (set_layout field sz currentByteOffset 0,
        int_add_size currentByteOffset sz, 0)
  else
    typeSize <- getTypeSize (type field) ;;
    let '(currentByteOffset, currentBitOffset) :=
      if to_size_t (to_int (currentBitOffset + bitWidth field))
           >? to_size_t (typeSize * 8)
      then (int_add_size currentByteOffset typeSize, 0)
      else (currentByteOffset, currentBitOffset) in
    let field := set_layout field typeSize currentByteOffset currentBitOffset in
    let currentBitOffset := to_int (currentBitOffset + bitWidth field) in
    if to_size_t currentBitOffset >=? to_size_t (typeSize * 8)
    then Ok (field, int_add_size currentByteOffset typeSize, 0)
    else Ok (field, currentByteOffset, currentBitOffset).

(** What one [fieldLine] declares: nothing for an empty line; otherwise the
    line is simplified and classified. *)
Definition declaration (fieldLine : string) : result (option FieldInfo) :=
  if empty fieldLine then Ok None
  else
    let simplifiedLine := trim (regex_replace_spaces fieldLine false) in
    classifyField simplifiedLine.

(** One turn of [for (const auto& fieldLine : fields)]. *)
Definition parseField (fieldLine : string) (st : LoopState) : result LoopState :=
  classified <- declaration fieldLine ;;
  match classified with
  | None => Ok st
  | Some field =>
      placed <- placeField field (currentByteOffset st) (currentBitOffset st) ;;
      let '(field, byteOff, bitOff) := placed in
      Ok (mkLoopState byteOff bitOff
            (if negb (isAnonymous field)
             then (structFields st ++ [field])%list
             else structFields st))
  end.

Fixpoint parseFields (fieldLines : list string) (st : LoopState) : result LoopState :=
  match fieldLines with
  | [] => Ok st
  | fieldLine :: rest =>
      st' <- parseField fieldLine st ;;
      parseFields rest st'
  end.

Definition initialState : LoopState := mkLoopState 0 0 [].

(** [structInfo.totalSize = currentByteOffset + (currentBitOffset > 0 ?
    getTypeSize("uint8_t") : 0)], computed in [size_t]. *)
Definition finalSize (st : LoopState) : result Z :=
  extra <- (if currentBitOffset st >? 0 then getTypeSize "uint8_t" else Ok 0) ;;
  Ok (to_size_t (to_size_t (currentByteOffset st) + extra)).

Definition parseStruct (structText : string) : result StructInfo :=
  let processedText := removeCommentsAndExtraSpaces structText in
  let structName :=
    match regex_search structNameRegex processedText with
    | Some m => sub_match m 1
    | None => ""
    end in
  match regex_search contentRegex processedText with
  | Some m =>
      let content := sub_match m 1 in
      st <- parseFields (splitFields content) initialState ;;
      total <- finalSize st ;;
      Ok (mkStructInfo structName (structFields st) total)
  | None => Err StructBodyNotFound
  end.

Definition struct_sizeof (structText : string) : result Z :=
  structInfo <- parseStruct structText ;;
  Ok (totalSize structInfo).

(** ** The buffer *)

Definition byte_val (c : ascii) : Z := Z.of_N (N_of_ascii c).
Definition byte_of (z : Z) : ascii := ascii_of_N (Z.to_N (z mod 256)).

(** The unsigned integer a run of bytes holds, low byte first. *)
Fixpoint load (bs : list ascii) : Z :=
  match bs with
  | [] => 0
  | b :: bs' => byte_val b + 256 * load bs'
  end.

(** The [n] low bytes of an integer, low byte first. *)
Fixpoint store (n : nat) (z : Z) : list ascii :=
  match n with
  | O => []
  | S n' => byte_of z :: store n' (z / 256)
  end.

Definition in_buffer (buffer : list ascii) (off sz : Z) : bool :=
  (0 <=? off) && (0 <=? sz) && (off + sz <=? Z.of_nat (List.length buffer)).

(** [std::memcpy(&v, buffer + off, sz)] into a zeroed 64-bit [v]. *)
Definition memcpy_from (buffer : list ascii) (off sz : Z) : result Z :=
  if in_buffer buffer off sz
  then Ok (load (firstn (Z.to_nat sz) (skipn (Z.to_nat off) buffer)))
  else Err Undefined.

(** [std::memcpy(buffer + off, &v, sz)] from a 64-bit [v]. *)
Definition memcpy_to (buffer : list ascii) (off sz : Z) (v : Z)
    : result (list ascii) :=
  if in_buffer buffer off sz
  then Ok (firstn (Z.to_nat off) buffer ++ store (Z.to_nat sz) v
           ++ skipn (Z.to_nat (off + sz)) buffer)%list
  else Err Undefined.

(** Shifts of a [uint64_t] by an [int]; a count outside [0, 64) is undefined. *)
Definition shl64 (a n : Z) : result Z :=
  if (0 <=? n) && (n <? 64) then Ok (to_size_t (Z.shiftl a n)) else Err Undefined.

Definition shr64 (a n : Z) : result Z :=
  if (0 <=? n) && (n <? 64) then Ok (Z.shiftr a n) else Err Undefined.

Definition not64 (a : Z) : Z := to_size_t (Z.lnot a).

(** ** struct_write, struct_read, FieldType *)

Fixpoint find_field (fieldName : string) (fs : list FieldInfo) : option FieldInfo :=
  match fs with
  | [] => None
  | field :: fs' =>
      if String.eqb (name field) fieldName then Some field
      else find_field fieldName fs'
  end.

(** [value] is the 64-bit object the [void *value] points to. *)
Definition struct_write (structText fieldName : string) (value : Z)
    (buffer : list ascii) : result (list ascii) :=
  structInfo <- parseStruct structText ;;
  match find_field fieldName (fields structInfo) with
  | Some field =>
      if negb (isBitField field) then
        memcpy_to buffer (byteOffset field) (size field) (to_size_t value)
      else
        one <- shl64 1 (bitWidth field) ;;
        let mask := to_size_t (one - 1) in
        let fieldValue := Z.land (to_size_t value) mask in
        currentValue <- memcpy_from buffer (byteOffset field) (size field) ;;
        shifted <- shl64 mask (bitOffset field) ;;
        let clearMask := not64 shifted in
        let currentValue := Z.land currentValue clearMask in
        moved <- shl64 fieldValue (bitOffset field) ;;
        let currentValue := Z.lor currentValue moved in
        memcpy_to buffer (byteOffset field) (size field) currentValue
  | None => Err (FieldNotFound fieldName)
  end.

(** [struct_read<T>] for an unsigned integer type [T] of [sizeofT] bytes.
    For a plain field the [memcpy] of [field.size] bytes into a [T] is
    defined only when the two sizes agree. *)
Definition struct_read (sizeofT : Z) (structText fieldName : string)
    (buffer : list ascii) : result Z :=
  structInfo <- parseStruct structText ;;
  match find_field fieldName (fields structInfo) with
  | Some field =>
      if negb (isBitField field) then
        if size field =? sizeofT
        then memcpy_from buffer (byteOffset field) (size field)
        else Err Undefined
      else
        containerValue <- memcpy_from buffer (byteOffset field) (size field) ;;
        one <- shl64 1 (bitWidth field) ;;
        let mask := to_size_t (one - 1) in
        moved <- shr64 containerValue (bitOffset field) ;;
        let fieldValue := Z.land moved mask in
        Ok (fieldValue mod 2 ^ (8 * sizeofT))
  | None => Err (FieldNotFound fieldName)
  end.

Definition FieldType (StructText FieldName : string) : result string :=
  StructInfo <- parseStruct StructText ;;
  match find_field FieldName (fields StructInfo) with
  | Some field => Ok (type field)
  | None => Ok ""
  end.

(** [StructWrite] for an [int64_t value]: [struct_write] under
    [try { ... } catch (...) { return -1; }].  The result is the returned
    code and the buffer after the call; an exception leaves the buffer as it
    was, since [struct_write] throws before it copies anything.  What C++
    leaves undefined is not an exception and is not caught. *)
Definition StructWrite (StructText FieldName : string) (value : Z)
    (buffer : list ascii) : result (Z * list ascii) :=
  match struct_write StructText FieldName value buffer with
  | Ok buffer' => Ok (0, buffer')
  | Err Undefined => Err Undefined
  | Err _ => Ok (-1, buffer)
  end.

(** [StructSizeOf]: the [size_t] of [struct_sizeof] returned as an
    [int32_t]. *)
Definition StructSizeOf (StructString : string) : result Z :=
  sz <- struct_sizeof StructString ;;
  Ok (to_int sz).

(** * Vocabulary of the statements

    Predicates and functions the lemmas and the claims are stated with;
    nothing below belongs to the source. *)

(** A classified field, before the layout fills it in. *)
Record classified (f : FieldInfo) : Prop := {
  cl_width : 0 <= bitWidth f <= INT_MAX;
  cl_plain : isBitField f = false -> bitWidth f = 0;
  cl_anonymous : isAnonymous f = true -> isBitField f = true /\ name f = ""
}.

(** What holds of every field of a layout, whatever the length of the text. *)
Record field_wf (f : FieldInfo) : Prop := {
  wf_size : getTypeSize (type f) = Ok (size f);
  wf_width : 0 <= bitWidth f <= INT_MAX;
  wf_bitOffset : 0 <= bitOffset f < 64;
  wf_plain : isBitField f = false -> bitWidth f = 0 /\ bitOffset f = 0;
  wf_named : isAnonymous f = false;
  wf_fits : isBitField f = true -> bitWidth f <= size f * 8 ->
            bitOffset f + bitWidth f <= size f * 8
}.

(** The bit cursor stays below 64 and every field placed so far is well
    formed. *)
Definition bits_inv (st : LoopState) : Prop :=
  0 <= currentBitOffset st < 64 /\ Forall field_wf (structFields st).

(** After [n] declarations the byte cursor is at most [16 * n]: a field
    moves it by at most twice its size. *)
Definition bytes_inv (n : Z) (st : LoopState) : Prop :=
  0 <= currentByteOffset st <= 16 * n /\
  Forall (fun f => 0 <= byteOffset f <= currentByteOffset st) (structFields st) /\
  StronglySorted Z.le (map byteOffset (structFields st)).

(** Every character of a string passes a test. *)
Fixpoint forall_chars (P : ascii -> bool) (s : string) : bool :=
  match s with
  | EmptyString => true
  | String c rest => P c && forall_chars P rest
  end.

(** The characters the normalizer lets through: the space and whatever is
    not white space. *)
Definition kept (c : ascii) : bool := Ascii.eqb c " " || negb (isspace c).


(** What [parseStruct] extracts from the text before its loop: the struct
    name, the text between the braces, and the declarations it is split
    into. *)
Definition structNameOf (structText : string) : string :=
  match regex_search structNameRegex (removeCommentsAndExtraSpaces structText) with
  | Some m => sub_match m 1
  | None => ""
  end.

Definition structBody (structText : string) : option string :=
  match regex_search contentRegex (removeCommentsAndExtraSpaces structText) with
  | Some m => Some (sub_match m 1)
  | None => None
  end.

Definition fieldLines (structText : string) : option (list string) :=
  option_map splitFields (structBody structText).

(** Texts shorter than 2^27 characters (128 MiB) keep the byte cursor inside
    [int]: the layout then is the one plain arithmetic gives. *)
Definition short_text (structText : string) : Prop :=
  Z.of_nat (String.length structText) < 2 ^ 27.





(** What a capture group can hold, by the atom it encloses. *)
Definition capture_ok (n : node) (g : string) : Prop :=
  match atom_of n with
  | Lit c => g = String c ""
  | Star cls => forall_chars cls g = true
  | Plus cls => forall_chars cls g = true /\ empty g = false
  end.

(** The failures of the loop: a width out of range or an unknown type. *)
Definition loop_failure (e : failure) : Prop :=
  e = StoiOutOfRange
  \/ exists ty, e = UnknownType ty /\ find_type ty typeSizes = None.

(** The [sz] bytes of the buffer from offset [off] on. *)
Definition storage_unit (buffer : list ascii) (off sz : Z) : list ascii :=
  firstn (Z.to_nat sz) (skipn (Z.to_nat off) buffer).

(** The value [struct_write] stores back: the container [cur] with the bits
    of the field cleared and the masked value put in their place. *)
Definition write_value (cur x w bo : Z) : Z :=
  let mask := to_size_t (to_size_t (Z.shiftl 1 w) - 1) in
  Z.lor (Z.land cur (not64 (to_size_t (Z.shiftl mask bo))))
        (to_size_t (Z.shiftl (Z.land (to_size_t x) mask) bo)).

(** The characters [trim] strips. *)
Definition trim_char (c : ascii) : bool := mem_char c trim_set.

(** The first character of a string passes a test, if there is one. *)
Definition first_char (P : ascii -> bool) (s : string) : Prop :=
  match s with
  | String c _ => P c = true
  | EmptyString => True
  end.

(** The last character of a string passes a test, if there is one. *)
Definition last_char (P : ascii -> bool) (s : string) : Prop :=
  match back s with
  | Some c => P c = true
  | None => True
  end.

(** Characters that are neither a brace nor a semicolon, and characters that
    are not a brace. *)
Definition not_brace (c : ascii) : bool :=
  negb (Ascii.eqb c "{") && negb (Ascii.eqb c "}").
Definition not_brace_or_semicolon (c : ascii) : bool :=
  not_brace c && negb (Ascii.eqb c ";").

(** What the part of the text matched by an atom can be. *)
Definition piece_ok (a : atom) (p : string) : Prop :=
  match a with
  | Lit c => p = String c ""
  | Star cls => forall_chars cls p = true
  | Plus cls => forall_chars cls p = true /\ empty p = false
  end.

(** The concatenation of a list of strings. *)
Definition concat_pieces (pieces : list string) : string :=
  fold_right append "" pieces.

(** Tests on the characters of a comment. *)
Definition not_slash (c : ascii) : bool := negb (Ascii.eqb c "/").
Definition not_newline (c : ascii) : bool := negb (Ascii.eqb c LF).

(** Two bytes for the examples: all bits clear, all bits set. *)
Definition zero_byte : ascii := Ascii.zero.
Definition full_byte : ascii := byte_of 255.

(** The text up to the last character [trim] keeps. *)
Definition keep_to_last (s : string) : string :=
  match find_last_not_of trim_set s with
  | Some last => substring 0 (S last) s
  | None => ""
  end.

(** No two spaces in a row. *)
Fixpoint no_double_space (s : string) : bool :=
  match s with
  | String c (String d _ as rest) =>
      negb (Ascii.eqb c " " && Ascii.eqb d " ") && no_double_space rest
  | _ => true
  end.

(** An atom that cannot be matched inside a text all of whose characters
    pass the test [P]. *)
Definition needs_other (P : ascii -> bool) (a : atom) : Prop :=
  match a with
  | Lit c => P c = false
  | Plus cls => forall c, cls c = true -> P c = false
  | Star _ => False
  end.

(** An atom that matches only characters that pass the test [Q]. *)
Definition stays_within (Q : ascii -> bool) (a : atom) : Prop :=
  match a with
  | Lit c => Q c = true
  | Plus cls | Star cls => forall c, cls c = true -> Q c = true
  end.

(** Neither white space nor a colon. *)
Definition no_space_no_colon (c : ascii) : bool :=
  negb (isspace c) && negb (Ascii.eqb c ":").

(** A word character or white space. *)
Definition word_or_space (c : ascii) : bool := isword c || isspace c.

(** Two fields of a layout that share no bit of storage: their byte ranges
    are disjoint, or they are bit-fields of one storage unit whose bit
    ranges are disjoint. *)
Definition separate (f g : FieldInfo) : Prop :=
  byteOffset g + size g <= byteOffset f
  \/ byteOffset f + size f <= byteOffset g
  \/ (isBitField f = true /\ isBitField g = true /\
      byteOffset f = byteOffset g /\ size f = size g /\
      (bitOffset g + bitWidth g <= bitOffset f
       \/ bitOffset f + bitWidth f <= bitOffset g)).

(** Nothing placed after a plain field starts before the end of it. *)
Definition clear_of (f g : FieldInfo) : Prop :=
  isBitField f = false -> byteOffset f + size f <= byteOffset g.

(** The plain fields placed so far end at or before the byte cursor, and
    each is clear of the fields placed after it. *)
Definition plain_inv (st : LoopState) : Prop :=
  Forall (fun f => isBitField f = false ->
                   0 <= byteOffset f /\ byteOffset f + size f <= currentByteOffset st)
         (structFields st)
  /\ ForallOrdPairs clear_of (structFields st).

(** The name of a field is made of word characters, and is not empty
    unless the field is a bit-field. *)
Definition word_name (f : FieldInfo) : Prop :=
  forall_chars isword (name f) = true
  /\ (isBitField f = false -> empty (name f) = false).

(** [f] is the first field of the sequence whose name is [fieldName]. *)
Definition first_named (fieldName : string) (fs : list FieldInfo) (f : FieldInfo)
    : Prop :=
  exists before after,
    fs = (before ++ f :: after)%list /\
    name f = fieldName /\
    Forall (fun g => name g <> fieldName) before.

(** No field of the sequence has the name [fieldName]. *)
Definition not_listed (fieldName : string) (fs : list FieldInfo) : Prop :=
  Forall (fun g => name g <> fieldName) fs.

(** * Properties *)

(** ** Machine integers inside their range *)

Lemma to_int_small (z : Z) : - 2 ^ 31 <= z < 2 ^ 31 -> to_int z = z.
Proof.
  intros H. unfold to_int. rewrite Z.mod_small by lia. lia.
Qed.

Lemma to_size_t_small (z : Z) : 0 <= z < 2 ^ 64 -> to_size_t z = z.
Proof.
  intros H. unfold to_size_t. apply Z.mod_small. exact H.
Qed.

Lemma int_add_size_small (i sz : Z) :
  0 <= i -> 0 <= sz -> i + sz <= INT_MAX -> int_add_size i sz = i + sz.
Proof.
  unfold INT_MAX. intros Hi Hsz Hsum. unfold int_add_size.
  rewrite (to_size_t_small i) by lia.
  rewrite to_size_t_small by lia.
  apply to_int_small. lia.
Qed.

(** An [int] sum of a bit cursor and a width, converted to [size_t]: either
    the sum itself or, when the sum wrapped, a huge number. *)
Lemma int_sum_as_size_t (bitc w : Z) :
  0 <= bitc < 64 -> 0 <= w <= INT_MAX ->
  (bitc + w <= INT_MAX /\ to_int (bitc + w) = bitc + w
   /\ to_size_t (to_int (bitc + w)) = bitc + w)
  \/ (bitc + w > INT_MAX /\ to_size_t (to_int (bitc + w)) >= 2 ^ 63).
Proof.
  unfold INT_MAX. intros Hb Hw.
  destruct (Z_le_gt_dec (bitc + w) (2 ^ 31 - 1)) as [Hle | Hgt].
  - left. rewrite to_int_small by lia. rewrite to_size_t_small by lia. lia.
  - right. split; [ exact Hgt | ].
    assert (Hwrap : to_int (bitc + w) = bitc + w - 2 ^ 32).
    { unfold to_int.
      rewrite <- (Z.mod_unique (bitc + w + 2 ^ 31) (2 ^ 32) 1 (bitc + w - 2 ^ 31)); lia. }
    rewrite Hwrap.
    assert (Hbig : to_size_t (bitc + w - 2 ^ 32) = bitc + w - 2 ^ 32 + 2 ^ 64).
    { unfold to_size_t. symmetry.
      apply (Z.mod_unique _ _ (-1)); lia. }
    rewrite Hbig. lia.
Qed.

(** The two tests of [placeField] compare what the plain sum compares. *)
Lemma overflow_test_exact (bitc w sz : Z) :
  0 <= bitc < 64 -> 0 <= w <= INT_MAX -> 1 <= sz <= 8 ->
  (to_size_t (to_int (bitc + w)) >? to_size_t (sz * 8)) = (bitc + w >? sz * 8).
Proof.
  intros Hb Hw Hsz.
  rewrite (to_size_t_small (sz * 8)) by lia.
  rewrite !Z.gtb_ltb.
  destruct (int_sum_as_size_t bitc w Hb Hw) as [(_ & _ & ->) | (Hgt & Hbig)].
  - reflexivity.
  - unfold INT_MAX in Hgt.
    transitivity true; [ | symmetry ]; apply Z.ltb_lt; lia.
Qed.

Lemma full_test_exact (bitc w sz : Z) :
  0 <= bitc < 64 -> 0 <= w <= INT_MAX -> 1 <= sz <= 8 ->
  (to_size_t (to_int (bitc + w)) >=? to_size_t (sz * 8)) = (bitc + w >=? sz * 8).
Proof.
  intros Hb Hw Hsz.
  rewrite (to_size_t_small (sz * 8)) by lia.
  rewrite !Z.geb_leb.
  destruct (int_sum_as_size_t bitc w Hb Hw) as [(_ & _ & ->) | (Hgt & Hbig)].
  - reflexivity.
  - unfold INT_MAX in Hgt.
    transitivity true; [ | symmetry ]; apply Z.leb_le; lia.
Qed.

(** ** The registry *)

Lemma find_type_sizes (ty : string) (sz : Z) :
  find_type ty typeSizes = Some sz -> sz = 1 \/ sz = 2 \/ sz = 4 \/ sz = 8.
Proof.
  unfold typeSizes. cbn [find_type].
  repeat (destruct (String.eqb _ ty); [ intros [= <-]; lia | ]).
  discriminate.
Qed.

Lemma getTypeSize_Ok (ty : string) (sz : Z) :
  getTypeSize ty = Ok sz <-> find_type ty typeSizes = Some sz.
Proof.
  unfold getTypeSize.
  destruct (find_type ty typeSizes); split; congruence.
Qed.

Lemma getTypeSize_Err (ty : string) (e : failure) :
  getTypeSize ty = Err e -> e = UnknownType ty /\ find_type ty typeSizes = None.
Proof.
  unfold getTypeSize.
  destruct (find_type ty typeSizes); intros [= <-]; auto.
Qed.

Lemma getTypeSize_sizes (ty : string) (sz : Z) :
  getTypeSize ty = Ok sz -> sz = 1 \/ sz = 2 \/ sz = 4 \/ sz = 8.
Proof.
  intros H. apply getTypeSize_Ok in H. eapply find_type_sizes; eassumption.
Qed.

(** ** The layout of one field *)

(** [placeField] with the bit arithmetic freed of its conversions. *)
Lemma placeField_plain (field : FieldInfo) (bc bitc : Z) :
  isBitField field = false ->
  placeField field bc bitc =
    (sz <- getTypeSize (type field) ;;
     Ok (set_layout field sz bc 0, int_add_size bc sz, 0)).
Proof.
  intros Hplain. unfold placeField. rewrite Hplain. reflexivity.
Qed.

Lemma placeField_bits (field : FieldInfo) (bc bitc sz : Z) :
  isBitField field = true ->
  getTypeSize (type field) = Ok sz ->
  0 <= bitc < 64 -> 0 <= bitWidth field <= INT_MAX ->
  placeField field bc bitc =
    let over := bitc + bitWidth field >? sz * 8 in
    let bc1 := if over then int_add_size bc sz else bc in
    let bitc1 := if over then 0 else bitc in
    let full := bitc1 + bitWidth field >=? sz * 8 in
    Ok (set_layout field sz bc1 bitc1,
        if full then int_add_size bc1 sz else bc1,
        if full then 0 else bitc1 + bitWidth field).
Proof.
  intros Hbits Hsz Hbitc Hw.
  assert (Hrange : 1 <= sz <= 8) by (apply getTypeSize_sizes in Hsz; lia).
  unfold placeField. rewrite Hbits, Hsz. cbn [negb bind].
  rewrite overflow_test_exact by assumption.
  cbv zeta.
  destruct (bitc + bitWidth field >? sz * 8) eqn:Hover; cbn [bitWidth set_layout].
  - rewrite full_test_exact by lia.
    destruct (0 + bitWidth field >=? sz * 8) eqn:Hfull; [ reflexivity | ].
    rewrite Z.geb_leb in Hfull. apply Z.leb_gt in Hfull.
    rewrite to_int_small by lia. reflexivity.
  - rewrite full_test_exact by lia.
    destruct (bitc + bitWidth field >=? sz * 8) eqn:Hfull; [ reflexivity | ].
    rewrite Z.geb_leb in Hfull. apply Z.leb_gt in Hfull.
    rewrite to_int_small by lia. reflexivity.
Qed.

(** ** What a declaration can be *)

Lemma isdigit_value (c : ascii) :
  isdigit c = true -> 0 <= Z.of_N (N_of_ascii c) - 48 <= 9.
Proof.
  unfold isdigit. intros H. apply andb_prop in H as [Hlo Hhi].
  apply N.leb_le in Hlo, Hhi. lia.
Qed.

Lemma digits_value_nonneg (s : string) (acc : Z) :
  0 <= acc -> 0 <= digits_value s acc.
Proof.
  revert acc. induction s as [ | c s IH]; intros acc Hacc; cbn [digits_value].
  - exact Hacc.
  - destruct (isdigit c) eqn:Hc; [ | exact Hacc ].
    apply IH. pose proof (isdigit_value c Hc). lia.
Qed.

Lemma stoi_range (s : string) (v : Z) : stoi s = Ok v -> 0 <= v <= INT_MAX.
Proof.
  unfold stoi. destruct s as [ | c s]; [ discriminate | ].
  destruct (isdigit c); [ | discriminate ].
  destruct (digits_value (String c s) 0 >? INT_MAX) eqn:Hcmp; [ discriminate | ].
  intros [= <-]. split.
  - apply (digits_value_nonneg (String c s) 0). lia.
  - rewrite Z.gtb_ltb in Hcmp. apply Z.ltb_ge in Hcmp. exact Hcmp.
Qed.

Lemma classifyField_classified (line : string) (f : FieldInfo) :
  classifyField line = Ok (Some f) -> classified f.
Proof.
  unfold classifyField.
  destruct (regex_match bitFieldRegex line) as [m | ].
  { destruct (stoi (sub_match m 3)) as [w | e] eqn:Hw; cbn [bind]; [ | discriminate ].
    intros [= <-]. apply stoi_range in Hw.
    constructor; cbn; intros; try discriminate; auto. }
  destruct (regex_match anonymousBitFieldRegex line) as [m | ].
  { destruct (stoi (sub_match m 2)) as [w | e] eqn:Hw; cbn [bind]; [ | discriminate ].
    intros [= <-]. apply stoi_range in Hw.
    constructor; cbn; intros; try discriminate; auto. }
  destruct (regex_match normalFieldRegex line) as [m | ].
  { intros [= <-]. constructor; cbn; intros; try discriminate; auto.
    unfold INT_MAX; lia. }
  destruct (regex_match normalFieldWithMultipleSpaces line) as [m | ].
  { intros [= <-]. constructor; cbn; intros; try discriminate; auto.
    unfold INT_MAX; lia. }
  discriminate.
Qed.

Lemma declaration_classified (line : string) (f : FieldInfo) :
  declaration line = Ok (Some f) -> classified f.
Proof.
  unfold declaration. destruct (empty line); [ discriminate | ].
  apply classifyField_classified.
Qed.

(** ** Invariants of the loop over the declarations *)

Lemma bits_inv_initial : bits_inv initialState.
Proof.
  split; cbn; [ lia | constructor ].
Qed.

(** The result of [parseField] on a line that declares a field. *)
Lemma parseField_declared (line : string) (st st' : LoopState) (field : FieldInfo) :
  declaration line = Ok (Some field) ->
  bits_inv st ->
  parseField line st = Ok st' ->
  exists sz placed,
    getTypeSize (type field) = Ok sz /\
    placeField field (currentByteOffset st) (currentBitOffset st)
      = Ok (placed, currentByteOffset st', currentBitOffset st') /\
    placed = set_layout field sz (byteOffset placed) (bitOffset placed) /\
    structFields st' = (if negb (isAnonymous field)
                        then (structFields st ++ [placed])%list
                        else structFields st) /\
    0 <= currentBitOffset st' < 64 /\
    0 <= bitOffset placed < 64 /\
    (isBitField field = false -> bitOffset placed = 0) /\
    (isBitField field = true ->
       bitOffset placed =
         (if currentBitOffset st + bitWidth field >? sz * 8
          then 0 else currentBitOffset st)) /\
    (isBitField field = true -> bitWidth field <= sz * 8 ->
       bitOffset placed + bitWidth field <= sz * 8).
Proof.
  intros Hdecl [Hbit _] Hstep.
  pose proof (declaration_classified _ _ Hdecl) as Hcl.
  unfold parseField in Hstep. rewrite Hdecl in Hstep. cbn [bind] in Hstep.
  destruct (getTypeSize (type field)) as [sz | e] eqn:Hsz.
  2:{ unfold placeField in Hstep. rewrite Hsz in Hstep.
      destruct (negb (isBitField field)); discriminate. }
  assert (Hrange : 1 <= sz <= 8) by (apply getTypeSize_sizes in Hsz; lia).
  exists sz.
  destruct (isBitField field) eqn:Hbf.
  - rewrite (placeField_bits field _ _ sz Hbf Hsz Hbit (cl_width _ Hcl)) in *.
    cbv zeta in *. cbn [bind] in Hstep.
    destruct (currentBitOffset st + bitWidth field >? sz * 8) eqn:Hover;
      [ destruct (0 + bitWidth field >=? sz * 8) eqn:Hfull
      | destruct (currentBitOffset st + bitWidth field >=? sz * 8) eqn:Hfull ];
      injection Hstep as <-; cbn;
      rewrite ?Z.gtb_ltb, ?Z.geb_leb in *;
      try apply Z.ltb_lt in Hover; try apply Z.ltb_ge in Hover;
      try apply Z.leb_le in Hfull; try apply Z.leb_gt in Hfull;
      pose proof (cl_width _ Hcl) as Hw;
      (eexists; repeat split; cbn; intros;
       try reflexivity; try discriminate; try lia).
  - rewrite (placeField_plain field _ _ Hbf) in *. rewrite Hsz in *.
    cbn [bind] in Hstep. injection Hstep as <-. cbn.
    eexists; repeat split; try reflexivity; try discriminate; try lia.
Qed.

Lemma parseField_skipped (line : string) (st : LoopState) :
  declaration line = Ok None -> parseField line st = Ok st.
Proof.
  intros H. unfold parseField. rewrite H. reflexivity.
Qed.

Lemma parseField_cases (line : string) (st st' : LoopState) :
  parseField line st = Ok st' ->
  (declaration line = Ok None /\ st' = st)
  \/ (exists field, declaration line = Ok (Some field)).
Proof.
  unfold parseField.
  destruct (declaration line) as [[field | ] | e]; cbn [bind].
  - intros _. right. exists field. reflexivity.
  - intros [= <-]. left. auto.
  - discriminate.
Qed.

Lemma parseField_bits_inv (line : string) (st st' : LoopState) :
  bits_inv st -> parseField line st = Ok st' -> bits_inv st'.
Proof.
  intros Hinv Hstep.
  destruct (parseField_cases _ _ _ Hstep) as [(_ & ->) | (field & Hdecl)];
    [ exact Hinv | ].
  pose proof (declaration_classified _ _ Hdecl) as Hcl.
  destruct (parseField_declared _ _ _ _ Hdecl Hinv Hstep)
    as (sz & placed & Hsz & _ & Hplaced & Hfields & Hbit' & Hbo & Hplain & _ & Hfits).
  split; [ exact Hbit' | ].
  rewrite Hfields. destruct Hinv as [_ Hall].
  destruct (isAnonymous field) eqn:Hanon; cbn [negb]; [ exact Hall | ].
  apply Forall_app. split; [ exact Hall | ].
  constructor; [ | constructor ].
  rewrite Hplaced. constructor; cbn.
  - exact Hsz.
  - exact (cl_width _ Hcl).
  - exact Hbo.
  - intros Hbf. split; [ exact (cl_plain _ Hcl Hbf) | exact (Hplain Hbf) ].
  - exact Hanon.
  - exact Hfits.
Qed.

Lemma parseFields_app (before after : list string) (st : LoopState) :
  parseFields (before ++ after) st =
    (st' <- parseFields before st ;; parseFields after st').
Proof.
  revert st. induction before as [ | line before IH]; intros st; cbn.
  - reflexivity.
  - destruct (parseField line st) as [st1 | e]; cbn [bind]; auto.
Qed.

Lemma parseFields_bits_inv (lines : list string) (st st' : LoopState) :
  bits_inv st -> parseFields lines st = Ok st' -> bits_inv st'.
Proof.
  revert st. induction lines as [ | line lines IH]; intros st Hinv; cbn.
  - intros [= <-]. exact Hinv.
  - destruct (parseField line st) as [st1 | e] eqn:Hstep; cbn [bind]; [ | discriminate ].
    apply IH. eapply parseField_bits_inv; eassumption.
Qed.

(** The loop only appends to [structInfo.fields]. *)
Lemma parseField_appends (line : string) (st st' : LoopState) :
  parseField line st = Ok st' ->
  exists more, structFields st' = (structFields st ++ more)%list.
Proof.
  unfold parseField.
  destruct (declaration line) as [[field | ] | e]; cbn [bind]; try discriminate.
  - destruct (placeField _ _ _) as [[[placed bc] bitc] | e]; cbn [bind];
      [ | discriminate ].
    intros [= <-]. cbn.
    destruct (negb (isAnonymous placed)); [ eexists; reflexivity | ].
    exists []. symmetry. apply app_nil_r.
  - intros [= <-]. exists []. symmetry. apply app_nil_r.
Qed.

Lemma parseFields_appends (lines : list string) (st st' : LoopState) :
  parseFields lines st = Ok st' ->
  exists more, structFields st' = (structFields st ++ more)%list.
Proof.
  revert st. induction lines as [ | line lines IH]; intros st; cbn.
  - intros [= <-]. exists []. symmetry. apply app_nil_r.
  - destruct (parseField line st) as [st1 | e] eqn:Hstep; cbn [bind]; [ | discriminate ].
    intros Hrest. apply IH in Hrest as (more2 & ->).
    apply parseField_appends in Hstep as (more1 & ->).
    exists (more1 ++ more2)%list. symmetry. apply app_assoc.
Qed.

(** ** The byte cursor while it stays inside [int] *)

Lemma placeField_bytes (field placed : FieldInfo) (bc bitc bc' bitc' : Z) :
  classified field ->
  0 <= bitc < 64 -> 0 <= bc -> bc + 16 <= INT_MAX ->
  placeField field bc bitc = Ok (placed, bc', bitc') ->
  exists sz,
    getTypeSize (type field) = Ok sz /\
    bc <= byteOffset placed <= bc' /\ bc' <= bc + 16 /\
    (isBitField field = false ->
       byteOffset placed = bc /\ bc' = bc + sz /\ bitc' = 0) /\
    (isBitField field = true ->
       byteOffset placed =
         (if bitc + bitWidth field >? sz * 8 then bc + sz else bc) /\
       bc' = (if bitOffset placed + bitWidth field >=? sz * 8
              then byteOffset placed + sz else byteOffset placed) /\
       bitc' = (if bitOffset placed + bitWidth field >=? sz * 8
                then 0 else bitOffset placed + bitWidth field)).
Proof.
  intros Hcl Hbitc Hbc Hmax Hplace.
  destruct (getTypeSize (type field)) as [sz | e] eqn:Hsz.
  2:{ unfold placeField in Hplace. rewrite Hsz in Hplace.
      destruct (negb (isBitField field)); discriminate. }
  assert (Hrange : 1 <= sz <= 8) by (apply getTypeSize_sizes in Hsz; lia).
  exists sz. split; [ reflexivity | ].
  destruct (isBitField field) eqn:Hbf.
  - rewrite (placeField_bits field _ _ sz Hbf Hsz Hbitc (cl_width _ Hcl)) in Hplace.
    cbv zeta in Hplace.
    destruct (bitc + bitWidth field >? sz * 8) eqn:Hover.
    + rewrite (int_add_size_small bc sz) in Hplace by lia.
      rewrite !Z.add_0_l in Hplace.
      destruct (bitWidth field >=? sz * 8) eqn:Hfull;
        [ rewrite (int_add_size_small (bc + sz) sz) in Hplace by lia | ];
        injection Hplace as <- <- <-; cbn; rewrite Hfull;
        repeat split; intros; try discriminate; try lia.
    + destruct (bitc + bitWidth field >=? sz * 8) eqn:Hfull;
        [ rewrite (int_add_size_small bc sz) in Hplace by lia | ];
        injection Hplace as <- <- <-; cbn; rewrite Hfull;
        repeat split; intros; try discriminate; try lia.
  - rewrite (placeField_plain field _ _ Hbf), Hsz in Hplace. cbn [bind] in Hplace.
    rewrite (int_add_size_small bc sz) in Hplace by lia.
    injection Hplace as <- <- <-; cbn.
    repeat split; intros; try discriminate; try lia.
Qed.

Lemma StronglySorted_snoc (l : list Z) (x : Z) :
  StronglySorted Z.le l -> Forall (fun y => y <= x) l ->
  StronglySorted Z.le (l ++ [x]).
Proof.
  induction 1 as [ | y l Hsorted IH Hy]; intros Hall; cbn.
  - constructor; constructor.
  - inversion Hall as [ | ? ? Hyx Hall' ]; subst.
    constructor; [ apply IH; exact Hall' | ].
    apply Forall_app. split; [ exact Hy | ].
    constructor; [ exact Hyx | constructor ].
Qed.

Lemma bytes_inv_initial : bytes_inv 0 initialState.
Proof.
  repeat split; cbn; try lia; constructor.
Qed.

Lemma parseField_bytes_inv (n : Z) (line : string) (st st' : LoopState) :
  bits_inv st -> bytes_inv n st -> 0 <= n -> 16 * (n + 1) <= INT_MAX ->
  parseField line st = Ok st' ->
  bytes_inv (n + 1) st' /\ currentByteOffset st <= currentByteOffset st'.
Proof.
  intros Hbits (Hbc & Hall & Hsorted) Hn Hmax Hstep.
  destruct (parseField_cases _ _ _ Hstep) as [(_ & ->) | (field & Hdecl)].
  { repeat split; try assumption; lia. }
  pose proof (declaration_classified _ _ Hdecl) as Hcl.
  destruct (parseField_declared _ _ _ _ Hdecl Hbits Hstep)
    as (sz & placed & _ & Hplace & _ & Hfields & _).
  destruct (placeField_bytes _ _ _ _ _ _ Hcl (proj1 Hbits) (proj1 Hbc)
              ltac:(lia) Hplace) as (sz' & _ & Hoff & Hnext & _).
  assert (Hold : Forall (fun f => 0 <= byteOffset f <= currentByteOffset st')
                   (structFields st)).
  { eapply Forall_impl; [ | exact Hall ]. cbn. intros f Hf. lia. }
  split; [ | lia ].
  split; [ lia | ].
  rewrite Hfields. destruct (negb (isAnonymous field)).
  - split.
    + apply Forall_app. split; [ exact Hold | ].
      constructor; [ lia | constructor ].
    + rewrite map_app. cbn [map]. apply StronglySorted_snoc; [ exact Hsorted | ].
      apply Forall_map. eapply Forall_impl; [ | exact Hall ].
      cbn. intros f Hf. lia.
  - split; assumption.
Qed.

Lemma parseFields_bytes_inv (lines : list string) (n : Z) (st st' : LoopState) :
  bits_inv st -> bytes_inv n st -> 0 <= n ->
  16 * (n + Z.of_nat (List.length lines)) <= INT_MAX ->
  parseFields lines st = Ok st' ->
  bytes_inv (n + Z.of_nat (List.length lines)) st'.
Proof.
  revert n st. induction lines as [ | line lines IH]; intros n st Hbits Hbytes Hn Hmax.
  - cbn. intros [= <-]. rewrite Z.add_0_r. exact Hbytes.
  - cbn [parseFields].
    destruct (parseField line st) as [st1 | e] eqn:Hstep; cbn [bind]; [ | discriminate ].
    intros Hrest.
    rewrite length_cons, Nat2Z.inj_succ in *.
    destruct (parseField_bytes_inv n line st st1 Hbits Hbytes Hn ltac:(lia) Hstep)
      as [Hbytes1 _].
    replace (n + Z.succ (Z.of_nat (List.length lines)))
      with ((n + 1) + Z.of_nat (List.length lines)) by lia.
    apply (IH (n + 1) st1); try assumption; try lia.
    eapply parseField_bits_inv; eassumption.
Qed.

(** ** Strings *)

Lemma length_append (s1 s2 : string) :
  String.length (s1 ++ s2) = (String.length s1 + String.length s2)%nat.
Proof.
  induction s1 as [ | c s1 IH]; cbn; [ reflexivity | ].
  rewrite IH. reflexivity.
Qed.

Lemma length_push_back (s : string) (c : ascii) :
  String.length (push_back s c) = S (String.length s).
Proof.
  unfold push_back. rewrite length_append. cbn. lia.
Qed.

Lemma append_assoc (s1 s2 s3 : string) : (s1 ++ s2) ++ s3 = s1 ++ (s2 ++ s3).
Proof.
  induction s1 as [ | c s1 IH]; cbn; [ reflexivity | ].
  rewrite IH. reflexivity.
Qed.

Lemma append_empty_r (s : string) : s ++ "" = s.
Proof.
  induction s as [ | c s IH]; cbn; [ reflexivity | ].
  rewrite IH. reflexivity.
Qed.

Lemma push_back_append (s1 s2 : string) (c : ascii) :
  push_back s1 c ++ s2 = s1 ++ String c s2.
Proof.
  unfold push_back. rewrite append_assoc. reflexivity.
Qed.

Lemma length_substring (n m : nat) (s : string) :
  (String.length (substring n m s) <= String.length s)%nat.
Proof.
  revert n m. induction s as [ | c s IH]; intros n m.
  - destruct n, m; cbn; lia.
  - destruct n as [ | n]; [ destruct m as [ | m] | ]; cbn.
    + lia.
    + specialize (IH 0%nat m). lia.
    + specialize (IH n m). lia.
Qed.

Lemma length_trim (s : string) : (String.length (trim s) <= String.length s)%nat.
Proof.
  unfold trim.
  destruct (find_first_not_of trim_set s); [ | cbn; lia ].
  destruct (find_last_not_of trim_set s); [ | cbn; lia ].
  apply length_substring.
Qed.

Lemma forall_chars_append (P : ascii -> bool) (s1 s2 : string) :
  forall_chars P (s1 ++ s2) = forall_chars P s1 && forall_chars P s2.
Proof.
  induction s1 as [ | c s1 IH]; cbn; [ reflexivity | ].
  rewrite IH. apply andb_assoc.
Qed.

Lemma forall_chars_push_back (P : ascii -> bool) (s : string) (c : ascii) :
  forall_chars P s = true -> P c = true -> forall_chars P (push_back s c) = true.
Proof.
  intros Hs Hc. unfold push_back. rewrite forall_chars_append, Hs. cbn.
  rewrite Hc. reflexivity.
Qed.

Lemma forall_chars_substring (P : ascii -> bool) (n m : nat) (s : string) :
  forall_chars P s = true -> forall_chars P (substring n m s) = true.
Proof.
  revert n m. induction s as [ | c s IH]; intros n m Hs.
  - destruct n, m; reflexivity.
  - cbn in Hs. apply andb_prop in Hs as [Hc Hs].
    destruct n as [ | n]; [ destruct m as [ | m] | ]; cbn.
    + reflexivity.
    + rewrite Hc. apply IH. exact Hs.
    + apply IH. exact Hs.
Qed.

Lemma forall_chars_trim (P : ascii -> bool) (s : string) :
  forall_chars P s = true -> forall_chars P (trim s) = true.
Proof.
  intros Hs. unfold trim.
  destruct (find_first_not_of trim_set s); [ | reflexivity ].
  destruct (find_last_not_of trim_set s); [ | reflexivity ].
  apply forall_chars_substring. exact Hs.
Qed.

Lemma forall_chars_impl (P Q : ascii -> bool) (s : string) :
  (forall c, P c = true -> Q c = true) ->
  forall_chars P s = true -> forall_chars Q s = true.
Proof.
  intros HPQ. induction s as [ | c s IH]; cbn; [ reflexivity | ].
  intros H. apply andb_prop in H as [Hc Hs].
  rewrite (HPQ c Hc). apply IH. exact Hs.
Qed.

(** ** The normalizer *)


Lemma removeComments_loop_props (n : nat) :
  forall (str : string) (inLine inBlock : bool) (result : string),
    (String.length str <= n)%nat ->
    (String.length (removeComments_loop str inLine inBlock result)
       <= String.length result + String.length str)%nat
    /\ (forall_chars kept result = true ->
        forall_chars kept (removeComments_loop str inLine inBlock result) = true).
Proof.
  induction n as [ | n IH]; intros str inLine inBlock result Hlen;
    destruct str as [ | c rest]; cbn [String.length] in Hlen;
    try (cbn; split; [ lia | tauto ]); try lia.
  assert (Hstep : forall (r : string) (l b : bool) (res : string),
             (String.length r <= String.length rest)%nat ->
             (String.length res <= S (String.length result))%nat ->
             (forall_chars kept result = true -> forall_chars kept res = true) ->
             (String.length (removeComments_loop r l b res)
                <= String.length result + S (String.length rest))%nat
             /\ (forall_chars kept result = true ->
                 forall_chars kept (removeComments_loop r l b res) = true)).
  { intros r l b res Hr Hres Hkept.
    destruct (IH r l b res ltac:(lia)) as [Hl Hk].
    split; [ lia | auto ]. }
  assert (Hspace : forall_chars kept result = true ->
                   forall_chars kept (push_back result " ") = true).
  { intros H. apply forall_chars_push_back; [ exact H | reflexivity ]. }
  cbn [removeComments_loop String.length].
  destruct inLine.
  { destruct (Ascii.eqb c LF); apply Hstep;
      rewrite ?length_push_back; auto; lia. }
  destruct inBlock.
  { destruct rest as [ | c1 rest1]; [ apply Hstep; auto; lia | ].
    destruct (Ascii.eqb c "*" && Ascii.eqb c1 "/"); apply Hstep;
      cbn [String.length]; auto; lia. }
  assert (Hplain :
    (String.length
       (if isspace c
        then if empty result
                || negb match back result with
                        | Some b => Ascii.eqb b " "
                        | None => false
                        end
             then removeComments_loop rest false false (push_back result " ")
             else removeComments_loop rest false false result
        else removeComments_loop rest false false (push_back result c))
     <= String.length result + S (String.length rest))%nat
    /\ (forall_chars kept result = true ->
        forall_chars kept
          (if isspace c
           then if empty result
                   || negb match back result with
                           | Some b => Ascii.eqb b " "
                           | None => false
                           end
                then removeComments_loop rest false false (push_back result " ")
                else removeComments_loop rest false false result
           else removeComments_loop rest false false (push_back result c)) = true)).
  { destruct (isspace c) eqn:Hc.
    - destruct (empty result || _); apply Hstep;
        rewrite ?length_push_back; auto; lia.
    - apply Hstep; rewrite ?length_push_back; auto.
      intros H. apply forall_chars_push_back; [ exact H | ].
      unfold kept. rewrite Hc. apply orb_true_r. }
  destruct rest as [ | c1 rest1]; [ exact Hplain | ].
  destruct (Ascii.eqb c "/"); [ | exact Hplain ].
  destruct (Ascii.eqb c1 "/"); [ apply Hstep; cbn [String.length]; auto; lia | ].
  destruct (Ascii.eqb c1 "*"); [ apply Hstep; cbn [String.length]; auto; lia | ].
  exact Hplain.
Qed.

Lemma length_removeCommentsAndExtraSpaces (str : string) :
  (String.length (removeCommentsAndExtraSpaces str) <= String.length str)%nat.
Proof.
  unfold removeCommentsAndExtraSpaces.
  pose proof (length_trim (removeComments_loop str false false "")) as Htrim.
  destruct (removeComments_loop_props (String.length str) str false false ""
              (le_n _)) as [Hlen _].
  cbn [String.length] in Hlen. lia.
Qed.


(** ** The matcher *)

Section Greedy.
Context {A : Type} (cls : ascii -> bool) (k : string -> string -> option A).

(** A successful greedy repetition took a run of the class and handed the
    rest to its continuation. *)
Lemma greedy_sound (s taken : string) (r : A) :
  greedy cls s taken k = Some r ->
  exists run rest,
    s = run ++ rest /\ forall_chars cls run = true /\ k (taken ++ run) rest = Some r.
Proof.
  revert taken. induction s as [ | c s IH]; intros taken; cbn [greedy].
  - intros Hk. exists "", "". rewrite (append_empty_r taken). repeat split. exact Hk.
  - assert (Hstop : k taken (String c s) = Some r ->
                    exists run rest,
                      String c s = run ++ rest /\ forall_chars cls run = true
                      /\ k (taken ++ run) rest = Some r).
    { intros Hk. exists "", (String c s). rewrite (append_empty_r taken).
      repeat split. exact Hk. }
    destruct (cls c) eqn:Hc; [ | exact Hstop ].
    destruct (greedy cls s (push_back taken c) k) as [r' | ] eqn:Hrec;
      [ | exact Hstop ].
    intros [= ->].
    destruct (IH _ Hrec) as (run & rest & -> & Hrun & Hk).
    exists (String c run), rest. cbn. rewrite Hc, Hrun.
    rewrite push_back_append in Hk. auto.
Qed.


(** The first attempt of a greedy repetition is the longest run: when the
    continuation accepts it, that is the result. *)
Lemma greedy_longest (run rest taken : string) (r : A) :
  forall_chars cls run = true ->
  match rest with
  | String c _ => cls c = false
  | EmptyString => True
  end ->
  k (taken ++ run) rest = Some r ->
  greedy cls (run ++ rest) taken k = Some r.
Proof.
  revert taken. induction run as [ | c run IH]; intros taken Hrun Hrest Hk.
  - rewrite append_empty_r in Hk. cbn [append].
    destruct rest as [ | c rest]; cbn [greedy]; [ exact Hk | ].
    rewrite Hrest. exact Hk.
  - cbn in Hrun. apply andb_prop in Hrun as [Hc Hrun].
    cbn [append greedy]. rewrite Hc.
    rewrite <- push_back_append in Hk.
    rewrite (IH _ Hrun Hrest Hk). reflexivity.
Qed.
(** A repetition over a text that belongs to the class as a whole. *)
Lemma greedy_all (s taken : string) (r : A) :
  forall_chars cls s = true ->
  k (taken ++ s) "" = Some r ->
  greedy cls s taken k = Some r.
Proof.
  intros Hs Hk.
  rewrite <- (append_empty_r s) at 1.
  apply greedy_longest; [ exact Hs | exact I | exact Hk ].
Qed.
End Greedy.

Lemma regex_search_sound (r : regex) (s : string) (m : list string) :
  regex_search r s = Some m ->
  exists before from, s = before ++ from /\ exec r false from [] = Some m.
Proof.
  induction s as [ | c s IH]; cbn [regex_search].
  - destruct (exec r false "" []) as [m' | ] eqn:Hexec; [ | discriminate ].
    intros [= ->]. exists "", "". auto.
  - destruct (exec r false (String c s) []) as [m' | ] eqn:Hexec.
    + intros [= ->]. exists "", (String c s). auto.
    + intros Hrec. destruct (IH Hrec) as (before & from & -> & Hm).
      exists (String c before), from. auto.
Qed.


(** *** The struct body *)

Lemma contentRegex_exec (s : string) (m : list string) :
  exec contentRegex false s [] = Some m ->
  exists content after,
    s = "{" ++ content ++ "}" ++ after /\ m = [content].
Proof.
  unfold contentRegex. cbn [exec atom_of captures app].
  destruct s as [ | c s]; [ discriminate | ].
  destruct (Ascii.eqb_spec "{" c) as [<- | ]; [ | discriminate ].
  intros Hgreedy.
  apply greedy_sound in Hgreedy as (run & rest & -> & _ & Hk).
  cbn [append] in Hk.
  destruct rest as [ | c rest]; [ discriminate | ].
  destruct (Ascii.eqb_spec "}" c) as [<- | ]; [ | discriminate ].
  injection Hk as <-.
  exists run, rest. auto.
Qed.

Lemma contentRegex_search_sound (s : string) (m : list string) :
  regex_search contentRegex s = Some m ->
  exists before content after,
    s = before ++ "{" ++ content ++ "}" ++ after /\ m = [content].
Proof.
  intros H. apply regex_search_sound in H as (before & from & -> & Hexec).
  apply contentRegex_exec in Hexec as (content & after & -> & ->).
  exists before, content, after. auto.
Qed.


(** ** The declarations of a text *)

Lemma length_splitFields_loop (content : string) :
  forall (fields : list string) (currentField : string) (braceLevel : Z),
    (List.length (splitFields_loop content fields currentField braceLevel)
     <= List.length fields + String.length currentField + String.length content)%nat.
Proof.
  induction content as [ | c rest IH]; intros fields currentField braceLevel.
  - cbn [splitFields_loop String.length].
    destruct currentField; cbn [empty negb String.length]; [ lia | ].
    rewrite length_app. cbn. lia.
  - cbn [splitFields_loop String.length].
    set (level := if Ascii.eqb c "{" then _ else _).
    destruct (Ascii.eqb c ";" && Z.eqb level 0).
    + destruct currentField as [ | d currentField]; cbn [empty negb].
      * specialize (IH fields "" level). cbn [String.length] in *. lia.
      * specialize (IH (fields ++ [trim (String d currentField)])%list "" level).
        rewrite length_app in IH. cbn [String.length List.length] in *. lia.
    + specialize (IH fields (push_back currentField c) level).
      rewrite length_push_back in IH. lia.
Qed.

Lemma length_splitFields (content : string) :
  (List.length (splitFields content) <= String.length content)%nat.
Proof.
  unfold splitFields.
  pose proof (length_splitFields_loop content [] "" 0) as H.
  cbn [List.length String.length] in H. lia.
Qed.

Lemma parseStruct_unfold (structText : string) :
  parseStruct structText =
    match fieldLines structText with
    | Some lines =>
        st <- parseFields lines initialState ;;
        total <- finalSize st ;;
        Ok (mkStructInfo (structNameOf structText) (structFields st) total)
    | None => Err StructBodyNotFound
    end.
Proof.
  unfold parseStruct, fieldLines, structBody, structNameOf.
  destruct (regex_search contentRegex _); reflexivity.
Qed.

Lemma structBody_length (structText content : string) :
  structBody structText = Some content ->
  (String.length content <= String.length structText)%nat.
Proof.
  unfold structBody.
  destruct (regex_search contentRegex _) as [m | ] eqn:Hsearch; [ | discriminate ].
  intros [= <-].
  apply contentRegex_search_sound in Hsearch as (before & content & after & Hs & ->).
  pose proof (length_removeCommentsAndExtraSpaces structText) as Hlen.
  rewrite Hs in Hlen. rewrite !length_append in Hlen.
  cbn [sub_match Nat.sub nth]. lia.
Qed.

Lemma fieldLines_count (structText : string) (lines : list string) :
  fieldLines structText = Some lines ->
  (List.length lines <= String.length structText)%nat.
Proof.
  unfold fieldLines.
  destruct (structBody structText) as [content | ] eqn:Hbody; [ | discriminate ].
  intros [= <-].
  pose proof (structBody_length _ _ Hbody).
  pose proof (length_splitFields content). lia.
Qed.

Lemma getTypeSize_uint8_t : getTypeSize "uint8_t" = Ok 1.
Proof. reflexivity. Qed.

Lemma finalSize_exact (st : LoopState) :
  0 <= currentByteOffset st <= INT_MAX ->
  finalSize st =
    Ok (currentByteOffset st + (if currentBitOffset st >? 0 then 1 else 0)).
Proof.
  unfold INT_MAX. intros Hbc. unfold finalSize.
  rewrite getTypeSize_uint8_t.
  destruct (currentBitOffset st >? 0); cbn [bind];
    rewrite (to_size_t_small (currentByteOffset st)) by lia;
    rewrite to_size_t_small by lia; reflexivity.
Qed.

Lemma finalSize_total (st : LoopState) : exists total, finalSize st = Ok total.
Proof.
  unfold finalSize. rewrite getTypeSize_uint8_t.
  destruct (currentBitOffset st >? 0); cbn [bind]; eexists; reflexivity.
Qed.

Lemma parseStruct_layout (structText : string) (structInfo : StructInfo) :
  short_text structText ->
  parseStruct structText = Ok structInfo ->
  exists lines st,
    fieldLines structText = Some lines /\
    parseFields lines initialState = Ok st /\
    bits_inv st /\
    bytes_inv (Z.of_nat (List.length lines)) st /\
    16 * Z.of_nat (List.length lines) <= INT_MAX /\
    structName structInfo = structNameOf structText /\
    fields structInfo = structFields st /\
    totalSize structInfo =
      currentByteOffset st + (if currentBitOffset st >? 0 then 1 else 0).
Proof.
  unfold short_text, INT_MAX. intros Hshort Hparse.
  rewrite parseStruct_unfold in Hparse.
  destruct (fieldLines structText) as [lines | ] eqn:Hlines; [ | discriminate ].
  destruct (parseFields lines initialState) as [st | e] eqn:Hloop;
    cbn [bind] in Hparse; [ | discriminate ].
  pose proof (fieldLines_count _ _ Hlines) as Hcount.
  pose proof (parseFields_bits_inv _ _ _ bits_inv_initial Hloop) as Hbits.
  assert (Hmax : 16 * (0 + Z.of_nat (List.length lines)) <= INT_MAX)
    by (unfold INT_MAX; lia).
  pose proof (parseFields_bytes_inv lines 0 _ _ bits_inv_initial bytes_inv_initial
                (Z.le_refl 0) Hmax Hloop) as Hbytes.
  rewrite Z.add_0_l in Hbytes.
  assert (Hbc : 0 <= currentByteOffset st <= 2 ^ 31 - 1)
    by (unfold INT_MAX in Hmax; destruct Hbytes as [? _]; lia).
  rewrite finalSize_exact in Hparse by (unfold INT_MAX; lia).
  cbn [bind] in Hparse. injection Hparse as <-.
  exists lines, st. cbn.
  repeat (split; [ first [ reflexivity | assumption | unfold INT_MAX in *; lia ] | ]).
  reflexivity.
Qed.

Lemma parseStruct_fields_wf (structText : string) (structInfo : StructInfo) :
  parseStruct structText = Ok structInfo -> Forall field_wf (fields structInfo).
Proof.
  intros Hparse. rewrite parseStruct_unfold in Hparse.
  destruct (fieldLines structText) as [lines | ]; [ | discriminate ].
  destruct (parseFields lines initialState) as [st | e] eqn:Hloop;
    cbn [bind] in Hparse; [ | discriminate ].
  destruct (finalSize st); cbn [bind] in Hparse; [ | discriminate ].
  injection Hparse as <-. cbn.
  exact (proj2 (parseFields_bits_inv _ _ _ bits_inv_initial Hloop)).
Qed.

(** ** Structs of plain fields *)



(** ** What the capture groups hold *)

Lemma exec_captures (r : regex) :
  forall (anchored : bool) (s : string) (caps m : list string),
    exec r anchored s caps = Some m ->
    exists groups,
      m = (caps ++ groups)%list /\ Forall2 capture_ok (filter captures r) groups.
Proof.
  induction r as [ | n r IH]; intros anchored s caps m; cbn [exec filter].
  - intros Hm. exists []. rewrite app_nil_r. split; [ | constructor ].
    destruct anchored; [ destruct (empty s) | ]; congruence.
  - assert (Hcont : forall taken rest,
               capture_ok n taken ->
               exec r anchored rest
                 (if captures n then (caps ++ [taken])%list else caps) = Some m ->
               exists groups,
                 m = (caps ++ groups)%list /\
                 Forall2 capture_ok
                   (if captures n then n :: filter captures r else filter captures r)
                   groups).
    { intros taken rest Hok Hexec.
      apply IH in Hexec as (groups & -> & Hgroups).
      destruct (captures n).
      - exists (taken :: groups). rewrite <- app_assoc. split; [ reflexivity | ].
        constructor; assumption.
      - exists groups. auto. }
    unfold capture_ok in Hcont.
    destruct (atom_of n) as [c | cls | cls].
    + destruct s as [ | c' s]; [ discriminate | ].
      destruct (Ascii.eqb_spec c c') as [<- | ]; [ | discriminate ].
      apply Hcont. reflexivity.
    + intros Hgreedy.
      apply greedy_sound in Hgreedy as (run & rest & _ & Hrun & Hk).
      cbn [append] in Hk. eapply Hcont; eassumption.
    + intros Hgreedy.
      apply greedy_sound in Hgreedy as (run & rest & _ & Hrun & Hk).
      cbn [append] in Hk.
      destruct (empty run) eqn:Hempty; [ discriminate | ].
      eapply Hcont; [ | eassumption ]. auto.
Qed.

Lemma stoi_of_digits (w : string) (e : failure) :
  forall_chars isdigit w = true -> empty w = false ->
  stoi w = Err e -> e = StoiOutOfRange.
Proof.
  intros Hdigits Hnonempty. unfold stoi.
  destruct w as [ | c w]; [ discriminate | ].
  cbn in Hdigits. apply andb_prop in Hdigits as [-> _].
  destruct (_ >? _); [ | discriminate ].
  intros [= <-]. reflexivity.
Qed.

(** The only failure of the classification is a width beyond [INT_MAX]:
    the width group is never empty. *)
Lemma classifyField_out_of_range (line : string) (e : failure) :
  classifyField line = Err e -> e = StoiOutOfRange.
Proof.
  unfold classifyField.
  destruct (regex_match bitFieldRegex line) as [m | ] eqn:Hbits.
  { unfold regex_match in Hbits.
    apply exec_captures in Hbits as (groups & -> & Hgroups).
    cbn in Hgroups.
    inversion Hgroups as [ | ? t ? g1 _ Hg1 ]; subst.
    inversion Hg1 as [ | ? n ? g2 _ Hg2 ]; subst.
    inversion Hg2 as [ | ? w ? g3 Hok Hg3 ]; subst.
    destruct Hok as [Hw Hne].
    cbn [app sub_match Nat.sub nth].
    destruct (stoi w) as [v | e'] eqn:Hstoi; cbn [bind]; [ discriminate | ].
    intros [= <-]. eapply stoi_of_digits; eassumption. }
  destruct (regex_match anonymousBitFieldRegex line) as [m | ] eqn:Hanon.
  { unfold regex_match in Hanon.
    apply exec_captures in Hanon as (groups & -> & Hgroups).
    cbn in Hgroups.
    inversion Hgroups as [ | ? t ? g1 _ Hg1 ]; subst.
    inversion Hg1 as [ | ? w ? g2 Hok Hg2 ]; subst.
    destruct Hok as [Hw Hne].
    cbn [app sub_match Nat.sub nth].
    destruct (stoi w) as [v | e'] eqn:Hstoi; cbn [bind]; [ discriminate | ].
    intros [= <-]. eapply stoi_of_digits; eassumption. }
  destruct (regex_match normalFieldRegex line); [ discriminate | ].
  destruct (regex_match normalFieldWithMultipleSpaces line); discriminate.
Qed.

Lemma parseField_failure (line : string) (st : LoopState) (e : failure) :
  parseField line st = Err e -> loop_failure e.
Proof.
  unfold parseField.
  destruct (declaration line) as [[field | ] | e'] eqn:Hdecl; cbn [bind].
  - unfold placeField.
    destruct (getTypeSize (type field)) as [sz | e'] eqn:Hsz.
    + destruct (negb (isBitField field)); cbn [bind]; [ discriminate | ].
      destruct (_ >? _); cbn; destruct (_ >=? _); discriminate.
    + apply getTypeSize_Err in Hsz as [-> Hnone].
      destruct (negb (isBitField field)); cbn [bind];
        intros [= <-]; right; eexists; eauto.
  - discriminate.
  - intros [= <-]. left.
    unfold declaration in Hdecl. destruct (empty line); [ discriminate | ].
    eapply classifyField_out_of_range; eassumption.
Qed.

Lemma parseFields_failure (lines : list string) (st : LoopState) (e : failure) :
  parseFields lines st = Err e -> loop_failure e.
Proof.
  revert st. induction lines as [ | line lines IH]; intros st; cbn [parseFields].
  - discriminate.
  - destruct (parseField line st) as [st1 | e'] eqn:Hstep; cbn [bind].
    + apply IH.
    + intros [= <-]. eapply parseField_failure; eassumption.
Qed.


(** ** Bytes and integers *)

Lemma byte_val_range (c : ascii) : 0 <= byte_val c < 256.
Proof.
  unfold byte_val. pose proof (N_ascii_bounded c). lia.
Qed.

Lemma byte_val_of (z : Z) : byte_val (byte_of z) = z mod 256.
Proof.
  unfold byte_val, byte_of.
  pose proof (Z.mod_pos_bound z 256 ltac:(lia)) as Hr.
  rewrite N_ascii_embedding by lia.
  apply Z2N.id. lia.
Qed.

Lemma length_store (n : nat) (z : Z) : List.length (store n z) = n.
Proof.
  revert z. induction n as [ | n IH]; intros z; cbn; [ reflexivity | ].
  rewrite IH. reflexivity.
Qed.

Lemma load_store (n : nat) (z : Z) :
  load (store n z) = z mod 2 ^ (8 * Z.of_nat n).
Proof.
  revert z. induction n as [ | n IH]; intros z; cbn [store load].
  - cbn. rewrite Z.mod_1_r. reflexivity.
  - rewrite byte_val_of, IH, Nat2Z.inj_succ.
    replace (8 * Z.succ (Z.of_nat n)) with (8 + 8 * Z.of_nat n) by lia.
    rewrite Z.pow_add_r by lia. change (2 ^ 8) with 256.
    rewrite Z.rem_mul_r by lia. reflexivity.
Qed.

Lemma store_load (bs : list ascii) : store (List.length bs) (load bs) = bs.
Proof.
  induction bs as [ | b bs IH]; cbn [List.length store load]; [ reflexivity | ].
  pose proof (byte_val_range b) as Hb.
  f_equal.
  - unfold byte_of.
    replace ((byte_val b + 256 * load bs) mod 256) with (byte_val b).
    + unfold byte_val. rewrite N2Z.id. apply ascii_N_embedding.
    + replace (256 * load bs) with (load bs * 256) by lia.
      rewrite Z.mod_add by lia.
      symmetry. apply Z.mod_small. exact Hb.
  - replace ((byte_val b + 256 * load bs) / 256) with (load bs); [ exact IH | ].
    replace (256 * load bs) with (load bs * 256) by lia.
    rewrite Z.div_add by lia.
    rewrite (Z.div_small (byte_val b)) by exact Hb. lia.
Qed.

(** ** memcpy *)

Lemma in_buffer_spec (buffer : list ascii) (off sz : Z) :
  in_buffer buffer off sz = true <->
  0 <= off /\ 0 <= sz /\ off + sz <= Z.of_nat (List.length buffer).
Proof.
  unfold in_buffer. rewrite !andb_true_iff, !Z.leb_le. tauto.
Qed.

Lemma memcpy_to_props (buffer buffer' : list ascii) (off sz v : Z) :
  memcpy_to buffer off sz v = Ok buffer' ->
  in_buffer buffer off sz = true /\
  List.length buffer' = List.length buffer /\
  storage_unit buffer' off sz = store (Z.to_nat sz) v /\
  (forall i : nat,
      Z.of_nat i < off \/ off + sz <= Z.of_nat i ->
      nth_error buffer' i = nth_error buffer i).
Proof.
  unfold memcpy_to. destruct (in_buffer buffer off sz) eqn:Hin; [ | discriminate ].
  intros [= <-]. split; [ reflexivity | ].
  apply in_buffer_spec in Hin as (Hoff & Hsz & Hend).
  assert (Hlen1 : List.length (firstn (Z.to_nat off) buffer) = Z.to_nat off)
    by (rewrite length_firstn; lia).
  split; [ | split ].
  - rewrite !length_app, Hlen1, length_store, length_skipn. lia.
  - unfold storage_unit.
    rewrite skipn_app, Hlen1, Nat.sub_diag. cbn [skipn].
    rewrite (skipn_all2 (firstn (Z.to_nat off) buffer)) by lia. cbn [app].
    rewrite firstn_app, length_store, Nat.sub_diag. cbn [firstn].
    rewrite app_nil_r. apply firstn_all2. rewrite length_store. lia.
  - intros i [Hlow | Hhigh].
    + rewrite nth_error_app1 by lia.
      rewrite nth_error_firstn.
      destruct (Nat.ltb_spec i (Z.to_nat off)); [ reflexivity | lia ].
    + rewrite nth_error_app2 by lia.
      rewrite nth_error_app2 by (rewrite length_store; lia).
      rewrite nth_error_skipn, Hlen1, length_store. f_equal. lia.
Qed.

Lemma memcpy_from_unit (buffer : list ascii) (off sz : Z) :
  in_buffer buffer off sz = true ->
  memcpy_from buffer off sz = Ok (load (storage_unit buffer off sz)).
Proof.
  intros Hin. unfold memcpy_from. rewrite Hin. reflexivity.
Qed.

Lemma in_buffer_same_length (buffer buffer' : list ascii) (off sz : Z) :
  List.length buffer' = List.length buffer ->
  in_buffer buffer' off sz = in_buffer buffer off sz.
Proof.
  intros Hlen. unfold in_buffer. rewrite Hlen. reflexivity.
Qed.

(** ** The container of a bit-field *)

Lemma mask_ones (w : Z) :
  0 <= w < 64 -> to_size_t (to_size_t (Z.shiftl 1 w) - 1) = Z.ones w.
Proof.
  intros Hw. rewrite Z.shiftl_1_l. unfold to_size_t.
  assert (0 < 2 ^ w < 2 ^ 64).
  { split; [ apply Z.pow_pos_nonneg; lia | apply Z.pow_lt_mono_r; lia ]. }
  rewrite (Z.mod_small (2 ^ w)) by lia.
  rewrite Z.mod_small by lia.
  rewrite Z.ones_equiv. lia.
Qed.

Lemma write_value_read (cur x w bo sz : Z) :
  0 <= w < 64 -> 0 <= bo -> bo + w <= 8 * sz -> sz <= 8 ->
  Z.land (Z.shiftr (write_value cur x w bo mod 2 ^ (8 * sz)) bo) (Z.ones w)
    = x mod 2 ^ w.
Proof.
  intros Hw Hbo Hfit Hsz. unfold write_value. rewrite mask_ones by lia.
  unfold not64, to_size_t.
  Z.bitblast.
Qed.

Lemma write_value_frame (cur x w bo j : Z) :
  0 <= w < 64 -> 0 <= bo < 64 -> 0 <= j < 64 -> j < bo \/ bo + w <= j ->
  Z.testbit (write_value cur x w bo) j = Z.testbit cur j.
Proof.
  intros Hw Hbo Hj Hout. unfold write_value. rewrite mask_ones by lia.
  unfold not64, to_size_t.
  Z.bitblast_core.
Qed.

Lemma shl64_defined (a n : Z) :
  0 <= n < 64 -> shl64 a n = Ok (to_size_t (Z.shiftl a n)).
Proof.
  intros Hn. unfold shl64.
  destruct (Z.leb_spec 0 n); [ | lia ].
  destruct (Z.ltb_spec n 64); [ reflexivity | lia ].
Qed.

Lemma shr64_defined (a n : Z) : 0 <= n < 64 -> shr64 a n = Ok (Z.shiftr a n).
Proof.
  intros Hn. unfold shr64.
  destruct (Z.leb_spec 0 n); [ | lia ].
  destruct (Z.ltb_spec n 64); [ reflexivity | lia ].
Qed.

Lemma struct_write_bitfield (structText fieldName : string) (x : Z)
    (buffer : list ascii) (structInfo : StructInfo) (field : FieldInfo) :
  parseStruct structText = Ok structInfo ->
  find_field fieldName (fields structInfo) = Some field ->
  isBitField field = true ->
  0 <= bitWidth field < 64 -> 0 <= bitOffset field < 64 ->
  struct_write structText fieldName x buffer =
    (currentValue <- memcpy_from buffer (byteOffset field) (size field) ;;
     memcpy_to buffer (byteOffset field) (size field)
       (write_value currentValue x (bitWidth field) (bitOffset field))).
Proof.
  intros Hparse Hfind Hbf Hw Hbo.
  unfold struct_write. rewrite Hparse. cbn [bind]. rewrite Hfind, Hbf. cbn [negb].
  rewrite !shl64_defined by assumption. cbn [bind].
  destruct (memcpy_from buffer (byteOffset field) (size field)); cbn [bind];
    [ | reflexivity ].
  rewrite !shl64_defined by assumption. reflexivity.
Qed.

Lemma struct_read_bitfield (sizeofT : Z) (structText fieldName : string)
    (buffer : list ascii) (structInfo : StructInfo) (field : FieldInfo) :
  parseStruct structText = Ok structInfo ->
  find_field fieldName (fields structInfo) = Some field ->
  isBitField field = true ->
  0 <= bitWidth field < 64 -> 0 <= bitOffset field < 64 ->
  struct_read sizeofT structText fieldName buffer =
    (containerValue <- memcpy_from buffer (byteOffset field) (size field) ;;
     Ok (Z.land (Z.shiftr containerValue (bitOffset field)) (Z.ones (bitWidth field))
         mod 2 ^ (8 * sizeofT))).
Proof.
  intros Hparse Hfind Hbf Hw Hbo.
  unfold struct_read. rewrite Hparse. cbn [bind]. rewrite Hfind, Hbf. cbn [negb].
  destruct (memcpy_from buffer (byteOffset field) (size field)); cbn [bind];
    [ | reflexivity ].
  rewrite shl64_defined, shr64_defined by assumption. cbn [bind].
  rewrite mask_ones by assumption. reflexivity.
Qed.

Lemma find_field_In (fieldName : string) (fs : list FieldInfo) (field : FieldInfo) :
  find_field fieldName fs = Some field -> In field fs /\ name field = fieldName.
Proof.
  induction fs as [ | f fs IH]; cbn [find_field]; [ discriminate | ].
  destruct (String.eqb_spec (name f) fieldName) as [Heq | Hne].
  - intros [= <-]. split; [ left; reflexivity | exact Heq ].
  - intros H. destruct (IH H). split; [ right; assumption | assumption ].
Qed.

Lemma found_field_wf (structText fieldName : string) (structInfo : StructInfo)
    (field : FieldInfo) :
  parseStruct structText = Ok structInfo ->
  find_field fieldName (fields structInfo) = Some field ->
  field_wf field.
Proof.
  intros Hparse Hfind.
  pose proof (parseStruct_fields_wf _ _ Hparse) as Hall.
  rewrite Forall_forall in Hall. apply Hall.
  eapply find_field_In. eassumption.
Qed.

(** ** An anonymous bit-field written with a blank before the colon *)

Lemma isdigit_not_space (c : ascii) : isdigit c = true -> isspace c = false.
Proof.
  unfold isdigit, isspace. intros H. apply andb_prop in H as [Hlo Hhi].
  apply N.leb_le in Hlo, Hhi.
  destruct (N.eqb_spec (N_of_ascii c) 32); [ lia | ].
  destruct (N.leb_spec 9 (N_of_ascii c)); [ | reflexivity ].
  destruct (N.leb_spec (N_of_ascii c) 13); [ lia | reflexivity ].
Qed.

(** [take run rest]: the greedy repetition at the head of the goal takes
    [run] and leaves [rest]. *)
Ltac take run rest :=
  apply (greedy_longest _ _ run rest "");
  [ first [ reflexivity | assumption ]
  | first [ reflexivity | assumption ]
  | cbn [append empty] ].

(** The pattern of the named bit-fields matches every [TYPE : WIDTH], with
    an empty name group. *)
Lemma bitFieldRegex_matches_anonymous (ty w : string) :
  forall_chars isword ty = true -> empty ty = false ->
  forall_chars isdigit w = true -> empty w = false ->
  regex_match bitFieldRegex (ty ++ " : " ++ w) = Some [ty; ""; w].
Proof.
  intros Hty Hty_nonempty Hw Hw_nonempty.
  destruct w as [ | d w']; [ discriminate | ].
  assert (Hd : isspace d = false).
  { apply isdigit_not_space. cbn in Hw. apply andb_prop in Hw as [Hd _]. exact Hd. }
  unfold regex_match, bitFieldRegex. cbn [exec atom_of captures app].
  take ty (" : " ++ String d w'). rewrite Hty_nonempty.
  take " " (String ":" (String " " (String d w'))).
  take "" (String ":" (String " " (String d w'))).
  take "" (String ":" (String " " (String d w'))).
  rewrite Ascii.eqb_refl.
  take " " (String d w').
  apply greedy_all; [ exact Hw | ].
  reflexivity.
Qed.

(** So such a declaration is classified as a named bit-field without a
    name, never as an anonymous one. *)
Lemma classifyField_spaced_anonymous (ty w : string) :
  forall_chars isword ty = true -> empty ty = false ->
  forall_chars isdigit w = true -> empty w = false ->
  classifyField (ty ++ " : " ++ w) =
    (width <- stoi w ;; Ok (Some (mkFieldInfo ty "" width 0 0 0 true false))).
Proof.
  intros Hty Hty_nonempty Hw Hw_nonempty.
  unfold classifyField.
  rewrite (bitFieldRegex_matches_anonymous ty w) by assumption.
  reflexivity.
Qed.

(** ** Comments *)

(** Inside a block comment that holds no slash, everything up to the closing
    mark is dropped, and so is the mark. *)
Lemma inside_block_comment (comment rest result : string) :
  forall_chars not_slash comment = true ->
  removeComments_loop (comment ++ "*/" ++ rest) false true result
  = removeComments_loop rest false false result.
Proof.
  intros Hc. induction comment as [ | c comment IH].
  - reflexivity.
  - cbn in Hc. apply andb_prop in Hc as [_ Hc].
    specialize (IH Hc).
    cbn [append removeComments_loop].
    destruct comment as [ | c1 comment].
    + cbn [append] in *. change (Ascii.eqb "*" "/") with false.
      rewrite andb_false_r. exact IH.
    + cbn [append] in *. cbn in Hc. apply andb_prop in Hc as [Hc1 _].
      unfold not_slash in Hc1. apply negb_true_iff in Hc1. rewrite Hc1.
      rewrite andb_false_r. exact IH.
Qed.

(** Inside a line comment everything up to the end of the line is dropped,
    and the end of the line becomes a space. *)
Lemma inside_line_comment (comment rest result : string) :
  forall_chars not_newline comment = true ->
  removeComments_loop (comment ++ String LF rest) true false result
  = removeComments_loop rest false false (push_back result " ").
Proof.
  intros Hc. induction comment as [ | c comment IH].
  - cbn [append removeComments_loop]. rewrite Ascii.eqb_refl. reflexivity.
  - cbn in Hc. apply andb_prop in Hc as [Hc1 Hc].
    unfold not_newline in Hc1. apply negb_true_iff in Hc1.
    cbn [append removeComments_loop]. rewrite Hc1. exact (IH Hc).
Qed.

(** ** trim *)

Lemma substring_0_0 (s : string) : substring 0 0 s = "".
Proof. destruct s; reflexivity. Qed.

Lemma find_last_not_of_None (s : string) :
  find_last_not_of trim_set s = None -> forall_chars trim_char s = true.
Proof.
  induction s as [ | c s IH]; cbn [find_last_not_of forall_chars]; [ reflexivity | ].
  destruct (find_last_not_of trim_set s); [ discriminate | ].
  change (mem_char c trim_set) with (trim_char c). destruct (trim_char c); [ | discriminate ].
  intros _. apply IH. reflexivity.
Qed.

Lemma find_first_not_of_None (s : string) :
  find_first_not_of trim_set s = None <-> forall_chars trim_char s = true.
Proof.
  induction s as [ | c s IH]; cbn [find_first_not_of forall_chars]; [ tauto | ].
  change (mem_char c trim_set) with (trim_char c). destruct (trim_char c); cbn [andb].
  - destruct (find_first_not_of trim_set s); cbn [option_map].
    + split; [ discriminate | ]. intros H. apply IH in H. discriminate.
    + split; [ intros _; apply IH; reflexivity | reflexivity ].
  - split; discriminate.
Qed.

Lemma find_last_not_of_all (s : string) :
  forall_chars trim_char s = true -> find_last_not_of trim_set s = None.
Proof.
  induction s as [ | c s IH]; cbn [find_last_not_of forall_chars]; [ reflexivity | ].
  intros H. apply andb_prop in H as [Hc Hs]. rewrite (IH Hs).
  change (mem_char c trim_set) with (trim_char c). rewrite Hc. reflexivity.
Qed.

(** [keep_to_last] cuts a run of strippable characters off the end and
    stops behind a character that is not strippable. *)
Lemma keep_to_last_spec (s : string) :
  exists post,
    s = keep_to_last s ++ post /\
    forall_chars trim_char post = true /\
    last_char (fun c => negb (trim_char c)) (keep_to_last s).
Proof.
  unfold keep_to_last, last_char.
  induction s as [ | c s IH]; cbn [find_last_not_of].
  - exists "". repeat split.
  - destruct (find_last_not_of trim_set s) as [last | ] eqn:Hlast.
    + destruct IH as (post & Hs & Hpost & Hback).
      exists post. cbn [substring append]. rewrite <- Hs.
      repeat split; [ exact Hpost | ].
      cbn [back]. destruct (substring 0 (S last) s) eqn:Hsub; [ | exact Hback ].
      destruct s; discriminate.
    + apply find_last_not_of_None in Hlast.
      destruct (mem_char c trim_set) eqn:Hc; change (mem_char c trim_set) with (trim_char c) in Hc.
      * exists (String c s). cbn [append back forall_chars]. rewrite Hc.
        repeat split. exact Hlast.
      * exists s. cbn [substring append]. rewrite substring_0_0.
        repeat split; [ exact Hlast | ]. cbn [back]. rewrite Hc. reflexivity.
Qed.

Lemma trim_cons_strip (c : ascii) (s : string) :
  trim_char c = true -> trim (String c s) = trim s.
Proof.
  intros Hc. unfold trim. cbn [find_first_not_of find_last_not_of].
  change (mem_char c trim_set) with (trim_char c). rewrite Hc.
  destruct (find_first_not_of trim_set s) as [start | ] eqn:Hfirst;
    cbn [option_map]; [ | reflexivity ].
  destruct (find_last_not_of trim_set s) as [last | ] eqn:Hlast; [ reflexivity | ].
  apply find_last_not_of_None in Hlast. apply find_first_not_of_None in Hlast.
  congruence.
Qed.

Lemma trim_cons_keep (c : ascii) (s : string) :
  trim_char c = false -> trim (String c s) = String c (keep_to_last s).
Proof.
  intros Hc. unfold trim, keep_to_last. cbn [find_first_not_of find_last_not_of].
  change (mem_char c trim_set) with (trim_char c). rewrite Hc.
  destruct (find_last_not_of trim_set s) as [last | ].
  - replace (S last - 0 + 1)%nat with (S (S last)) by lia. reflexivity.
  - cbn [substring Nat.sub Nat.add]. rewrite substring_0_0. reflexivity.
Qed.

Lemma keep_to_last_fixed (s : string) :
  last_char (fun c => negb (trim_char c)) s -> keep_to_last s = s.
Proof.
  unfold last_char, keep_to_last.
  induction s as [ | c s IH]; cbn [find_last_not_of back]; [ reflexivity | ].
  destruct s as [ | d s].
  - cbn [find_last_not_of]. change (mem_char c trim_set) with (trim_char c).
    intros Hc. apply negb_true_iff in Hc. rewrite Hc. reflexivity.
  - intros Hback. specialize (IH Hback).
    destruct (find_last_not_of trim_set (String d s)) as [last | ] eqn:Hlast.
    + cbn [substring]. f_equal. exact IH.
    + discriminate.
Qed.

(** What [trim] leaves of a text. *)
Lemma trim_shape :
  forall s : string,
    (exists pre post,
        s = pre ++ trim s ++ post /\
        forall_chars trim_char pre = true /\
        forall_chars trim_char post = true)
    /\ first_char (fun c => negb (trim_char c)) (trim s)
    /\ last_char (fun c => negb (trim_char c)) (trim s)
    /\ (trim s = "" <-> forall_chars trim_char s = true)
    /\ trim (trim s) = trim s.
Proof.
  induction s as [ | c s IH].
  - split; [ exists "", ""; repeat split | ].
    repeat split; reflexivity.
  - destruct (trim_char c) eqn:Hc.
    + rewrite (trim_cons_strip c s Hc).
      destruct IH as ((pre & post & Hs & Hpre & Hpost) & Hfirst & Hlast & Hempty & Hidem).
      split.
      { exists (String c pre), post. cbn [append forall_chars].
        rewrite <- Hs, Hc. repeat split; assumption. }
      repeat split; try assumption.
      * intros H. cbn [forall_chars]. rewrite Hc. apply Hempty. exact H.
      * intros H. cbn [forall_chars] in H. rewrite Hc in H. apply Hempty. exact H.
    + rewrite (trim_cons_keep c s Hc).
      destruct (keep_to_last_spec s) as (post & Hs & Hpost & Hback).
      split.
      { exists "", post. cbn [append]. rewrite <- Hs. repeat split. exact Hpost. }
      assert (Hlast : last_char (fun c => negb (trim_char c))
                        (String c (keep_to_last s))).
      { unfold last_char in *. cbn [back].
        destruct (keep_to_last s); [ rewrite Hc; reflexivity | exact Hback ]. }
      repeat split.
      * unfold first_char. cbv beta. rewrite Hc. reflexivity.
      * exact Hlast.
      * discriminate.
      * cbn [forall_chars]. rewrite Hc. discriminate.
      * rewrite (trim_cons_keep c _ Hc). f_equal.
        apply keep_to_last_fixed. exact Hback.
Qed.

(** ** The shape of the normalized text *)

Lemma first_char_impl (P Q : ascii -> bool) (s : string) :
  (forall c, P c = true -> Q c = true) -> first_char P s -> first_char Q s.
Proof.
  intros HPQ. destruct s as [ | c s]; cbn; auto.
Qed.

Lemma last_char_impl (P Q : ascii -> bool) (s : string) :
  (forall c, P c = true -> Q c = true) -> last_char P s -> last_char Q s.
Proof.
  intros HPQ. unfold last_char. destruct (back s); auto.
Qed.

Lemma back_push_back (s : string) (c : ascii) : back (push_back s c) = Some c.
Proof.
  unfold push_back. induction s as [ | d s IH]; cbn [append back]; [ reflexivity | ].
  destruct (s ++ String c "") eqn:Happ; [ | exact IH ].
  destruct s; discriminate.
Qed.

Lemma no_double_space_push_back (s : string) (c : ascii) :
  no_double_space s = true ->
  (Ascii.eqb c " " = false
   \/ match back s with Some b => Ascii.eqb b " " = false | None => True end) ->
  no_double_space (push_back s c) = true.
Proof.
  unfold push_back. induction s as [ | d s IH]; intros Hs Hc; [ reflexivity | ].
  destruct s as [ | e s].
  - cbn [append no_double_space back] in *. rewrite andb_true_r.
    apply negb_true_iff. destruct Hc as [-> | ->];
      [ apply andb_false_r | reflexivity ].
  - cbn [append] in *. cbn [no_double_space] in *.
    apply andb_prop in Hs as [Hde Hs]. rewrite Hde. cbn [andb].
    apply IH; [ exact Hs | exact Hc ].
Qed.

Lemma no_double_space_substring (n m : nat) (s : string) :
  no_double_space s = true -> no_double_space (substring n m s) = true.
Proof.
  revert n m. induction s as [ | c s IH]; intros n m Hs.
  - destruct n, m; reflexivity.
  - assert (Htail : no_double_space s = true).
    { destruct s; [ reflexivity | ]. cbn [no_double_space] in Hs.
      apply andb_prop in Hs as [_ Hs]. exact Hs. }
    destruct n as [ | n]; [ | cbn [substring]; apply IH; exact Htail ].
    destruct m as [ | m]; [ reflexivity | ].
    cbn [substring].
    specialize (IH 0%nat m Htail).
    destruct s as [ | d s]; [ destruct m; reflexivity | ].
    destruct m as [ | m]; [ reflexivity | ].
    cbn [substring] in *. cbn [no_double_space] in *.
    apply andb_prop in Hs as [Hcd _]. rewrite Hcd. exact IH.
Qed.

Lemma no_double_space_trim (s : string) :
  no_double_space s = true -> no_double_space (trim s) = true.
Proof.
  intros Hs. unfold trim.
  destruct (find_first_not_of trim_set s); [ | reflexivity ].
  destruct (find_last_not_of trim_set s); [ | reflexivity ].
  apply no_double_space_substring. exact Hs.
Qed.

(** Without a slash in the text the loop never enters a comment, and it
    never puts a space behind a space. *)
Lemma removeComments_loop_no_double_space (str result : string) :
  forall_chars not_slash str = true ->
  no_double_space result = true ->
  no_double_space (removeComments_loop str false false result) = true.
Proof.
  revert result. induction str as [ | c rest IH]; intros result Hstr Hres.
  - exact Hres.
  - cbn [forall_chars] in Hstr. apply andb_prop in Hstr as [Hc Hrest].
    unfold not_slash in Hc. apply negb_true_iff in Hc.
    assert (Hplain :
      no_double_space
        (if isspace c
         then if empty result
                 || negb match back result with
                         | Some b => Ascii.eqb b " "
                         | None => false
                         end
              then removeComments_loop rest false false (push_back result " ")
              else removeComments_loop rest false false result
         else removeComments_loop rest false false (push_back result c)) = true).
    { destruct (isspace c) eqn:Hspace.
      - destruct (empty result || _) eqn:Hback; [ | apply IH; assumption ].
        apply IH; [ exact Hrest | ].
        apply no_double_space_push_back; [ exact Hres | right ].
        destruct result as [ | d result]; [ exact I | ].
        cbn [empty orb] in Hback.
        destruct (back (String d result)); [ | exact I ].
        apply negb_true_iff. exact Hback.
      - apply IH; [ exact Hrest | ].
        apply no_double_space_push_back; [ exact Hres | left ].
        destruct (Ascii.eqb_spec c " ") as [-> | ]; [ discriminate | reflexivity ]. }
    cbn [removeComments_loop].
    destruct rest as [ | c1 rest1]; [ exact Hplain | ].
    rewrite Hc. exact Hplain.
Qed.

Lemma kept_first_char (c : ascii) :
  kept c = true -> negb (trim_char c) = true -> negb (isspace c) = true.
Proof.
  unfold kept. intros Hkept Htrim.
  destruct (Ascii.eqb_spec c " ") as [Heq | Hne]; [ | exact Hkept ].
  subst c. vm_compute in Htrim. discriminate Htrim.
Qed.

Lemma forall_chars_first (P : ascii -> bool) (s : string) :
  forall_chars P s = true -> first_char P s.
Proof.
  destruct s as [ | c s]; cbn; [ auto | ].
  intros H. apply andb_prop in H as [H _]. exact H.
Qed.

Lemma forall_chars_last (P : ascii -> bool) (s : string) :
  forall_chars P s = true -> last_char P s.
Proof.
  unfold last_char. induction s as [ | c s IH]; cbn [back forall_chars]; [ auto | ].
  intros H. apply andb_prop in H as [Hc Hs].
  destruct s; [ exact Hc | apply IH; exact Hs ].
Qed.

Lemma first_char_and (P Q : ascii -> bool) (s : string) :
  first_char P s -> first_char Q s -> first_char (fun c => P c && Q c) s.
Proof.
  destruct s as [ | c s]; cbn; [ auto | ]. intros -> ->. reflexivity.
Qed.

Lemma last_char_and (P Q : ascii -> bool) (s : string) :
  last_char P s -> last_char Q s -> last_char (fun c => P c && Q c) s.
Proof.
  unfold last_char. destruct (back s); [ | auto ]. intros -> ->. reflexivity.
Qed.

(** ** splitFields *)

Lemma splitFields_loop_fields (content : string) :
  forall (fields : list string) (currentField : string) (braceLevel : Z),
    splitFields_loop content fields currentField braceLevel
    = (fields ++ splitFields_loop content [] currentField braceLevel)%list.
Proof.
  induction content as [ | c rest IH]; intros fields currentField braceLevel;
    cbn [splitFields_loop].
  - destruct (negb (empty currentField)); [ reflexivity | ].
    symmetry. apply app_nil_r.
  - set (level := if Ascii.eqb c "{" then _ else _).
    destruct (Ascii.eqb c ";" && Z.eqb level 0).
    + destruct (negb (empty currentField)); [ | apply IH ].
      rewrite (IH (fields ++ [trim currentField])%list). cbn [app].
      rewrite (IH [trim currentField]). rewrite <- app_assoc. reflexivity.
    + apply IH.
Qed.

Lemma append_push_back (s1 s2 : string) (c : ascii) :
  push_back (s1 ++ s2) c = s1 ++ push_back s2 c.
Proof.
  unfold push_back. apply append_assoc.
Qed.

(** Characters that are no braces are added to the current field, and so
    are semicolons while the brace level is not 0. *)
Lemma splitFields_loop_run (run rest : string) (fields : list string)
    (currentField : string) (braceLevel : Z) :
  forall_chars (fun c => not_brace c && (negb (Ascii.eqb c ";") || negb (Z.eqb braceLevel 0)))
    run = true ->
  splitFields_loop (run ++ rest) fields currentField braceLevel
  = splitFields_loop rest fields (currentField ++ run) braceLevel.
Proof.
  revert currentField. induction run as [ | c run IH]; intros currentField Hrun.
  - rewrite append_empty_r. reflexivity.
  - cbn [forall_chars] in Hrun. apply andb_prop in Hrun as [Hc Hrun].
    apply andb_prop in Hc as [Hbrace Hsemi].
    unfold not_brace in Hbrace. apply andb_prop in Hbrace as [Hopen Hclose].
    apply negb_true_iff in Hopen, Hclose.
    cbn [append splitFields_loop]. rewrite Hopen, Hclose.
    replace (Ascii.eqb c ";" && Z.eqb braceLevel 0) with false.
    + rewrite (IH _ Hrun). unfold push_back. rewrite append_assoc. reflexivity.
    + symmetry. apply andb_false_iff.
      apply orb_prop in Hsemi as [H | H]; apply negb_true_iff in H; auto.
Qed.

Lemma plain_run_at_level_0 (run : string) :
  forall_chars not_brace_or_semicolon run = true ->
  forall_chars (fun c => not_brace c && (negb (Ascii.eqb c ";") || negb (Z.eqb 0 0)))
    run = true.
Proof.
  apply forall_chars_impl. intros c H. unfold not_brace_or_semicolon in H.
  apply andb_prop in H as [-> ->]. reflexivity.
Qed.

Lemma brace_free_run_inside (run : string) (braceLevel : Z) :
  braceLevel <> 0 ->
  forall_chars not_brace run = true ->
  forall_chars (fun c => not_brace c
                         && (negb (Ascii.eqb c ";") || negb (Z.eqb braceLevel 0)))
    run = true.
Proof.
  intros Hlevel. apply forall_chars_impl. intros c ->.
  destruct (Z.eqb_spec braceLevel 0); [ contradiction | ].
  rewrite orb_true_r. reflexivity.
Qed.

(** ** What a match says about the text *)

(** A successful match cuts the text into one piece per atom of the pattern,
    and, for [regex_search], whatever follows the match. *)
Lemma exec_pieces (r : regex) :
  forall (anchored : bool) (s : string) (caps m : list string),
    exec r anchored s caps = Some m ->
    exists pieces rest,
      Forall2 piece_ok (map atom_of r) pieces /\
      s = concat_pieces pieces ++ rest /\
      (anchored = true -> rest = "").
Proof.
  induction r as [ | n r IH]; intros anchored s caps m; cbn [exec map].
  - intros Hm. exists [], s. split; [ constructor | ]. split; [ reflexivity | ].
    intros ->. destruct s; [ reflexivity | discriminate ].
  - assert (Hcont : forall piece rest0 caps',
               piece_ok (atom_of n) piece ->
               s = piece ++ rest0 ->
               exec r anchored rest0 caps' = Some m ->
               exists pieces rest,
                 Forall2 piece_ok (atom_of n :: map atom_of r) pieces /\
                 s = concat_pieces pieces ++ rest /\
                 (anchored = true -> rest = "")).
    { intros piece rest0 caps' Hok Hs Hexec.
      apply IH in Hexec as (pieces & rest & Hpieces & Hrest0 & Hend).
      exists (piece :: pieces), rest.
      split; [ constructor; assumption | ].
      split; [ | exact Hend ].
      cbn [concat_pieces fold_right]. fold (concat_pieces pieces).
      rewrite append_assoc, <- Hrest0. exact Hs. }
    destruct (atom_of n) as [c | cls | cls].
    + destruct s as [ | c' s]; [ discriminate | ].
      destruct (Ascii.eqb_spec c c') as [<- | ]; [ | discriminate ].
      intros Hexec. eapply Hcont; [ | | exact Hexec ]; reflexivity.
    + intros Hgreedy.
      apply greedy_sound in Hgreedy as (run & rest0 & Hs & Hrun & Hk).
      cbn [append] in Hk. eapply Hcont; [ exact Hrun | exact Hs | exact Hk ].
    + intros Hgreedy.
      apply greedy_sound in Hgreedy as (run & rest0 & Hs & Hrun & Hk).
      cbn [append] in Hk.
      destruct (empty run) eqn:Hempty; [ discriminate | ].
      eapply Hcont; [ | exact Hs | exact Hk ]. split; assumption.
Qed.

Lemma no_match_without (P : ascii -> bool) (r : regex) (anchored : bool)
    (s : string) (caps : list string) :
  Exists (needs_other P) (map atom_of r) ->
  forall_chars P s = true ->
  exec r anchored s caps = None.
Proof.
  intros Hneeds Hs.
  destruct (exec r anchored s caps) as [m | ] eqn:Hexec; [ exfalso | reflexivity ].
  apply exec_pieces in Hexec as (pieces & rest & Hpieces & -> & _).
  rewrite forall_chars_append in Hs. apply andb_prop in Hs as [Hs _].
  clear rest. revert Hs Hneeds.
  induction Hpieces as [ | a piece atoms pieces Hok _ IH]; intros Hs Hneeds.
  - inversion Hneeds.
  - cbn [concat_pieces fold_right] in Hs. fold (concat_pieces pieces) in Hs.
    rewrite forall_chars_append in Hs. apply andb_prop in Hs as [Hpiece Hs].
    inversion Hneeds as [? ? Ha | ? ? Hrest]; subst; [ | exact (IH Hs Hrest) ].
    destruct a as [c | cls | cls]; cbn in Ha, Hok.
    + subst piece. cbn in Hpiece. rewrite Ha in Hpiece. discriminate.
    + contradiction.
    + destruct Hok as [Hcls Hne].
      destruct piece as [ | c piece]; [ discriminate | ].
      cbn in Hpiece, Hcls.
      apply andb_prop in Hpiece as [Hp _]. apply andb_prop in Hcls as [Hc _].
      rewrite (Ha c Hc) in Hp. discriminate.
Qed.

Lemma match_stays_within (Q : ascii -> bool) (r : regex) (s : string)
    (caps m : list string) :
  Forall (stays_within Q) (map atom_of r) ->
  exec r true s caps = Some m ->
  forall_chars Q s = true.
Proof.
  intros Hwithin Hexec.
  apply exec_pieces in Hexec as (pieces & rest & Hpieces & -> & Hend).
  rewrite (Hend eq_refl), append_empty_r.
  clear Hend rest. revert Hwithin.
  induction Hpieces as [ | a piece atoms pieces Hok _ IH]; intros Hwithin.
  - reflexivity.
  - inversion Hwithin as [ | ? ? Ha Hrest]; subst.
    cbn [concat_pieces fold_right]. fold (concat_pieces pieces).
    rewrite forall_chars_append, (IH Hrest), andb_true_r.
    destruct a as [c | cls | cls]; cbn in Ha, Hok.
    + subst piece. cbn. rewrite Ha. reflexivity.
    + eapply forall_chars_impl; [ exact Ha | exact Hok ].
    + eapply forall_chars_impl; [ exact Ha | exact (proj1 Hok) ].
Qed.

(** ** Declarations that match no pattern *)

Lemma trim_char_isspace (c : ascii) : trim_char c = true -> isspace c = true.
Proof.
  unfold trim_char, trim_set. cbn [mem_char].
  destruct (Ascii.eqb_spec c " ") as [-> | ]; [ reflexivity | ].
  destruct (Ascii.eqb_spec c TAB) as [-> | ]; [ reflexivity | ].
  destruct (Ascii.eqb_spec c LF) as [-> | ]; [ reflexivity | ].
  destruct (Ascii.eqb_spec c CR) as [-> | ]; [ reflexivity | discriminate ].
Qed.

Lemma not_space_not_trim_char (c : ascii) :
  negb (isspace c) = true -> negb (trim_char c) = true.
Proof.
  intros H. apply negb_true_iff in H. apply negb_true_iff.
  destruct (trim_char c) eqn:Hc; [ | reflexivity ].
  apply trim_char_isspace in Hc. congruence.
Qed.

Lemma trim_fixed (s : string) :
  first_char (fun c => negb (trim_char c)) s ->
  last_char (fun c => negb (trim_char c)) s ->
  trim s = s.
Proof.
  destruct s as [ | c s]; [ reflexivity | ].
  unfold first_char. intros Hc Hlast. apply negb_true_iff in Hc.
  rewrite (trim_cons_keep c s Hc). f_equal.
  apply keep_to_last_fixed.
  unfold last_char in *. cbn [back] in Hlast.
  destruct s; [ exact I | exact Hlast ].
Qed.

Lemma regex_replace_spaces_fixed (s : string) (inRun : bool) :
  forall_chars (fun c => negb (isspace c)) s = true ->
  regex_replace_spaces s inRun = s.
Proof.
  revert inRun. induction s as [ | c s IH]; intros inRun Hs; [ reflexivity | ].
  cbn [forall_chars] in Hs. apply andb_prop in Hs as [Hc Hs].
  apply negb_true_iff in Hc. cbn [regex_replace_spaces]. rewrite Hc.
  rewrite (IH false Hs). reflexivity.
Qed.

(** A line without white space is its own simplified line. *)
Lemma simplified_line_fixed (s : string) :
  forall_chars (fun c => negb (isspace c)) s = true ->
  trim (regex_replace_spaces s false) = s.
Proof.
  intros Hs. rewrite (regex_replace_spaces_fixed s false Hs).
  pose proof (forall_chars_impl _ _ s not_space_not_trim_char Hs) as Htrim.
  apply trim_fixed;
    [ apply forall_chars_first | apply forall_chars_last ]; exact Htrim.
Qed.

Lemma space_needs_other :
  needs_other no_space_no_colon (Plus isspace).
Proof.
  intros c Hc. unfold no_space_no_colon. rewrite Hc. reflexivity.
Qed.

Lemma colon_needs_other : needs_other no_space_no_colon (Lit ":").
Proof. reflexivity. Qed.

Lemma classifyField_without_space_or_colon (line : string) :
  forall_chars no_space_no_colon line = true -> classifyField line = Ok None.
Proof.
  intros Hline. unfold classifyField, regex_match.
  rewrite (no_match_without no_space_no_colon bitFieldRegex);
    [ | apply Exists_cons_tl, Exists_cons_hd, space_needs_other | exact Hline ].
  rewrite (no_match_without no_space_no_colon anonymousBitFieldRegex);
    [ | do 2 apply Exists_cons_tl; apply Exists_cons_hd, colon_needs_other
      | exact Hline ].
  rewrite (no_match_without no_space_no_colon normalFieldRegex);
    [ | apply Exists_cons_tl, Exists_cons_hd, space_needs_other | exact Hline ].
  rewrite (no_match_without no_space_no_colon normalFieldWithMultipleSpaces);
    [ | apply Exists_cons_tl, Exists_cons_hd, space_needs_other | exact Hline ].
  reflexivity.
Qed.

(** ** Plain fields with trailing tokens *)

Lemma isword_not_space (c : ascii) : isword c = true -> isspace c = false.
Proof.
  destruct c as [[ | ] [ | ] [ | ] [ | ] [ | ] [ | ] [ | ] [ | ]];
    vm_compute; intros H; first [ reflexivity | discriminate H ].
Qed.

Lemma isword_not_colon (c : ascii) :
  isword c = true -> negb (Ascii.eqb c ":") = true.
Proof.
  destruct (Ascii.eqb_spec c ":") as [-> | ]; [ discriminate | reflexivity ].
Qed.

(** ** The bytes of a storage unit *)

Lemma length_storage_unit (buffer : list ascii) (off sz : Z) :
  in_buffer buffer off sz = true ->
  List.length (storage_unit buffer off sz) = Z.to_nat sz.
Proof.
  intros Hin. apply in_buffer_spec in Hin as (Hoff & Hsz & Hend).
  unfold storage_unit. rewrite length_firstn, length_skipn. lia.
Qed.

Lemma buffer_around_unit (buffer : list ascii) (off sz : Z) :
  in_buffer buffer off sz = true ->
  (firstn (Z.to_nat off) buffer ++ storage_unit buffer off sz
   ++ skipn (Z.to_nat (off + sz)) buffer)%list = buffer.
Proof.
  intros Hin. apply in_buffer_spec in Hin as (Hoff & Hsz & Hend).
  unfold storage_unit.
  rewrite <- (firstn_skipn (Z.to_nat off) buffer) at 4.
  f_equal.
  rewrite <- (firstn_skipn (Z.to_nat sz) (skipn (Z.to_nat off) buffer)) at 2.
  f_equal.
  rewrite skipn_skipn. f_equal. lia.
Qed.

Lemma nth_error_storage_unit (buffer : list ascii) (off sz : Z) (i : nat) :
  0 <= off -> 0 <= sz ->
  nth_error (storage_unit buffer off sz) i =
    if (i <? Z.to_nat sz)%nat then nth_error buffer (Z.to_nat off + i) else None.
Proof.
  intros Hoff Hsz. unfold storage_unit.
  rewrite nth_error_firstn.
  destruct (Nat.ltb_spec i (Z.to_nat sz)); [ | reflexivity ].
  apply nth_error_skipn.
Qed.

(** A storage unit depends on its own bytes only. *)
Lemma storage_unit_ext (buffer buffer' : list ascii) (off sz : Z) :
  0 <= off -> 0 <= sz ->
  (forall i : nat,
      off <= Z.of_nat i < off + sz -> nth_error buffer' i = nth_error buffer i) ->
  storage_unit buffer' off sz = storage_unit buffer off sz.
Proof.
  intros Hoff Hsz Hsame.
  apply nth_error_ext. intros i.
  rewrite !nth_error_storage_unit by assumption.
  destruct (Nat.ltb_spec i (Z.to_nat sz)); [ | reflexivity ].
  apply Hsame. lia.
Qed.

Lemma load_range (bs : list ascii) :
  0 <= load bs < 2 ^ (8 * Z.of_nat (List.length bs)).
Proof.
  induction bs as [ | b bs IH]; cbn [load List.length].
  - cbn. lia.
  - pose proof (byte_val_range b) as Hb.
    rewrite Nat2Z.inj_succ.
    replace (8 * Z.succ (Z.of_nat (List.length bs)))
      with (8 + 8 * Z.of_nat (List.length bs)) by lia.
    rewrite Z.pow_add_r by lia. change (2 ^ 8) with 256. nia.
Qed.

Lemma load_unit_range (buffer : list ascii) (off sz : Z) :
  in_buffer buffer off sz = true -> sz <= 8 ->
  0 <= load (storage_unit buffer off sz) < 2 ^ (8 * sz) /\
  0 <= load (storage_unit buffer off sz) < 2 ^ 64.
Proof.
  intros Hin Hsz.
  pose proof (load_range (storage_unit buffer off sz)) as Hr.
  rewrite (length_storage_unit _ _ _ Hin) in Hr.
  apply in_buffer_spec in Hin as (Hoff & Hsz0 & Hend).
  rewrite Z2Nat.id in Hr by lia.
  split; [ exact Hr | ].
  assert (2 ^ (8 * sz) <= 2 ^ 64) by (apply Z.pow_le_mono_r; lia).
  lia.
Qed.

(** Copying back the bytes a unit holds leaves the buffer as it is. *)
Lemma memcpy_to_same (buffer : list ascii) (off sz : Z) :
  in_buffer buffer off sz = true ->
  memcpy_to buffer off sz (load (storage_unit buffer off sz)) = Ok buffer.
Proof.
  intros Hin. unfold memcpy_to. rewrite Hin. f_equal.
  rewrite <- (length_storage_unit _ _ _ Hin), store_load.
  apply buffer_around_unit. exact Hin.
Qed.

Lemma memcpy_from_defined (buffer : list ascii) (off sz v : Z) :
  memcpy_from buffer off sz = Ok v ->
  in_buffer buffer off sz = true /\ v = load (storage_unit buffer off sz).
Proof.
  unfold memcpy_from. destruct (in_buffer buffer off sz); [ | discriminate ].
  intros [= <-]. split; reflexivity.
Qed.

Lemma memcpy_to_defined (buffer : list ascii) (off sz v : Z) :
  in_buffer buffer off sz = true ->
  exists buffer', memcpy_to buffer off sz v = Ok buffer'.
Proof.
  intros Hin. unfold memcpy_to. rewrite Hin. eexists. reflexivity.
Qed.

(** ** The bits of a container *)

(** Putting back the bits just taken out of a container gives the
    container. *)
Lemma write_value_same (cur w bo : Z) :
  0 <= w < 64 -> 0 <= bo < 64 -> 0 <= cur < 2 ^ 64 ->
  write_value cur (Z.land (Z.shiftr cur bo) (Z.ones w)) w bo = cur.
Proof.
  intros Hw Hbo Hcur. unfold write_value. rewrite mask_ones by lia.
  unfold not64, to_size_t.
  assert (Hhigh : forall i, 64 <= i -> Z.testbit cur i = false).
  { intros i Hi. apply (Z.testbit_false cur i); [ lia | ].
    rewrite Z.div_small; [ reflexivity | ].
    assert (2 ^ 64 <= 2 ^ i) by (apply Z.pow_le_mono_r; lia). lia. }
  Z.bitblast.
  all: try (rewrite Hhigh by lia; reflexivity).
Qed.

(** The bits of another field of the same container, outside the ones
    written, are read as before. *)
Lemma write_value_other (cur x w bo w' bo' sz : Z) :
  0 <= w < 64 -> 0 <= bo < 64 -> 0 <= w' < 64 -> 0 <= bo' < 64 ->
  0 <= sz <= 8 ->
  bo' + w' <= bo \/ bo + w <= bo' ->
  Z.land (Z.shiftr (write_value cur x w bo mod 2 ^ (8 * sz)) bo') (Z.ones w')
  = Z.land (Z.shiftr (cur mod 2 ^ (8 * sz)) bo') (Z.ones w').
Proof.
  intros Hw Hbo Hw' Hbo' Hsz Hsep. unfold write_value.
  rewrite mask_ones by lia.
  unfold not64, to_size_t.
  Z.bitblast.
Qed.

(** ** The failures of the parser *)

Lemma parseStruct_failure (structText : string) (e : failure) :
  parseStruct structText = Err e -> e = StructBodyNotFound \/ loop_failure e.
Proof.
  rewrite parseStruct_unfold.
  destruct (fieldLines structText) as [lines | ]; [ | intros [= <-]; left; reflexivity ].
  destruct (parseFields lines initialState) as [st | e'] eqn:Hloop; cbn [bind].
  - destruct (finalSize_total st) as [total ->]. discriminate.
  - intros [= <-]. right. eapply parseFields_failure. exact Hloop.
Qed.

Lemma parseStruct_not_FieldNotFound (structText n : string) :
  parseStruct structText <> Err (FieldNotFound n).
Proof.
  intros H. apply parseStruct_failure in H as [H | [H | (ty & H & _)]];
    discriminate H.
Qed.

Lemma parseStruct_not_Undefined (structText : string) :
  parseStruct structText <> Err Undefined.
Proof.
  intros H. apply parseStruct_failure in H as [H | [H | (ty & H & _)]];
    discriminate H.
Qed.

Lemma memcpy_to_failure (buffer : list ascii) (off sz v : Z) (e : failure) :
  memcpy_to buffer off sz v = Err e -> e = Undefined.
Proof.
  unfold memcpy_to. destruct (in_buffer buffer off sz); [ discriminate | ].
  congruence.
Qed.

Lemma memcpy_from_failure (buffer : list ascii) (off sz : Z) (e : failure) :
  memcpy_from buffer off sz = Err e -> e = Undefined.
Proof.
  unfold memcpy_from. destruct (in_buffer buffer off sz); [ discriminate | ].
  congruence.
Qed.

Lemma shl64_failure (a n : Z) (e : failure) : shl64 a n = Err e -> e = Undefined.
Proof.
  unfold shl64. destruct (_ && _); [ discriminate | congruence ].
Qed.

Lemma shr64_failure (a n : Z) (e : failure) : shr64 a n = Err e -> e = Undefined.
Proof.
  unfold shr64. destruct (_ && _); [ discriminate | congruence ].
Qed.

(** Once the field is found, the only failure left is what C++ leaves
    undefined. *)
Lemma struct_write_found (structText fieldName : string) (x : Z)
    (buffer : list ascii) (structInfo : StructInfo) (field : FieldInfo) (e : failure) :
  parseStruct structText = Ok structInfo ->
  find_field fieldName (fields structInfo) = Some field ->
  struct_write structText fieldName x buffer = Err e -> e = Undefined.
Proof.
  intros Hparse Hfind. unfold struct_write. rewrite Hparse. cbn [bind].
  rewrite Hfind. destruct (negb (isBitField field)).
  - apply memcpy_to_failure.
  - repeat match goal with
           | |- bind ?r _ = Err _ -> _ =>
               let H := fresh "H" in
               destruct r eqn:H; cbn [bind];
               [ | intros [= <-];
                   first [ exact (shl64_failure _ _ _ H)
                         | exact (memcpy_from_failure _ _ _ _ H) ] ]
           end.
    apply memcpy_to_failure.
Qed.

Lemma struct_read_found (sizeofT : Z) (structText fieldName : string)
    (buffer : list ascii) (structInfo : StructInfo) (field : FieldInfo) (e : failure) :
  parseStruct structText = Ok structInfo ->
  find_field fieldName (fields structInfo) = Some field ->
  struct_read sizeofT structText fieldName buffer = Err e -> e = Undefined.
Proof.
  intros Hparse Hfind. unfold struct_read. rewrite Hparse. cbn [bind].
  rewrite Hfind. destruct (negb (isBitField field)).
  - destruct (size field =? sizeofT); [ apply memcpy_from_failure | congruence ].
  - repeat match goal with
           | |- bind ?r _ = Err _ -> _ =>
               let H := fresh "H" in
               destruct r eqn:H; cbn [bind];
               [ | intros [= <-];
                   first [ exact (shl64_failure _ _ _ H)
                         | exact (shr64_failure _ _ _ H)
                         | exact (memcpy_from_failure _ _ _ _ H) ] ]
           end.
    discriminate.
Qed.

(** What a plain write does, once the field is found. *)
Lemma struct_write_plain (structText fieldName : string) (x : Z)
    (buffer : list ascii) (structInfo : StructInfo) (field : FieldInfo) :
  parseStruct structText = Ok structInfo ->
  find_field fieldName (fields structInfo) = Some field ->
  isBitField field = false ->
  struct_write structText fieldName x buffer =
    memcpy_to buffer (byteOffset field) (size field) (to_size_t x).
Proof.
  intros Hparse Hfind Hplain. unfold struct_write.
  rewrite Hparse. cbn [bind]. rewrite Hfind, Hplain. reflexivity.
Qed.

Lemma struct_read_plain (sizeofT : Z) (structText fieldName : string)
    (buffer : list ascii) (structInfo : StructInfo) (field : FieldInfo) :
  parseStruct structText = Ok structInfo ->
  find_field fieldName (fields structInfo) = Some field ->
  isBitField field = false ->
  struct_read sizeofT structText fieldName buffer =
    if size field =? sizeofT
    then memcpy_from buffer (byteOffset field) (size field)
    else Err Undefined.
Proof.
  intros Hparse Hfind Hplain. unfold struct_read.
  rewrite Hparse. cbn [bind]. rewrite Hfind, Hplain. reflexivity.
Qed.

(** A write succeeds on every field whose storage unit the buffer holds. *)
Lemma struct_write_defined (structText fieldName : string) (x : Z)
    (buffer : list ascii) (structInfo : StructInfo) (field : FieldInfo) :
  parseStruct structText = Ok structInfo ->
  find_field fieldName (fields structInfo) = Some field ->
  in_buffer buffer (byteOffset field) (size field) = true ->
  (isBitField field = true -> bitWidth field < 64) ->
  exists buffer',
    struct_write structText fieldName x buffer = Ok buffer' /\
    memcpy_to buffer (byteOffset field) (size field)
      (if isBitField field
       then write_value (load (storage_unit buffer (byteOffset field) (size field)))
              x (bitWidth field) (bitOffset field)
       else to_size_t x) = Ok buffer'.
Proof.
  intros Hparse Hfind Hin Hwidth.
  pose proof (found_field_wf _ _ _ _ Hparse Hfind) as Hwf.
  pose proof (wf_width _ Hwf) as Hw. pose proof (wf_bitOffset _ Hwf) as Hbo.
  destruct (isBitField field) eqn:Hbf.
  - specialize (Hwidth eq_refl).
    rewrite (struct_write_bitfield _ _ x buffer _ _ Hparse Hfind Hbf)
      by (try assumption; lia).
    rewrite (memcpy_from_unit _ _ _ Hin). cbn [bind].
    destruct (memcpy_to_defined buffer _ _
                (write_value (load (storage_unit buffer (byteOffset field) (size field)))
                   x (bitWidth field) (bitOffset field)) Hin) as [buffer' Hcopy].
    exists buffer'. split; exact Hcopy.
  - rewrite (struct_write_plain _ _ x buffer _ _ Hparse Hfind Hbf).
    destruct (memcpy_to_defined buffer _ _ (to_size_t x) Hin) as [buffer' Hcopy].
    exists buffer'. split; exact Hcopy.
Qed.

(** ** Plain fields and the byte cursor *)

Lemma ForallOrdPairs_snoc {A : Type} (R : A -> A -> Prop) (l : list A) (x : A) :
  ForallOrdPairs R l -> Forall (fun y => R y x) l -> ForallOrdPairs R (l ++ [x]).
Proof.
  induction 1 as [ | y l Hy Hl IH]; intros Hall; cbn.
  - constructor; constructor.
  - inversion Hall as [ | ? ? Hyx Hall' ]; subst.
    constructor; [ | apply IH; exact Hall' ].
    apply Forall_app. split; [ exact Hy | ].
    constructor; [ exact Hyx | constructor ].
Qed.

Lemma plain_inv_initial : plain_inv initialState.
Proof.
  split; cbn; constructor.
Qed.

Lemma plain_never_anonymous (field : FieldInfo) :
  classified field -> isBitField field = false -> isAnonymous field = false.
Proof.
  intros Hcl Hplain. destruct (isAnonymous field) eqn:Hanon; [ | reflexivity ].
  destruct (cl_anonymous _ Hcl Hanon) as [Hbf _]. congruence.
Qed.

Lemma parseField_plain_inv (n : Z) (line : string) (st st' : LoopState) :
  bits_inv st -> bytes_inv n st -> plain_inv st ->
  0 <= n -> 16 * (n + 1) <= INT_MAX ->
  parseField line st = Ok st' -> plain_inv st'.
Proof.
  intros Hbits (Hbc & _ & _) (Hends & Hclear) Hn Hmax Hstep.
  destruct (parseField_cases _ _ _ Hstep) as [(_ & ->) | (field & Hdecl)].
  { split; assumption. }
  pose proof (declaration_classified _ _ Hdecl) as Hcl.
  destruct (parseField_declared _ _ _ _ Hdecl Hbits Hstep)
    as (sz & placed & Hsz & Hplace & Hplaced & Hfields & _).
  destruct (placeField_bytes _ _ _ _ _ _ Hcl (proj1 Hbits) (proj1 Hbc)
              ltac:(lia) Hplace) as (sz' & Hsz' & Hoff & Hnext & Hplain & _).
  rewrite Hsz in Hsz'. injection Hsz' as <-.
  assert (Hold : Forall (fun f => isBitField f = false ->
                                  0 <= byteOffset f /\
                                  byteOffset f + size f <= currentByteOffset st')
                   (structFields st)).
  { eapply Forall_impl; [ | exact Hends ]. cbn. intros f Hf Hp.
    specialize (Hf Hp). lia. }
  assert (Hsize : size placed = sz) by (rewrite Hplaced; reflexivity).
  assert (Hkind : isBitField placed = isBitField field)
    by (rewrite Hplaced; reflexivity).
  unfold plain_inv. rewrite Hfields.
  destruct (negb (isAnonymous field)); [ | split; assumption ].
  split.
  - apply Forall_app. split; [ exact Hold | ].
    constructor; [ | constructor ].
    rewrite Hkind, Hsize. intros Hp. destruct (Hplain Hp) as (Hat & Hend & _). lia.
  - apply ForallOrdPairs_snoc; [ exact Hclear | ].
    eapply Forall_impl; [ | exact Hends ].
    unfold clear_of. cbn. intros f Hf Hp. specialize (Hf Hp). lia.
Qed.

Lemma parseFields_plain_inv (lines : list string) (n : Z) (st st' : LoopState) :
  bits_inv st -> bytes_inv n st -> plain_inv st -> 0 <= n ->
  16 * (n + Z.of_nat (List.length lines)) <= INT_MAX ->
  parseFields lines st = Ok st' -> plain_inv st'.
Proof.
  revert n st.
  induction lines as [ | line lines IH]; intros n st Hbits Hbytes Hplain Hn Hmax.
  - cbn. intros [= <-]. exact Hplain.
  - cbn [parseFields].
    destruct (parseField line st) as [st1 | e] eqn:Hstep; cbn [bind]; [ | discriminate ].
    rewrite length_cons, Nat2Z.inj_succ in Hmax.
    destruct (parseField_bytes_inv n line st st1 Hbits Hbytes Hn ltac:(lia) Hstep)
      as [Hbytes1 _].
    apply (IH (n + 1) st1); try lia.
    + eapply parseField_bits_inv; eassumption.
    + exact Hbytes1.
    + eapply (parseField_plain_inv n); try eassumption. lia.
Qed.

(** The state the loop reaches before a declaration of a short text. *)
Lemma state_before_declaration (structText : string)
    (before after : list string) (fieldLine : string) (st : LoopState) :
  short_text structText ->
  fieldLines structText = Some (before ++ fieldLine :: after)%list ->
  parseFields before initialState = Ok st ->
  bits_inv st /\ 0 <= currentByteOffset st /\ currentByteOffset st + 16 <= INT_MAX.
Proof.
  unfold short_text. intros Hshort Hlines Hbefore.
  pose proof (fieldLines_count _ _ Hlines) as Hcount.
  rewrite length_app, length_cons in Hcount.
  pose proof (parseFields_bits_inv _ _ _ bits_inv_initial Hbefore) as Hbits.
  assert (Hmax0 : 16 * (0 + Z.of_nat (List.length before)) <= INT_MAX)
    by (unfold INT_MAX; lia).
  pose proof (parseFields_bytes_inv before 0 _ _ bits_inv_initial bytes_inv_initial
                (Z.le_refl 0) Hmax0 Hbefore) as [Hbc _].
  split; [ exact Hbits | ]. unfold INT_MAX. lia.
Qed.

Lemma parseFields_snoc (before : list string) (fieldLine : string)
    (st : LoopState) :
  parseFields before initialState = Ok st ->
  parseFields (before ++ [fieldLine]) initialState = parseField fieldLine st.
Proof.
  intros Hbefore. rewrite parseFields_app, Hbefore. cbn [bind parseFields].
  destruct (parseField fieldLine st); reflexivity.
Qed.

(** ** The names of a layout *)

Lemma classifyField_word_name (line : string) (f : FieldInfo) :
  classifyField line = Ok (Some f) ->
  word_name f /\ forall_chars isword (type f) = true.
Proof.
  unfold classifyField, word_name.
  destruct (regex_match bitFieldRegex line) as [m | ] eqn:Hbits.
  { unfold regex_match in Hbits.
    apply exec_captures in Hbits as (groups & -> & Hgroups).
    cbn in Hgroups.
    inversion Hgroups as [ | ? t ? g1 Hty Hg1 ]; subst.
    inversion Hg1 as [ | ? n ? g2 Hname Hg2 ]; subst.
    inversion Hg2 as [ | ? w ? g3 _ Hg3 ]; subst.
    destruct Hty as [Hty _].
    cbn [app sub_match Nat.sub nth].
    destruct (stoi w); cbn [bind]; [ | discriminate ].
    intros [= <-]. cbn. repeat split; try assumption. discriminate. }
  destruct (regex_match anonymousBitFieldRegex line) as [m | ] eqn:Hanon.
  { unfold regex_match in Hanon.
    apply exec_captures in Hanon as (groups & -> & Hgroups).
    cbn in Hgroups.
    inversion Hgroups as [ | ? t ? g1 Hty Hg1 ]; subst.
    inversion Hg1 as [ | ? w ? g2 _ Hg2 ]; subst.
    destruct Hty as [Hty _].
    cbn [app sub_match Nat.sub nth].
    destruct (stoi w); cbn [bind]; [ | discriminate ].
    intros [= <-]. cbn. repeat split; try assumption. discriminate. }
  destruct (regex_match normalFieldRegex line) as [m | ] eqn:Hnormal.
  { unfold regex_match in Hnormal.
    apply exec_captures in Hnormal as (groups & -> & Hgroups).
    cbn in Hgroups.
    inversion Hgroups as [ | ? t ? g1 Hty Hg1 ]; subst.
    inversion Hg1 as [ | ? n ? g2 Hname Hg2 ]; subst.
    destruct Hty as [Hty _]. destruct Hname as [Hname Hne].
    cbn [app sub_match Nat.sub nth].
    intros [= <-]. cbn. repeat split; intros; assumption. }
  destruct (regex_match normalFieldWithMultipleSpaces line) as [m | ] eqn:Hmany.
  { unfold regex_match in Hmany.
    apply exec_captures in Hmany as (groups & -> & Hgroups).
    cbn in Hgroups.
    inversion Hgroups as [ | ? t ? g1 Hty Hg1 ]; subst.
    inversion Hg1 as [ | ? n ? g2 Hname Hg2 ]; subst.
    destruct Hty as [Hty _]. destruct Hname as [Hname Hne].
    cbn [app sub_match Nat.sub nth].
    intros [= <-]. cbn. repeat split; intros; assumption. }
  discriminate.
Qed.

Lemma parseField_word_names (line : string) (st st' : LoopState) :
  Forall word_name (structFields st) ->
  parseField line st = Ok st' -> Forall word_name (structFields st').
Proof.
  intros Hall. unfold parseField.
  destruct (declaration line) as [[field | ] | e] eqn:Hdecl; cbn [bind];
    [ | intros [= <-]; exact Hall | discriminate ].
  unfold declaration in Hdecl.
  destruct (empty line); [ discriminate | ].
  apply classifyField_word_name in Hdecl as [Hname _].
  assert (Hplaced : forall placed bc bitc,
             placeField field (currentByteOffset st) (currentBitOffset st)
             = Ok (placed, bc, bitc) -> word_name placed).
  { unfold placeField. intros placed bc bitc.
    destruct (negb (isBitField field));
      destruct (getTypeSize (type field)) as [sz | e]; cbn [bind]; try discriminate.
    - intros [= <- _ _]. exact Hname.
    - cbv zeta. destruct (_ >? _); destruct (_ >=? _);
        intros [= <- _ _]; exact Hname. }
  destruct (placeField field _ _) as [[[placed bc] bitc] | e]; cbn [bind];
    [ | discriminate ].
  intros [= <-]. cbn.
  destruct (negb (isAnonymous placed)); [ | exact Hall ].
  apply Forall_app. split; [ exact Hall | ].
  constructor; [ | constructor ]. eapply Hplaced. reflexivity.
Qed.

Lemma parseFields_word_names (lines : list string) (st st' : LoopState) :
  Forall word_name (structFields st) ->
  parseFields lines st = Ok st' -> Forall word_name (structFields st').
Proof.
  revert st. induction lines as [ | line lines IH]; intros st Hall; cbn.
  - intros [= <-]. exact Hall.
  - destruct (parseField line st) as [st1 | e] eqn:Hstep; cbn [bind]; [ | discriminate ].
    apply IH. eapply parseField_word_names; eassumption.
Qed.

Lemma structNameOf_word (structText : string) :
  forall_chars isword (structNameOf structText) = true.
Proof.
  unfold structNameOf.
  destruct (regex_search structNameRegex _) as [m | ] eqn:Hsearch; [ | reflexivity ].
  apply regex_search_sound in Hsearch as (before & from & _ & Hexec).
  apply exec_captures in Hexec as (groups & -> & Hgroups).
  cbn in Hgroups.
  inversion Hgroups as [ | ? n ? g1 Hname Hg1 ]; subst.
  inversion Hg1; subst.
  destruct Hname as [Hname _]. exact Hname.
Qed.

(** ** The lookup of a field by its name *)

(** The loop returns at the first field whose name is the one asked for. *)
Lemma find_field_first (fieldName : string) (fs : list FieldInfo) (f : FieldInfo) :
  find_field fieldName fs = Some f <-> first_named fieldName fs f.
Proof.
  unfold first_named. induction fs as [ | g fs IH]; cbn [find_field].
  - split; [ discriminate | ].
    intros (before & after & Hfs & _). destruct before; discriminate Hfs.
  - destruct (String.eqb_spec (name g) fieldName) as [Heq | Hne].
    + split.
      * intros [= <-]. exists [], fs. repeat split; [ exact Heq | constructor ].
      * intros (before & after & Hfs & Hname & Hbefore).
        destruct before as [ | g' before]; cbn [app] in Hfs.
        -- injection Hfs as -> _. reflexivity.
        -- injection Hfs as <- _. inversion Hbefore; subst. contradiction.
    + rewrite IH. split.
      * intros (before & after & -> & Hname & Hbefore).
        exists (g :: before), after. repeat split; [ exact Hname | ].
        constructor; assumption.
      * intros (before & after & Hfs & Hname & Hbefore).
        destruct before as [ | g' before]; cbn [app] in Hfs.
        -- injection Hfs as <- _. contradiction.
        -- injection Hfs as <- ->. inversion Hbefore; subst.
           exists before, after. repeat split; assumption.
Qed.

(** It runs to the end exactly when no field has that name. *)
Lemma find_field_none (fieldName : string) (fs : list FieldInfo) :
  find_field fieldName fs = None <-> not_listed fieldName fs.
Proof.
  unfold not_listed. induction fs as [ | g fs IH]; cbn [find_field].
  - split; [ constructor | reflexivity ].
  - destruct (String.eqb_spec (name g) fieldName) as [Heq | Hne].
    + split; [ discriminate | ]. intros H. inversion H; subst. contradiction.
    + rewrite IH. split.
      * intros H. constructor; assumption.
      * intros H. inversion H; subst. assumption.
Qed.

(** * The claims *)

(** C1, as the code has it.  For a bit-field of width [w < 64] that lies
    inside its storage unit ([bitOffset + w <= size * 8]) and a buffer that
    holds that storage unit: after [struct_write] of [x], [struct_read] (into
    an unsigned type of at least [w] bits) returns [x mod 2^w]; so it returns
    [x] for [x] in [[0, 2^w)] and 0 for [x = 2^w]. *)
Theorem bitfield_write_then_read :
  forall (sizeofT : Z) (structText fieldName : string) (x : Z)
         (buffer : list ascii) (structInfo : StructInfo) (field : FieldInfo),
    parseStruct structText = Ok structInfo ->
    find_field fieldName (fields structInfo) = Some field ->
    isBitField field = true ->
    in_buffer buffer (byteOffset field) (size field) = true ->
    bitWidth field < 64 ->
    bitOffset field + bitWidth field <= size field * 8 ->
    bitWidth field <= 8 * sizeofT ->
    exists buffer',
      struct_write structText fieldName x buffer = Ok buffer' /\
      struct_read sizeofT structText fieldName buffer'
        = Ok (x mod 2 ^ bitWidth field) /\
      (0 <= x < 2 ^ bitWidth field ->
         struct_read sizeofT structText fieldName buffer' = Ok x) /\
      (x = 2 ^ bitWidth field ->
         struct_read sizeofT structText fieldName buffer' = Ok 0).
Proof.
  intros sizeofT structText fieldName x buffer structInfo field
    Hparse Hfind Hbf Hin Hwidth Hfits HT.
  pose proof (found_field_wf _ _ _ _ Hparse Hfind) as Hwf.
  pose proof (getTypeSize_sizes _ _ (wf_size _ Hwf)) as Hsz.
  pose proof (wf_width _ Hwf) as Hw. pose proof (wf_bitOffset _ Hwf) as Hbo.
  rewrite (struct_write_bitfield _ _ x buffer _ _ Hparse Hfind Hbf)
    by (try assumption; lia).
  rewrite (memcpy_from_unit _ _ _ Hin). cbn [bind].
  set (v := write_value _ _ _ _).
  destruct (memcpy_to buffer (byteOffset field) (size field) v)
    as [buffer' | e] eqn:Hcopy.
  2:{ unfold memcpy_to in Hcopy. rewrite Hin in Hcopy. discriminate. }
  destruct (memcpy_to_props _ _ _ _ _ Hcopy) as (_ & Hlen & Hunit & _).
  exists buffer'.
  assert (Hread : struct_read sizeofT structText fieldName buffer'
                  = Ok (x mod 2 ^ bitWidth field)).
  { rewrite (struct_read_bitfield _ _ _ buffer' _ _ Hparse Hfind Hbf)
      by (try assumption; lia).
    rewrite memcpy_from_unit
      by (rewrite (in_buffer_same_length _ _ _ _ Hlen); exact Hin).
    cbn [bind]. rewrite Hunit, load_store, Z2Nat.id by lia.
    subst v. rewrite write_value_read by lia.
    f_equal. apply Z.mod_small.
    pose proof (Z.mod_pos_bound x (2 ^ bitWidth field)
                  ltac:(apply Z.pow_pos_nonneg; lia)).
    assert (2 ^ bitWidth field <= 2 ^ (8 * sizeofT))
      by (apply Z.pow_le_mono_r; lia).
    lia. }
  split; [ reflexivity | ]. split; [ exact Hread | ]. split.
  - intros Hx. rewrite Hread. f_equal. apply Z.mod_small. exact Hx.
  - intros ->. rewrite Hread. f_equal. apply Z.mod_same.
    apply Z.pow_nonzero; lia.
Qed.

(** The 5-bit field [b]: 21 is read back, and so is 32 = 2^5 as 0. *)
Lemma bitfield_write_then_read_witness :
  (exists buffer',
     struct_write "struct S { uint8_t a:3; uint8_t b:5; };" "b" 21 [full_byte]
       = Ok buffer' /\
     struct_read 1 "struct S { uint8_t a:3; uint8_t b:5; };" "b" buffer'
       = Ok (21 mod 2 ^ 5) /\
     (0 <= 21 < 2 ^ 5 ->
        struct_read 1 "struct S { uint8_t a:3; uint8_t b:5; };" "b" buffer'
          = Ok 21) /\
     (21 = 2 ^ 5 ->
        struct_read 1 "struct S { uint8_t a:3; uint8_t b:5; };" "b" buffer'
          = Ok 0)).
Proof.
  apply (bitfield_write_then_read 1
           "struct S { uint8_t a:3; uint8_t b:5; };" "b" 21 [full_byte]
           (mkStructInfo "S"
              [mkFieldInfo "uint8_t" "a" 3 0 0 1 true false;
               mkFieldInfo "uint8_t" "b" 5 0 3 1 true false] 1)
           (mkFieldInfo "uint8_t" "b" 5 0 3 1 true false)).
  - vm_compute. reflexivity.
  - reflexivity.
  - reflexivity.
  - reflexivity.
  - cbn. lia.
  - cbn. lia.
  - cbn. lia.
Defined.

(** C1 as stated fails: the 9-bit field of a [uint8_t] unit takes 256, which
    is below 2^9, and gives back 0.  The buffer has the two bytes
    [struct_sizeof] asks for. *)
Lemma wide_bitfield_does_not_round_trip :
  exists buffer',
    struct_sizeof "{ uint8_t a:9; }" = Ok 2 /\
    0 <= 256 < 2 ^ 9 /\
    struct_write "{ uint8_t a:9; }" "a" 256 [zero_byte; zero_byte] = Ok buffer' /\
    struct_read 8 "{ uint8_t a:9; }" "a" buffer' = Ok 0 /\
    struct_read 8 "{ uint8_t a:9; }" "a" buffer' <> Ok 256.
Proof.
  exists [zero_byte; zero_byte].
  split; [ vm_compute; reflexivity | ].
  split; [ lia | ].
  split; [ vm_compute; reflexivity | ].
  split; [ vm_compute; reflexivity | ].
  vm_compute. discriminate.
Qed.

(** A buffer of [struct_sizeof] bytes need not hold the storage unit of a
    field: an open [uint32_t] unit counts for one byte and is written as
    four. *)
Lemma buffer_of_sizeof_bytes_is_overrun :
  struct_sizeof "{ uint32_t a:3; }" = Ok 1 /\
  struct_write "{ uint32_t a:3; }" "a" 5 [zero_byte] = Err Undefined.
Proof.
  split; vm_compute; reflexivity.
Qed.

(** The mask of a 64-bit field is a shift by 64. *)
Lemma bitfield_of_64_bits_is_undefined :
  struct_write "{ uint64_t a:64; }" "a" 5
    [zero_byte; zero_byte; zero_byte; zero_byte;
     zero_byte; zero_byte; zero_byte; zero_byte] = Err Undefined.
Proof.
  vm_compute. reflexivity.
Qed.

(** C2.  A bit-field that does not fit the open storage unit should close
    that unit: the byte cursor should move past the unit, by the storage
    size of the field that opened it.  The code moves it by the storage
    size of the new field instead.  After the 20 bits of [a] in a
    [uint32_t] unit (bytes 0 to 3), the [uint8_t] bit-field [b] does not
    fit; it is placed at byte 1, not at byte 4, inside the unit of [a],
    whose bits 8 to 11 it shares: writing 15 to [b] turns [a] from 0 into
    3840. *)
Theorem overflowing_bitfield_lands_inside_the_open_unit :
  parseStruct "struct S { uint32_t a:20; uint8_t b:4; };"
    = Ok (mkStructInfo "S"
            [mkFieldInfo "uint32_t" "a" 20 0 0 4 true false;
             mkFieldInfo "uint8_t" "b" 4 1 0 1 true false] 2)
  /\ parseFields ["uint32_t a:20"] initialState
     = Ok (mkLoopState 0 20 [mkFieldInfo "uint32_t" "a" 20 0 0 4 true false])
  /\ parseFields ["uint32_t a:20"; "uint8_t b:4"] initialState
     = Ok (mkLoopState 1 4
             [mkFieldInfo "uint32_t" "a" 20 0 0 4 true false;
              mkFieldInfo "uint8_t" "b" 4 1 0 1 true false])
  /\ struct_read 4 "struct S { uint32_t a:20; uint8_t b:4; };" "a"
       [zero_byte; zero_byte; zero_byte; zero_byte] = Ok 0
  /\ struct_write "struct S { uint32_t a:20; uint8_t b:4; };" "b" 15
       [zero_byte; zero_byte; zero_byte; zero_byte]
     = Ok [zero_byte; byte_of 15; zero_byte; zero_byte]
  /\ struct_read 4 "struct S { uint32_t a:20; uint8_t b:4; };" "a"
       [zero_byte; byte_of 15; zero_byte; zero_byte] = Ok 3840
  /\ parseStruct "struct S { uint32_t a:20; uint32_t b:16; };"
     = Ok (mkStructInfo "S"
             [mkFieldInfo "uint32_t" "a" 20 0 0 4 true false;
              mkFieldInfo "uint32_t" "b" 16 4 0 4 true false] 5).
Proof.
  repeat split; vm_compute; reflexivity.
Qed.

(** C3.  The layout of a text with comments should be the layout of the
    text with every comment replaced by a separator.  The code does so for a
    line comment, which it replaces by a space, and not for a block comment,
    which it deletes without a separator: the two tokens around it merge, the
    merged declaration is not recognized and the field is lost. *)
Theorem block_comment_merges_adjacent_tokens :
  removeCommentsAndExtraSpaces "struct S { uint8_t/* flags */a; };"
    = "struct S { uint8_ta; };"
  /\ parseStruct "struct S { uint8_t/* flags */a; };"
     = Ok (mkStructInfo "S" [] 0)
  /\ parseStruct "struct S { uint8_t a; };"
     = Ok (mkStructInfo "S" [mkFieldInfo "uint8_t" "a" 0 0 0 1 false false] 1)
  /\ parseStruct ("struct S { uint8_t// flags" ++ String LF "a; };")
     = Ok (mkStructInfo "S" [mkFieldInfo "uint8_t" "a" 0 0 0 1 false false] 1).
Proof.
  repeat split; vm_compute; reflexivity.
Qed.

(** C4.  An anonymous bit-field should move the cursor and stay out of the
    field sequence.  Written with a blank before the colon it matches the
    pattern of the named bit-fields first, with an empty name, and is listed
    among the fields; written without the blank it reaches the pattern of the
    anonymous bit-fields and is left out. *)
Theorem spaced_anonymous_bitfield_is_listed :
  parseStruct "struct S { uint8_t : 3; uint8_t a : 5; };"
    = Ok (mkStructInfo "S"
            [mkFieldInfo "uint8_t" "" 3 0 0 1 true false;
             mkFieldInfo "uint8_t" "a" 5 0 3 1 true false] 1)
  /\ parseStruct "struct S { uint8_t: 3; uint8_t a : 5; };"
     = Ok (mkStructInfo "S" [mkFieldInfo "uint8_t" "a" 5 0 3 1 true false] 1)
  /\ classifyField "uint8_t : 3"
     = Ok (Some (mkFieldInfo "uint8_t" "" 3 0 0 0 true false))
  /\ classifyField "uint8_t: 3"
     = Ok (Some (mkFieldInfo "uint8_t" "" 3 0 0 0 true true)).
Proof.
  repeat split; vm_compute; reflexivity.
Qed.

(** C5.  For every struct text (short enough for the [int] cursors not to
    wrap), the total size [parseStruct] computes, which is what
    [struct_sizeof] returns, is the final byte cursor plus exactly one byte
    when a bit-field run is still open at the end of the field list (final
    bit cursor above 0), and the final byte cursor itself otherwise; the
    size of the open storage unit plays no part. *)
Theorem total_size_is_byte_cursor_plus_one_if_run_open :
  forall (structText : string) (structInfo : StructInfo),
    short_text structText ->
    parseStruct structText = Ok structInfo ->
    exists lines st,
      fieldLines structText = Some lines /\
      parseFields lines initialState = Ok st /\
      0 <= currentBitOffset st /\
      (currentBitOffset st > 0 ->
         totalSize structInfo = currentByteOffset st + 1) /\
      (currentBitOffset st = 0 ->
         totalSize structInfo = currentByteOffset st) /\
      struct_sizeof structText = Ok (totalSize structInfo).
Proof.
  intros structText structInfo Hshort Hparse.
  destruct (parseStruct_layout _ _ Hshort Hparse)
    as (lines & st & Hlines & Hloop & [Hbit _] & _ & _ & _ & _ & Htotal).
  exists lines, st.
  repeat split; try assumption; try lia.
  - intros Hopen. rewrite Htotal.
    destruct (Z.gtb_spec (currentBitOffset st) 0); lia.
  - intros Hclosed. rewrite Htotal, Hclosed. cbn. lia.
  - unfold struct_sizeof. rewrite Hparse. reflexivity.
Qed.

(** An open [uint32_t] unit adds one byte, not four. *)
Lemma total_size_is_byte_cursor_plus_one_if_run_open_witness :
  exists lines st,
    fieldLines "struct S { uint32_t a:3; };" = Some lines /\
    parseFields lines initialState = Ok st /\
    0 <= currentBitOffset st /\
    (currentBitOffset st > 0 -> 1 = currentByteOffset st + 1) /\
    (currentBitOffset st = 0 -> 1 = currentByteOffset st) /\
    struct_sizeof "struct S { uint32_t a:3; };" = Ok 1.
Proof.
  apply (total_size_is_byte_cursor_plus_one_if_run_open
           "struct S { uint32_t a:3; };"
           (mkStructInfo "S"
              [mkFieldInfo "uint32_t" "a" 3 0 0 4 true false] 1)).
  - unfold short_text. cbn. lia.
  - vm_compute. reflexivity.
Defined.



(** C7, as the code has it.  For every struct text that parses, every
    bit-field of the layout whose declared width is at most the bit size of
    its type lies inside its storage unit,
    [bitOffset + bitWidth <= size * 8]; and, the text being short enough for
    the [int] cursors not to wrap, the byte offsets never decrease along the
    declaration order. *)
Theorem layout_offsets_ordered_and_bitfields_fit :
  forall (structText : string) (structInfo : StructInfo),
    parseStruct structText = Ok structInfo ->
    (short_text structText ->
     StronglySorted Z.le (map byteOffset (fields structInfo))) /\
    Forall (fun f =>
              isBitField f = true ->
              bitWidth f <= size f * 8 ->
              bitOffset f + bitWidth f <= size f * 8)
           (fields structInfo).
Proof.
  intros structText structInfo Hparse. split.
  - intros Hshort.
    destruct (parseStruct_layout _ _ Hshort Hparse)
      as (lines & st & _ & _ & _ & (_ & _ & Hsorted) & _ & _ & Hfields & _).
    rewrite Hfields. exact Hsorted.
  - eapply Forall_impl; [ | exact (parseStruct_fields_wf _ _ Hparse) ].
    intros f Hf. exact (wf_fits f Hf).
Qed.

Lemma layout_offsets_ordered_and_bitfields_fit_witness :
  StronglySorted Z.le [0; 0; 1; 4] /\
  Forall (fun f =>
            isBitField f = true ->
            bitWidth f <= size f * 8 ->
            bitOffset f + bitWidth f <= size f * 8)
         [mkFieldInfo "uint8_t" "a" 3 0 0 1 true false;
          mkFieldInfo "uint8_t" "b" 5 0 3 1 true false;
          mkFieldInfo "uint16_t" "c" 0 1 0 2 false false;
          mkFieldInfo "uint8_t" "d" 9 4 0 1 true false].
Proof.
  destruct (layout_offsets_ordered_and_bitfields_fit
              "struct S { uint8_t a:3; uint8_t b:5; uint16_t c; uint8_t d:9; };"
              (mkStructInfo "S"
                 [mkFieldInfo "uint8_t" "a" 3 0 0 1 true false;
                  mkFieldInfo "uint8_t" "b" 5 0 3 1 true false;
                  mkFieldInfo "uint16_t" "c" 0 1 0 2 false false;
                  mkFieldInfo "uint8_t" "d" 9 4 0 1 true false] 5))
    as [Hsorted Hfit].
  - vm_compute. reflexivity.
  - split; [ | exact Hfit ].
    apply Hsorted. unfold short_text. cbn. lia.
Defined.

(** C7 as stated fails: a bit-field wider than its type is accepted and
    sticks out of its storage unit. *)
Lemma wide_bitfield_exceeds_its_unit :
  exists f,
    parseStruct "{ uint8_t a:9; }" = Ok (mkStructInfo "" [f] 2) /\
    isBitField f = true /\
    ~ (bitOffset f + bitWidth f <= size f * 8).
Proof.
  exists (mkFieldInfo "uint8_t" "a" 9 1 0 1 true false).
  split; [ vm_compute; reflexivity | ].
  split; [ reflexivity | ].
  cbn. lia.
Qed.



(** C9.  For every struct text, field name found in its layout and buffer
    that holds the storage unit of the field (for a bit-field, of a width the
    64-bit mask can express), [struct_write] succeeds, keeps the length of
    the buffer, changes no byte outside
    [[byteOffset, byteOffset + size)], and for a bit-field leaves every bit
    of the storage unit outside [[bitOffset, bitOffset + bitWidth)] as it
    was. *)
Theorem struct_write_changes_only_the_field :
  forall (structText fieldName : string) (x : Z) (buffer : list ascii)
         (structInfo : StructInfo) (field : FieldInfo),
    parseStruct structText = Ok structInfo ->
    find_field fieldName (fields structInfo) = Some field ->
    in_buffer buffer (byteOffset field) (size field) = true ->
    (isBitField field = true -> bitWidth field < 64) ->
    exists buffer',
      struct_write structText fieldName x buffer = Ok buffer' /\
      List.length buffer' = List.length buffer /\
      (forall i : nat,
          Z.of_nat i < byteOffset field
          \/ byteOffset field + size field <= Z.of_nat i ->
          nth_error buffer' i = nth_error buffer i) /\
      (isBitField field = true ->
       forall j : Z,
         0 <= j < 8 * size field ->
         j < bitOffset field \/ bitOffset field + bitWidth field <= j ->
         Z.testbit (load (storage_unit buffer' (byteOffset field) (size field))) j
         = Z.testbit (load (storage_unit buffer (byteOffset field) (size field))) j).
Proof.
  intros structText fieldName x buffer structInfo field Hparse Hfind Hin Hwidth.
  pose proof (found_field_wf _ _ _ _ Hparse Hfind) as Hwf.
  pose proof (getTypeSize_sizes _ _ (wf_size _ Hwf)) as Hsz.
  destruct (isBitField field) eqn:Hbf.
  - specialize (Hwidth eq_refl).
    pose proof (wf_width _ Hwf) as Hw. pose proof (wf_bitOffset _ Hwf) as Hbo.
    rewrite (struct_write_bitfield _ _ x buffer _ _ Hparse Hfind Hbf)
      by (try assumption; lia).
    rewrite (memcpy_from_unit _ _ _ Hin). cbn [bind].
    set (v := write_value _ _ _ _).
    destruct (memcpy_to buffer (byteOffset field) (size field) v)
      as [buffer' | e] eqn:Hcopy.
    2:{ unfold memcpy_to in Hcopy. rewrite Hin in Hcopy. discriminate. }
    destruct (memcpy_to_props _ _ _ _ _ Hcopy) as (_ & Hlen & Hunit & Hout).
    exists buffer'. repeat split; try assumption.
    intros _ j Hj Hframe. rewrite Hunit, load_store.
    rewrite Z2Nat.id by lia.
    rewrite Z.testbit_mod_pow2 by lia.
    destruct (Z.ltb_spec j (8 * size field)); [ | lia ].
    cbn [andb]. subst v. apply write_value_frame; lia.
  - unfold struct_write. rewrite Hparse. cbn [bind]. rewrite Hfind, Hbf. cbn [negb].
    destruct (memcpy_to buffer (byteOffset field) (size field) (to_size_t x))
      as [buffer' | e] eqn:Hcopy.
    2:{ unfold memcpy_to in Hcopy. rewrite Hin in Hcopy. discriminate. }
    destruct (memcpy_to_props _ _ _ _ _ Hcopy) as (_ & Hlen & Hunit & Hout).
    exists buffer'. repeat split; try assumption. discriminate.
Qed.

(** Writing the 5-bit field [b] of a buffer of ones clears and sets bits 3 to
    7 of byte 0 only. *)
Lemma struct_write_changes_only_the_field_witness :
  exists buffer',
    struct_write "struct S { uint8_t a:3; uint8_t b:5; uint16_t c; };" "b" 0
      [full_byte; full_byte; full_byte] = Ok buffer' /\
    List.length buffer' = 3%nat /\
    (forall i : nat,
        Z.of_nat i < 0 \/ 0 + 1 <= Z.of_nat i ->
        nth_error buffer' i = nth_error [full_byte; full_byte; full_byte] i) /\
    (true = true ->
     forall j : Z,
       0 <= j < 8 * 1 ->
       j < 3 \/ 3 + 5 <= j ->
       Z.testbit (load (storage_unit buffer' 0 1)) j
       = Z.testbit (load (storage_unit [full_byte; full_byte; full_byte] 0 1)) j).
Proof.
  apply (struct_write_changes_only_the_field
           "struct S { uint8_t a:3; uint8_t b:5; uint16_t c; };" "b" 0
           [full_byte; full_byte; full_byte]
           (mkStructInfo "S"
              [mkFieldInfo "uint8_t" "a" 3 0 0 1 true false;
               mkFieldInfo "uint8_t" "b" 5 0 3 1 true false;
               mkFieldInfo "uint16_t" "c" 0 1 0 2 false false] 3)
           (mkFieldInfo "uint8_t" "b" 5 0 3 1 true false)).
  - vm_compute. reflexivity.
  - reflexivity.
  - reflexivity.
  - intros _. cbn. lia.
Defined.




(** * Further properties of the source *)

(** ** trim *)

(** [trim] cuts a run of the characters space, tab, line feed and carriage
    return off each end of the text, and nothing else: what is left neither
    starts nor ends with one of them, it is empty exactly when the text holds
    nothing else, and trimming it again changes nothing. *)
Theorem trim_strips_both_ends :
  forall s : string,
    (exists pre post,
        s = pre ++ trim s ++ post /\
        forall_chars trim_char pre = true /\
        forall_chars trim_char post = true)
    /\ first_char (fun c => negb (trim_char c)) (trim s)
    /\ last_char (fun c => negb (trim_char c)) (trim s)
    /\ (trim s = "" <-> forall_chars trim_char s = true)
    /\ trim (trim s) = trim s.
Proof.
  exact trim_shape.
Qed.

Lemma trim_strips_both_ends_witness :
  (exists pre post,
      String TAB " uint8_t a  " = pre ++ trim (String TAB " uint8_t a  ") ++ post /\
      forall_chars trim_char pre = true /\
      forall_chars trim_char post = true)
  /\ first_char (fun c => negb (trim_char c)) (trim (String TAB " uint8_t a  "))
  /\ last_char (fun c => negb (trim_char c)) (trim (String TAB " uint8_t a  "))
  /\ (trim (String TAB " uint8_t a  ") = ""
      <-> forall_chars trim_char (String TAB " uint8_t a  ") = true)
  /\ trim (trim (String TAB " uint8_t a  ")) = trim (String TAB " uint8_t a  ").
Proof.
  exact (trim_strips_both_ends (String TAB " uint8_t a  ")).
Defined.

(** ** removeCommentsAndExtraSpaces *)

(** The normalized text is no longer than the text; its only white space is
    the space character; it neither starts nor ends with white space; and
    when the text holds no slash (so no comment), it has no two spaces in a
    row. *)
Theorem normalized_text_shape :
  forall str : string,
    (String.length (removeCommentsAndExtraSpaces str) <= String.length str)%nat
    /\ forall_chars kept (removeCommentsAndExtraSpaces str) = true
    /\ first_char (fun c => negb (isspace c)) (removeCommentsAndExtraSpaces str)
    /\ last_char (fun c => negb (isspace c)) (removeCommentsAndExtraSpaces str)
    /\ (forall_chars not_slash str = true ->
        no_double_space (removeCommentsAndExtraSpaces str) = true).
Proof.
  intros str.
  assert (Hkept : forall_chars kept (removeCommentsAndExtraSpaces str) = true).
  { unfold removeCommentsAndExtraSpaces. apply forall_chars_trim.
    destruct (removeComments_loop_props (String.length str) str false false ""
                (le_n _)) as [_ H].
    apply H. reflexivity. }
  destruct (trim_shape (removeComments_loop str false false ""))
    as (_ & Hfirst & Hlast & _).
  fold (removeCommentsAndExtraSpaces str) in Hfirst, Hlast.
  split; [ apply length_removeCommentsAndExtraSpaces | ].
  split; [ exact Hkept | ].
  split; [ | split ].
  - eapply first_char_impl;
      [ | exact (first_char_and _ _ _ (forall_chars_first _ _ Hkept) Hfirst) ].
    intros c H. apply andb_prop in H as [H1 H2]. apply kept_first_char; assumption.
  - eapply last_char_impl;
      [ | exact (last_char_and _ _ _ (forall_chars_last _ _ Hkept) Hlast) ].
    intros c H. apply andb_prop in H as [H1 H2]. apply kept_first_char; assumption.
  - intros Hslash. unfold removeCommentsAndExtraSpaces.
    apply no_double_space_trim.
    apply removeComments_loop_no_double_space; [ exact Hslash | reflexivity ].
Qed.

(** Tabs, line feeds and runs of spaces become single spaces. *)
Lemma normalized_text_shape_witness :
  (String.length
     (removeCommentsAndExtraSpaces ("struct  S {" ++ String LF (String TAB "uint8_t a; }")))
   <= String.length ("struct  S {" ++ String LF (String TAB "uint8_t a; }")))%nat
  /\ forall_chars kept
       (removeCommentsAndExtraSpaces ("struct  S {" ++ String LF (String TAB "uint8_t a; }")))
     = true
  /\ first_char (fun c => negb (isspace c))
       (removeCommentsAndExtraSpaces ("struct  S {" ++ String LF (String TAB "uint8_t a; }")))
  /\ last_char (fun c => negb (isspace c))
       (removeCommentsAndExtraSpaces ("struct  S {" ++ String LF (String TAB "uint8_t a; }")))
  /\ no_double_space
       (removeCommentsAndExtraSpaces ("struct  S {" ++ String LF (String TAB "uint8_t a; }")))
     = true.
Proof.
  destruct (normalized_text_shape ("struct  S {" ++ String LF (String TAB "uint8_t a; }")))
    as (Hlength & Hkept & Hfirst & Hlast & Hspaces).
  repeat (split; [ assumption | ]).
  apply Hspaces. reflexivity.
Defined.

(** A block comment is deleted and leaves nothing in its place; a line
    comment leaves a space. *)
Theorem comments_and_their_separators :
  forall comment rest result : string,
    (forall_chars not_slash comment = true ->
     removeComments_loop ("/*" ++ comment ++ "*/" ++ rest) false false result
     = removeComments_loop rest false false result)
    /\ (forall_chars not_newline comment = true ->
        removeComments_loop ("//" ++ comment ++ String LF rest) false false result
        = removeComments_loop rest false false (push_back result " ")).
Proof.
  intros comment rest result. split; intros Hc.
  - cbn [append removeComments_loop].
    change (Ascii.eqb "/" "/") with true. change (Ascii.eqb "*" "/") with false.
    change (Ascii.eqb "*" "*") with true. cbv iota.
    apply inside_block_comment. exact Hc.
  - cbn [append removeComments_loop].
    change (Ascii.eqb "/" "/") with true. cbv iota.
    apply inside_line_comment. exact Hc.
Qed.

Lemma comments_and_their_separators_witness :
  removeComments_loop "/* flags */a;" false false "uint8_t"
    = removeComments_loop "a;" false false "uint8_t"
  /\ removeComments_loop ("// flags" ++ String LF "a;") false false "uint8_t"
     = removeComments_loop "a;" false false (push_back "uint8_t" " ").
Proof.
  split.
  - apply (proj1 (comments_and_their_separators " flags " "a;" "uint8_t")).
    reflexivity.
  - apply (proj2 (comments_and_their_separators " flags" "a;" "uint8_t")).
    reflexivity.
Defined.



(** ** splitFields *)

(** A semicolon outside braces ends the current declaration: the text before
    it, trimmed, is the first field (none when there is no text), and the
    splitting goes on behind it.  Text without such a semicolon is one
    field. *)
Theorem splitFields_cuts_at_semicolons :
  forall before after : string,
    forall_chars not_brace_or_semicolon before = true ->
    splitFields (before ++ String ";" after)
    = ((if empty before then [] else [trim before]) ++ splitFields after)%list
    /\ splitFields before = (if empty before then [] else [trim before]).
Proof.
  intros before after Hbefore. unfold splitFields.
  pose proof (plain_run_at_level_0 _ Hbefore) as Hrun. split.
  - rewrite (splitFields_loop_run before _ [] "" 0 Hrun).
    cbn [append splitFields_loop]. change (Ascii.eqb ";" "{") with false.
    change (Ascii.eqb ";" "}") with false. change (Ascii.eqb ";" ";") with true.
    cbn [Z.eqb andb].
    destruct before; cbn [empty negb]; [ reflexivity | ].
    apply splitFields_loop_fields.
  - rewrite <- (append_empty_r before) at 1.
    rewrite (splitFields_loop_run before _ [] "" 0 Hrun).
    cbn [append splitFields_loop].
    destruct before; reflexivity.
Qed.

Lemma splitFields_cuts_at_semicolons_witness :
  splitFields (" uint8_t a" ++ String ";" " uint16_t b; ")
  = ((if empty " uint8_t a" then [] else [trim " uint8_t a"])
     ++ splitFields " uint16_t b; ")%list
  /\ splitFields " uint8_t a"
     = (if empty " uint8_t a" then [] else [trim " uint8_t a"]).
Proof.
  apply (splitFields_cuts_at_semicolons " uint8_t a" " uint16_t b; ").
  reflexivity.
Defined.

(** A group in braces stays inside its declaration with the semicolons it
    holds: the declaration ends at the first semicolon behind the group. *)
Theorem braces_protect_semicolons :
  forall before inner behind after : string,
    forall_chars not_brace_or_semicolon before = true ->
    forall_chars not_brace inner = true ->
    forall_chars not_brace_or_semicolon behind = true ->
    splitFields (before ++ "{" ++ inner ++ "}" ++ behind ++ String ";" after)
    = (trim (before ++ "{" ++ inner ++ "}" ++ behind) :: splitFields after).
Proof.
  intros before inner behind after Hbefore Hinner Hbehind. unfold splitFields.
  rewrite (splitFields_loop_run before _ [] "" 0 (plain_run_at_level_0 _ Hbefore)).
  cbn [append splitFields_loop]. change (Ascii.eqb "{" "{") with true.
  change (Ascii.eqb "{" ";") with false. cbn [andb].
  change (to_int (0 + 1)) with 1.
  rewrite (splitFields_loop_run inner _ [] _ 1
             (brace_free_run_inside inner 1 ltac:(lia) Hinner)).
  cbn [append splitFields_loop]. change (Ascii.eqb "}" "{") with false.
  change (Ascii.eqb "}" "}") with true. change (Ascii.eqb "}" ";") with false.
  cbn [andb]. change (to_int (1 - 1)) with 0.
  rewrite (splitFields_loop_run behind _ [] _ 0 (plain_run_at_level_0 _ Hbehind)).
  cbn [append splitFields_loop]. change (Ascii.eqb ";" "{") with false.
  change (Ascii.eqb ";" "}") with false. change (Ascii.eqb ";" ";") with true.
  cbn [Z.eqb andb].
  unfold push_back. rewrite !append_assoc. cbn [append].
  set (field := before ++ _).
  assert (Hnonempty : empty field = false).
  { subst field. destruct before; reflexivity. }
  rewrite Hnonempty. cbn [negb].
  rewrite splitFields_loop_fields. reflexivity.
Qed.

Lemma braces_protect_semicolons_witness :
  splitFields (" struct " ++ "{" ++ " int x; int y; " ++ "}" ++ " p"
               ++ String ";" " uint8_t q;")
  = (trim (" struct " ++ "{" ++ " int x; int y; " ++ "}" ++ " p")
     :: splitFields " uint8_t q;").
Proof.
  apply (braces_protect_semicolons " struct " " int x; int y; " " p" " uint8_t q;");
    reflexivity.
Defined.

(** A closing brace without an opening one takes the brace level below 0,
    and from there on no semicolon splits: all the text up to the next brace
    is one field. *)
Theorem stray_closing_brace_stops_the_splitting :
  forall before after : string,
    forall_chars not_brace_or_semicolon before = true ->
    forall_chars not_brace after = true ->
    splitFields (before ++ "}" ++ after) = [trim (before ++ "}" ++ after)].
Proof.
  intros before after Hbefore Hafter. unfold splitFields.
  rewrite (splitFields_loop_run before _ [] "" 0 (plain_run_at_level_0 _ Hbefore)).
  cbn [append splitFields_loop]. change (Ascii.eqb "}" "{") with false.
  change (Ascii.eqb "}" "}") with true. change (Ascii.eqb "}" ";") with false.
  cbn [andb]. change (to_int (0 - 1)) with (-1).
  rewrite <- (append_empty_r after) at 1.
  rewrite (splitFields_loop_run after _ [] _ (-1)
             (brace_free_run_inside after (-1) ltac:(lia) Hafter)).
  cbn [splitFields_loop].
  unfold push_back. rewrite !append_assoc. cbn [append].
  set (field := before ++ _).
  assert (Hnonempty : empty field = false).
  { subst field. destruct before; reflexivity. }
  rewrite Hnonempty. reflexivity.
Qed.

Lemma stray_closing_brace_stops_the_splitting_witness :
  splitFields (" uint8_t a" ++ "}" ++ " uint8_t b; uint8_t c;")
  = [trim (" uint8_t a" ++ "}" ++ " uint8_t b; uint8_t c;")].
Proof.
  apply (stray_closing_brace_stops_the_splitting
           " uint8_t a" " uint8_t b; uint8_t c;"); reflexivity.
Defined.

(** ** The classification of a declaration *)

(** A declaration of the form [TYPE : WIDTH], blank before the colon, is
    classified by the pattern of the named bit-fields: its name is empty and
    it is not flagged anonymous. *)
Theorem spaced_anonymous_bitfield_is_classified_as_named :
  forall ty w : string,
    forall_chars isword ty = true -> empty ty = false ->
    forall_chars isdigit w = true -> empty w = false ->
    classifyField (ty ++ " : " ++ w) =
      (width <- stoi w ;; Ok (Some (mkFieldInfo ty "" width 0 0 0 true false))).
Proof.
  exact classifyField_spaced_anonymous.
Qed.

Lemma spaced_anonymous_bitfield_is_classified_as_named_witness :
  classifyField "uint32_t : 12"
    = Ok (Some (mkFieldInfo "uint32_t" "" 12 0 0 0 true false)).
Proof.
  apply (spaced_anonymous_bitfield_is_classified_as_named "uint32_t" "12");
    reflexivity.
Defined.

(** A declaration [TYPE NAME] followed by anything that starts with a
    character other than a word character, white space or a colon, and
    holds no colon (an array suffix, say), is a plain field [NAME] of type
    [TYPE]: what follows the name is ignored. *)
Theorem trailing_tokens_are_ignored :
  forall (ty nm rest : string) (c0 : ascii),
    forall_chars isword ty = true -> empty ty = false ->
    forall_chars isword nm = true -> empty nm = false ->
    isword c0 = false -> isspace c0 = false ->
    forall_chars (fun c => isdot c && negb (Ascii.eqb c ":")) (String c0 rest) = true ->
    classifyField (ty ++ " " ++ nm ++ String c0 rest)
    = Ok (Some (mkFieldInfo ty nm 0 0 0 0 false false)).
Proof.
  intros ty nm rest c0 Hty Hty_nonempty Hnm Hnm_nonempty Hword Hspace Hrest.
  assert (Hcolon : forall_chars (fun c => negb (Ascii.eqb c ":"))
                     (ty ++ " " ++ nm ++ String c0 rest) = true).
  { rewrite !forall_chars_append.
    rewrite (forall_chars_impl _ _ ty isword_not_colon Hty).
    rewrite (forall_chars_impl _ _ nm isword_not_colon Hnm).
    change (forall_chars (fun c => negb (Ascii.eqb c ":")) " ") with true.
    cbn [andb].
    eapply forall_chars_impl; [ | exact Hrest ].
    intros c H. apply andb_prop in H as [_ H]. exact H. }
  unfold classifyField, regex_match.
  rewrite (no_match_without (fun c => negb (Ascii.eqb c ":")) bitFieldRegex);
    [ | do 4 apply Exists_cons_tl; apply Exists_cons_hd; reflexivity
      | exact Hcolon ].
  rewrite (no_match_without (fun c => negb (Ascii.eqb c ":")) anonymousBitFieldRegex);
    [ | do 2 apply Exists_cons_tl; apply Exists_cons_hd; reflexivity
      | exact Hcolon ].
  destruct (exec normalFieldRegex true _ []) as [m | ] eqn:Hnormal.
  { exfalso.
    apply (match_stays_within word_or_space) in Hnormal.
    - rewrite !forall_chars_append in Hnormal.
      do 3 (apply andb_prop in Hnormal as [_ Hnormal]).
      cbn [forall_chars] in Hnormal. apply andb_prop in Hnormal as [Hc0 _].
      unfold word_or_space in Hc0. rewrite Hword, Hspace in Hc0. discriminate.
    - repeat constructor; intros c Hc; unfold word_or_space; rewrite Hc;
        auto using orb_true_r. }
  assert (Hmatch : exec normalFieldWithMultipleSpaces true
                     (ty ++ " " ++ nm ++ String c0 rest) [] = Some [ty; nm]).
  { destruct nm as [ | n0 nm']; [ discriminate | ].
    assert (Hn0 : isspace n0 = false).
    { apply isword_not_space. cbn in Hnm. apply andb_prop in Hnm as [H _]. exact H. }
    unfold normalFieldWithMultipleSpaces. cbn [exec atom_of captures app].
    take ty (" " ++ String n0 nm' ++ String c0 rest). rewrite Hty_nonempty.
    take " " (String n0 nm' ++ String c0 rest).
    take (String n0 nm') (String c0 rest).
    apply greedy_all; [ | reflexivity ].
    eapply forall_chars_impl; [ | exact Hrest ].
    intros c H. apply andb_prop in H as [H _]. exact H. }
  rewrite Hmatch. reflexivity.
Qed.

Lemma trailing_tokens_are_ignored_witness :
  classifyField ("uint16_t" ++ " " ++ "samples" ++ String "[" "4]")
  = Ok (Some (mkFieldInfo "uint16_t" "samples" 0 0 0 0 false false)).
Proof.
  apply (trailing_tokens_are_ignored "uint16_t" "samples" "4]" "["); reflexivity.
Defined.

(** A declaration that holds neither white space nor a colon (a single
    token) matches none of the four patterns: it is dropped, and the layout
    is the layout of the declarations around it. *)
Theorem declaration_without_space_or_colon_is_dropped :
  forall fieldLine : string,
    forall_chars no_space_no_colon fieldLine = true ->
    declaration fieldLine = Ok None
    /\ (forall (before after : list string) (st : LoopState),
           parseFields (before ++ fieldLine :: after) st
           = parseFields (before ++ after) st).
Proof.
  intros fieldLine Hline.
  assert (Hdecl : declaration fieldLine = Ok None).
  { unfold declaration. destruct (empty fieldLine); [ reflexivity | ].
    rewrite simplified_line_fixed.
    - apply classifyField_without_space_or_colon. exact Hline.
    - eapply forall_chars_impl; [ | exact Hline ].
      intros c H. unfold no_space_no_colon in H.
      apply andb_prop in H as [H _]. exact H. }
  split; [ exact Hdecl | ].
  intros before after st. rewrite !parseFields_app.
  destruct (parseFields before st) as [st1 | e]; cbn [bind parseFields];
    [ | reflexivity ].
  rewrite (parseField_skipped fieldLine st1 Hdecl). reflexivity.
Qed.

Lemma declaration_without_space_or_colon_is_dropped_witness :
  declaration "reserved" = Ok None
  /\ (forall (before after : list string) (st : LoopState),
         parseFields (before ++ "reserved" :: after) st
         = parseFields (before ++ after) st).
Proof.
  apply (declaration_without_space_or_colon_is_dropped "reserved").
  reflexivity.
Defined.

(** ** The layout *)

(** A bit-field that fits the open storage unit, measured with its own type
    ([bitCursor + width <= size * 8]), is placed at the byte cursor and the
    bit cursor without moving the byte cursor; the bit cursor advances by
    the width, and when the unit is then full to the last bit the byte
    cursor moves past it and the bit cursor returns to 0.  An anonymous
    bit-field takes its bits in the same way and is not listed. *)
Theorem fitting_bitfield_is_packed_into_the_open_unit :
  forall (structText : string) (before after : list string) (fieldLine : string)
         (st : LoopState) (field : FieldInfo) (sz : Z),
    short_text structText ->
    fieldLines structText = Some (before ++ fieldLine :: after)%list ->
    parseFields before initialState = Ok st ->
    declaration fieldLine = Ok (Some field) ->
    isBitField field = true ->
    getTypeSize (type field) = Ok sz ->
    currentBitOffset st + bitWidth field <= sz * 8 ->
    parseFields (before ++ [fieldLine]) initialState
    = Ok (mkLoopState
            (if currentBitOffset st + bitWidth field =? sz * 8
             then currentByteOffset st + sz else currentByteOffset st)
            (if currentBitOffset st + bitWidth field =? sz * 8
             then 0 else currentBitOffset st + bitWidth field)
            (if isAnonymous field then structFields st
             else (structFields st
                   ++ [set_layout field sz (currentByteOffset st)
                         (currentBitOffset st)])%list)).
Proof.
  intros structText before after fieldLine st field sz
    Hshort Hlines Hbefore Hdecl Hbf Hsz Hfits.
  destruct (state_before_declaration _ _ _ _ _ Hshort Hlines Hbefore)
    as (Hbits & Hbc & Hmax).
  pose proof (declaration_classified _ _ Hdecl) as Hcl.
  assert (Hrange : 1 <= sz <= 8) by (apply getTypeSize_sizes in Hsz; lia).
  rewrite (parseFields_snoc _ _ _ Hbefore).
  unfold parseField. rewrite Hdecl. cbn [bind].
  rewrite (placeField_bits field _ _ sz Hbf Hsz (proj1 Hbits) (cl_width _ Hcl)).
  cbv zeta.
  destruct (Z.gtb_spec (currentBitOffset st + bitWidth field) (sz * 8)); [ lia | ].
  cbn [bitWidth set_layout].
  destruct (Z.eqb_spec (currentBitOffset st + bitWidth field) (sz * 8)) as [Hfull | Hopen].
  - destruct (currentBitOffset st + bitWidth field >=? sz * 8) eqn:Hge.
    2:{ rewrite Z.geb_leb in Hge. apply Z.leb_gt in Hge. lia. }
    rewrite int_add_size_small by lia.
    cbn [bind]. unfold set_layout at 1. cbn [isAnonymous].
    destruct (isAnonymous field); reflexivity.
  - destruct (currentBitOffset st + bitWidth field >=? sz * 8) eqn:Hge.
    1:{ rewrite Z.geb_leb in Hge. apply Z.leb_le in Hge. lia. }
    cbn [bind]. unfold set_layout at 1. cbn [isAnonymous].
    destruct (isAnonymous field); reflexivity.
Qed.

(** Five bits after three in a [uint8_t] unit: same byte, bit offset 3, and
    the unit is closed. *)
Lemma fitting_bitfield_is_packed_into_the_open_unit_witness :
  parseFields (["uint8_t a:3"] ++ ["uint8_t b:5"]) initialState
  = Ok (mkLoopState
          (if 3 + 5 =? 1 * 8 then 0 + 1 else 0)
          (if 3 + 5 =? 1 * 8 then 0 else 3 + 5)
          ([mkFieldInfo "uint8_t" "a" 3 0 0 1 true false]
           ++ [mkFieldInfo "uint8_t" "b" 5 0 3 1 true false])).
Proof.
  apply (fitting_bitfield_is_packed_into_the_open_unit
           "struct S { uint8_t a:3; uint8_t b:5; };"
           ["uint8_t a:3"] [""] "uint8_t b:5"
           (mkLoopState 0 3 [mkFieldInfo "uint8_t" "a" 3 0 0 1 true false])
           (mkFieldInfo "uint8_t" "b" 5 0 0 0 true false) 1).
  - unfold short_text. cbn. lia.
  - vm_compute. reflexivity.
  - vm_compute. reflexivity.
  - vm_compute. reflexivity.
  - reflexivity.
  - reflexivity.
  - cbn. lia.
Defined.

(** When a bit-field does not fit the open storage unit, measured with its
    own type ([bitCursor + width > size * 8], [size] the storage size of the
    new field), the byte cursor advances by the storage size of the new
    field itself, whatever the size of the unit that is open, and the field
    is placed there with bit offset 0; the bit cursor becomes the width, or
    the byte cursor advances once more and the bit cursor returns to 0 when
    the width alone fills the new unit.  An anonymous bit-field moves the
    cursors in the same way and is not listed. *)
Theorem overflowing_bitfield_advances_by_its_own_size :
  forall (structText : string) (before after : list string) (fieldLine : string)
         (st : LoopState) (field : FieldInfo) (sz : Z),
    short_text structText ->
    fieldLines structText = Some (before ++ fieldLine :: after)%list ->
    parseFields before initialState = Ok st ->
    declaration fieldLine = Ok (Some field) ->
    isBitField field = true ->
    getTypeSize (type field) = Ok sz ->
    currentBitOffset st + bitWidth field > sz * 8 ->
    parseFields (before ++ [fieldLine]) initialState
    = Ok (mkLoopState
            (if bitWidth field >=? sz * 8
             then currentByteOffset st + sz + sz else currentByteOffset st + sz)
            (if bitWidth field >=? sz * 8 then 0 else bitWidth field)
            (if isAnonymous field then structFields st
             else (structFields st
                   ++ [set_layout field sz (currentByteOffset st + sz) 0])%list)).
Proof.
  intros structText before after fieldLine st field sz
    Hshort Hlines Hbefore Hdecl Hbf Hsz Hover.
  destruct (state_before_declaration _ _ _ _ _ Hshort Hlines Hbefore)
    as (Hbits & Hbc & Hmax).
  pose proof (declaration_classified _ _ Hdecl) as Hcl.
  assert (Hrange : 1 <= sz <= 8) by (apply getTypeSize_sizes in Hsz; lia).
  rewrite (parseFields_snoc _ _ _ Hbefore).
  unfold parseField. rewrite Hdecl. cbn [bind].
  rewrite (placeField_bits field _ _ sz Hbf Hsz (proj1 Hbits) (cl_width _ Hcl)).
  cbv zeta.
  destruct (Z.gtb_spec (currentBitOffset st + bitWidth field) (sz * 8)); [ | lia ].
  cbn [bitWidth set_layout]. rewrite Z.add_0_l.
  rewrite (int_add_size_small (currentByteOffset st) sz) by lia.
  destruct (bitWidth field >=? sz * 8) eqn:Hfull.
  - rewrite int_add_size_small by lia.
    cbn [bind]. unfold set_layout at 1. cbn [isAnonymous].
    destruct (isAnonymous field); reflexivity.
  - cbn [bind]. unfold set_layout at 1. cbn [isAnonymous].
    destruct (isAnonymous field); reflexivity.
Qed.

(** Four bits of a [uint8_t] after twenty bits of a [uint32_t]: the byte
    cursor moves by one byte. *)
Lemma overflowing_bitfield_advances_by_its_own_size_witness :
  parseFields (["uint32_t a:20"] ++ ["uint8_t b:4"]) initialState
  = Ok (mkLoopState
          (if 4 >=? 1 * 8 then 0 + 1 + 1 else 0 + 1)
          (if 4 >=? 1 * 8 then 0 else 4)
          ([mkFieldInfo "uint32_t" "a" 20 0 0 4 true false]
           ++ [mkFieldInfo "uint8_t" "b" 4 1 0 1 true false])).
Proof.
  apply (overflowing_bitfield_advances_by_its_own_size
           "struct S { uint32_t a:20; uint8_t b:4; };"
           ["uint32_t a:20"] [""] "uint8_t b:4"
           (mkLoopState 0 20 [mkFieldInfo "uint32_t" "a" 20 0 0 4 true false])
           (mkFieldInfo "uint8_t" "b" 4 0 0 0 true false) 1).
  - unfold short_text. cbn. lia.
  - vm_compute. reflexivity.
  - vm_compute. reflexivity.
  - vm_compute. reflexivity.
  - reflexivity.
  - reflexivity.
  - cbn. lia.
Defined.

(** A plain field is placed at the byte cursor with bit offset 0 and moves
    the byte cursor by its size, whatever the bit cursor is: a storage unit
    that bit-fields have left open is not closed first, so the plain field
    starts on the first byte of that unit, and the bit cursor is reset. *)
Theorem plain_field_is_placed_at_the_byte_cursor :
  forall (structText : string) (before after : list string) (fieldLine : string)
         (st : LoopState) (field : FieldInfo) (sz : Z),
    short_text structText ->
    fieldLines structText = Some (before ++ fieldLine :: after)%list ->
    parseFields before initialState = Ok st ->
    declaration fieldLine = Ok (Some field) ->
    isBitField field = false ->
    getTypeSize (type field) = Ok sz ->
    parseFields (before ++ [fieldLine]) initialState
    = Ok (mkLoopState (currentByteOffset st + sz) 0
            (structFields st ++ [set_layout field sz (currentByteOffset st) 0])).
Proof.
  intros structText before after fieldLine st field sz
    Hshort Hlines Hbefore Hdecl Hplain Hsz.
  destruct (state_before_declaration _ _ _ _ _ Hshort Hlines Hbefore)
    as (Hbits & Hbc & Hmax).
  pose proof (declaration_classified _ _ Hdecl) as Hcl.
  assert (Hrange : 1 <= sz <= 8) by (apply getTypeSize_sizes in Hsz; lia).
  rewrite (parseFields_snoc _ _ _ Hbefore).
  unfold parseField. rewrite Hdecl. cbn [bind].
  rewrite (placeField_plain field _ _ Hplain), Hsz. cbn [bind].
  rewrite int_add_size_small by lia.
  cbn [isAnonymous set_layout].
  rewrite (plain_never_anonymous _ Hcl Hplain). reflexivity.
Qed.

(** [uint8_t b] after the three bits of [a]: [b] is placed on byte 0, the
    byte of [a]. *)
Lemma plain_field_is_placed_at_the_byte_cursor_witness :
  parseFields (["uint8_t a:3"] ++ ["uint8_t b"]) initialState
  = Ok (mkLoopState (0 + 1) 0
          ([mkFieldInfo "uint8_t" "a" 3 0 0 1 true false]
           ++ [mkFieldInfo "uint8_t" "b" 0 0 0 1 false false])).
Proof.
  apply (plain_field_is_placed_at_the_byte_cursor
           "struct S { uint8_t a:3; uint8_t b; };"
           ["uint8_t a:3"] [""] "uint8_t b"
           (mkLoopState 0 3 [mkFieldInfo "uint8_t" "a" 3 0 0 1 true false])
           (mkFieldInfo "uint8_t" "b" 0 0 0 0 false false) 1).
  - unfold short_text. cbn. lia.
  - vm_compute. reflexivity.
  - vm_compute. reflexivity.
  - vm_compute. reflexivity.
  - reflexivity.
  - reflexivity.
Defined.

(** In the layout of a text that parses, no field declared after a plain
    field starts before the end of it, and every plain field lies inside
    the [totalSize] bytes of the struct. *)
Theorem plain_fields_are_clear_of_later_fields :
  forall (structText : string) (structInfo : StructInfo),
    short_text structText ->
    parseStruct structText = Ok structInfo ->
    ForallOrdPairs clear_of (fields structInfo) /\
    Forall (fun f => isBitField f = false ->
                     0 <= byteOffset f /\
                     byteOffset f + size f <= totalSize structInfo)
           (fields structInfo).
Proof.
  intros structText structInfo Hshort Hparse.
  destruct (parseStruct_layout _ _ Hshort Hparse)
    as (lines & st & _ & Hloop & _ & _ & Hmax & _ & Hfields & Htotal).
  assert (Hmax0 : 16 * (0 + Z.of_nat (List.length lines)) <= INT_MAX) by lia.
  destruct (parseFields_plain_inv lines 0 _ _ bits_inv_initial bytes_inv_initial
              plain_inv_initial (Z.le_refl 0) Hmax0 Hloop) as [Hends Hclear].
  rewrite Hfields, Htotal. split; [ exact Hclear | ].
  eapply Forall_impl; [ | exact Hends ].
  cbn. intros f Hf Hp. specialize (Hf Hp).
  destruct (currentBitOffset st >? 0); lia.
Qed.

Lemma plain_fields_are_clear_of_later_fields_witness :
  ForallOrdPairs clear_of
    [mkFieldInfo "uint16_t" "len" 0 0 0 2 false false;
     mkFieldInfo "uint8_t" "a" 3 2 0 1 true false;
     mkFieldInfo "uint32_t" "crc" 0 2 0 4 false false] /\
  Forall (fun f => isBitField f = false ->
                   0 <= byteOffset f /\ byteOffset f + size f <= 6)
    [mkFieldInfo "uint16_t" "len" 0 0 0 2 false false;
     mkFieldInfo "uint8_t" "a" 3 2 0 1 true false;
     mkFieldInfo "uint32_t" "crc" 0 2 0 4 false false].
Proof.
  apply (plain_fields_are_clear_of_later_fields
           "struct S { uint16_t len; uint8_t a:3; uint32_t crc; };"
           (mkStructInfo "S"
              [mkFieldInfo "uint16_t" "len" 0 0 0 2 false false;
               mkFieldInfo "uint8_t" "a" 3 2 0 1 true false;
               mkFieldInfo "uint32_t" "crc" 0 2 0 4 false false] 6)).
  - unfold short_text. cbn. lia.
  - vm_compute. reflexivity.
Defined.

(** Whatever the text, a field of the layout is not flagged anonymous, its
    type is in the registry and its storage size is the size of that type. *)
Theorem listed_fields_are_known_and_not_anonymous :
  forall (structText : string) (structInfo : StructInfo),
    parseStruct structText = Ok structInfo ->
    Forall (fun f => isAnonymous f = false
                     /\ find_type (type f) typeSizes = Some (size f))
           (fields structInfo).
Proof.
  intros structText structInfo Hparse.
  eapply Forall_impl; [ | exact (parseStruct_fields_wf _ _ Hparse) ].
  intros f Hwf. split; [ exact (wf_named f Hwf) | ].
  apply getTypeSize_Ok. exact (wf_size f Hwf).
Qed.

Lemma listed_fields_are_known_and_not_anonymous_witness :
  Forall (fun f => isAnonymous f = false
                   /\ find_type (type f) typeSizes = Some (size f))
         [mkFieldInfo "uint8_t" "a" 5 0 3 1 true false].
Proof.
  apply (listed_fields_are_known_and_not_anonymous
           "struct S { uint8_t: 3; uint8_t a : 5; };"
           (mkStructInfo "S" [mkFieldInfo "uint8_t" "a" 5 0 3 1 true false] 1)).
  vm_compute. reflexivity.
Defined.

(** The names of a layout are made of word characters: the struct name
    (empty when the text has no [struct NAME] header before a brace) and the
    name of every field; the name of a plain field is never empty, that of
    a bit-field can be. *)
Theorem layout_names_are_words :
  forall (structText : string) (structInfo : StructInfo),
    parseStruct structText = Ok structInfo ->
    forall_chars isword (structName structInfo) = true /\
    Forall word_name (fields structInfo).
Proof.
  intros structText structInfo Hparse.
  rewrite parseStruct_unfold in Hparse.
  destruct (fieldLines structText) as [lines | ]; [ | discriminate ].
  destruct (parseFields lines initialState) as [st | e] eqn:Hloop;
    cbn [bind] in Hparse; [ | discriminate ].
  destruct (finalSize st); cbn [bind] in Hparse; [ | discriminate ].
  injection Hparse as <-. cbn [structName fields].
  split; [ apply structNameOf_word | ].
  eapply parseFields_word_names; [ | exact Hloop ]. constructor.
Qed.

Lemma layout_names_are_words_witness :
  forall_chars isword "S" = true /\
  Forall word_name
    [mkFieldInfo "uint8_t" "" 3 0 0 1 true false;
     mkFieldInfo "uint8_t" "a" 5 0 3 1 true false].
Proof.
  apply (layout_names_are_words
           "struct S { uint8_t : 3; uint8_t a : 5; };"
           (mkStructInfo "S"
              [mkFieldInfo "uint8_t" "" 3 0 0 1 true false;
               mkFieldInfo "uint8_t" "a" 5 0 3 1 true false] 1)).
  vm_compute. reflexivity.
Defined.

(** ** struct_write and struct_read *)

(** A plain field gives back what was written to it, cut to the size of its
    type, when it is read into a type of that size. *)
Theorem plain_field_write_then_read :
  forall (structText fieldName : string) (x : Z) (buffer : list ascii)
         (structInfo : StructInfo) (field : FieldInfo),
    parseStruct structText = Ok structInfo ->
    find_field fieldName (fields structInfo) = Some field ->
    isBitField field = false ->
    in_buffer buffer (byteOffset field) (size field) = true ->
    exists buffer',
      struct_write structText fieldName x buffer = Ok buffer' /\
      struct_read (size field) structText fieldName buffer'
        = Ok (x mod 2 ^ (8 * size field)).
Proof.
  intros structText fieldName x buffer structInfo field Hparse Hfind Hplain Hin.
  pose proof (found_field_wf _ _ _ _ Hparse Hfind) as Hwf.
  pose proof (getTypeSize_sizes _ _ (wf_size _ Hwf)) as Hsz.
  unfold struct_write, struct_read. rewrite Hparse. cbn [bind].
  rewrite Hfind, Hplain. cbn [negb].
  destruct (memcpy_to buffer (byteOffset field) (size field) (to_size_t x))
    as [buffer' | e] eqn:Hcopy.
  2:{ unfold memcpy_to in Hcopy. rewrite Hin in Hcopy. discriminate. }
  destruct (memcpy_to_props _ _ _ _ _ Hcopy) as (_ & Hlen & Hunit & _).
  exists buffer'. split; [ reflexivity | ].
  rewrite Z.eqb_refl.
  rewrite memcpy_from_unit
    by (rewrite (in_buffer_same_length _ _ _ _ Hlen); exact Hin).
  rewrite Hunit, load_store, Z2Nat.id by lia.
  f_equal. unfold to_size_t.
  destruct Hsz as [-> | [-> | [-> | ->]]]; Z.bitblast.
Qed.

Lemma plain_field_write_then_read_witness :
  exists buffer',
    struct_write "struct S { uint8_t tag; uint16_t len; };" "len" 4660
      [zero_byte; zero_byte; zero_byte] = Ok buffer' /\
    struct_read 2 "struct S { uint8_t tag; uint16_t len; };" "len" buffer'
      = Ok (4660 mod 2 ^ (8 * 2)).
Proof.
  apply (plain_field_write_then_read
           "struct S { uint8_t tag; uint16_t len; };" "len" 4660
           [zero_byte; zero_byte; zero_byte]
           (mkStructInfo "S"
              [mkFieldInfo "uint8_t" "tag" 0 0 0 1 false false;
               mkFieldInfo "uint16_t" "len" 0 1 0 2 false false] 3)
           (mkFieldInfo "uint16_t" "len" 0 1 0 2 false false)).
  - vm_compute. reflexivity.
  - reflexivity.
  - reflexivity.
  - reflexivity.
Defined.

(** What [struct_read] gives for a bit-field is the number the bits
    [[bitOffset, bitOffset + bitWidth)] of the storage unit spell, so it is
    below [2 ^ bitWidth] whatever the buffer holds. *)
Theorem bitfield_read_is_the_bits_of_the_unit :
  forall (sizeofT : Z) (structText fieldName : string) (buffer : list ascii)
         (structInfo : StructInfo) (field : FieldInfo),
    parseStruct structText = Ok structInfo ->
    find_field fieldName (fields structInfo) = Some field ->
    isBitField field = true ->
    bitWidth field < 64 ->
    bitWidth field <= 8 * sizeofT ->
    in_buffer buffer (byteOffset field) (size field) = true ->
    exists v,
      struct_read sizeofT structText fieldName buffer = Ok v /\
      v = (load (storage_unit buffer (byteOffset field) (size field))
           / 2 ^ bitOffset field) mod 2 ^ bitWidth field /\
      0 <= v < 2 ^ bitWidth field.
Proof.
  intros sizeofT structText fieldName buffer structInfo field
    Hparse Hfind Hbf Hwidth HT Hin.
  pose proof (found_field_wf _ _ _ _ Hparse Hfind) as Hwf.
  pose proof (wf_width _ Hwf) as Hw. pose proof (wf_bitOffset _ Hwf) as Hbo.
  rewrite (struct_read_bitfield _ _ _ buffer _ _ Hparse Hfind Hbf)
    by (try assumption; lia).
  rewrite (memcpy_from_unit _ _ _ Hin). cbn [bind].
  set (cur := load _).
  assert (Hpos : 0 < 2 ^ bitWidth field) by (apply Z.pow_pos_nonneg; lia).
  assert (Hbits : Z.land (Z.shiftr cur (bitOffset field)) (Z.ones (bitWidth field))
                  = (cur / 2 ^ bitOffset field) mod 2 ^ bitWidth field).
  { rewrite Z.land_ones by lia. rewrite Z.shiftr_div_pow2 by lia. reflexivity. }
  pose proof (Z.mod_pos_bound (cur / 2 ^ bitOffset field) _ Hpos) as Hrange.
  eexists. split; [ reflexivity | ].
  rewrite Hbits.
  assert (2 ^ bitWidth field <= 2 ^ (8 * sizeofT))
    by (apply Z.pow_le_mono_r; lia).
  rewrite (Z.mod_small _ (2 ^ (8 * sizeofT))) by lia.
  split; [ reflexivity | exact Hrange ].
Qed.

Lemma bitfield_read_is_the_bits_of_the_unit_witness :
  exists v,
    struct_read 1 "struct S { uint8_t a:3; uint8_t b:5; };" "b" [full_byte] = Ok v /\
    v = (load (storage_unit [full_byte] 0 1) / 2 ^ 3) mod 2 ^ 5 /\
    0 <= v < 2 ^ 5.
Proof.
  apply (bitfield_read_is_the_bits_of_the_unit 1
           "struct S { uint8_t a:3; uint8_t b:5; };" "b" [full_byte]
           (mkStructInfo "S"
              [mkFieldInfo "uint8_t" "a" 3 0 0 1 true false;
               mkFieldInfo "uint8_t" "b" 5 0 3 1 true false] 1)
           (mkFieldInfo "uint8_t" "b" 5 0 3 1 true false)).
  - vm_compute. reflexivity.
  - reflexivity.
  - reflexivity.
  - cbn. lia.
  - cbn. lia.
  - reflexivity.
Defined.

(** Writing a field does not change what any field separate from it reads
    as: a field in other bytes, or another bit-field of the same storage
    unit in other bits. *)
Theorem write_leaves_separate_fields_unchanged :
  forall (sizeofT : Z) (structText written other : string) (x : Z)
         (buffer : list ascii) (structInfo : StructInfo) (f g : FieldInfo),
    parseStruct structText = Ok structInfo ->
    find_field written (fields structInfo) = Some f ->
    find_field other (fields structInfo) = Some g ->
    in_buffer buffer (byteOffset f) (size f) = true ->
    (isBitField f = true -> bitWidth f < 64) ->
    separate f g ->
    exists buffer',
      struct_write structText written x buffer = Ok buffer' /\
      struct_read sizeofT structText other buffer'
      = struct_read sizeofT structText other buffer.
Proof.
  intros sizeofT structText written other x buffer structInfo f g
    Hparse Hf Hg Hin Hwidth Hsep.
  pose proof (found_field_wf _ _ _ _ Hparse Hf) as Hwf.
  pose proof (found_field_wf _ _ _ _ Hparse Hg) as Hwg.
  pose proof (getTypeSize_sizes _ _ (wf_size _ Hwf)) as Hszf.
  pose proof (getTypeSize_sizes _ _ (wf_size _ Hwg)) as Hszg.
  destruct (struct_write_defined _ _ x _ _ _ Hparse Hf Hin Hwidth)
    as (buffer' & Hwrite & Hcopy).
  exists buffer'. split; [ exact Hwrite | ].
  destruct (memcpy_to_props _ _ _ _ _ Hcopy) as (_ & Hlen & Hunit & Hout).
  assert (Hbytes : byteOffset g + size g <= byteOffset f
                   \/ byteOffset f + size f <= byteOffset g ->
                   memcpy_from buffer' (byteOffset g) (size g)
                   = memcpy_from buffer (byteOffset g) (size g)).
  { intros Hdisjoint. unfold memcpy_from.
    rewrite (in_buffer_same_length _ _ _ _ Hlen).
    destruct (in_buffer buffer (byteOffset g) (size g)) eqn:Hing; [ | reflexivity ].
    apply in_buffer_spec in Hing as (Hoff & Hsz & _).
    f_equal. f_equal.
    apply (storage_unit_ext buffer buffer'); [ exact Hoff | exact Hsz | ].
    intros i Hi. apply Hout. lia. }
  assert (Hread : memcpy_from buffer' (byteOffset g) (size g)
                  = memcpy_from buffer (byteOffset g) (size g) ->
                  struct_read sizeofT structText other buffer'
                  = struct_read sizeofT structText other buffer).
  { intros Hsame. unfold struct_read. rewrite Hparse. cbn [bind].
    rewrite Hg, Hsame. reflexivity. }
  destruct Hsep as [Hsep | [Hsep | (Hbf & Hbg & Hoff & Hsize & Hbits)]];
    [ apply Hread, Hbytes; left; exact Hsep
    | apply Hread, Hbytes; right; exact Hsep | ].
  specialize (Hwidth Hbf). rewrite Hbf in Hunit.
  pose proof (wf_width _ Hwf) as Hw. pose proof (wf_bitOffset _ Hwf) as Hbo.
  pose proof (wf_width _ Hwg) as Hw'. pose proof (wf_bitOffset _ Hwg) as Hbo'.
  destruct (Z.ltb_spec (bitWidth g) 64) as [Hwidth' | Hwide].
  - rewrite !(struct_read_bitfield _ _ _ _ _ _ Hparse Hg Hbg)
      by (try assumption; lia).
    rewrite <- Hoff, <- Hsize.
    rewrite !memcpy_from_unit
      by (rewrite ?(in_buffer_same_length _ _ _ _ Hlen); exact Hin).
    cbn [bind]. rewrite Hunit, load_store, Z2Nat.id by lia.
    rewrite (write_value_other _ x _ _ _ _ (size f)) by lia.
    destruct (load_unit_range buffer (byteOffset f) (size f) Hin ltac:(lia))
      as [Hcur _].
    rewrite (Z.mod_small (load _)) by (rewrite Z.mul_comm in Hcur |- *; lia).
    reflexivity.
  - unfold struct_read. rewrite Hparse. cbn [bind]. rewrite Hg, Hbg. cbn [negb].
    assert (Hshift : shl64 1 (bitWidth g) = Err Undefined).
    { unfold shl64. destruct (Z.ltb_spec (bitWidth g) 64); [ lia | ].
      rewrite andb_false_r. reflexivity. }
    rewrite Hshift.
    destruct (memcpy_from buffer' _ _) as [c1 | e1] eqn:H1;
      destruct (memcpy_from buffer _ _) as [c2 | e2] eqn:H2; cbn [bind];
      try reflexivity.
    + apply memcpy_from_failure in H2. subst. reflexivity.
    + apply memcpy_from_failure in H1. subst. reflexivity.
    + apply memcpy_from_failure in H1. apply memcpy_from_failure in H2.
      subst. reflexivity.
Qed.

(** Writing the 3-bit field [a] leaves the 5-bit field [b] of the same byte
    as it was. *)
Lemma write_leaves_separate_fields_unchanged_witness :
  exists buffer',
    struct_write "struct S { uint8_t a:3; uint8_t b:5; };" "a" 0 [full_byte]
      = Ok buffer' /\
    struct_read 1 "struct S { uint8_t a:3; uint8_t b:5; };" "b" buffer'
    = struct_read 1 "struct S { uint8_t a:3; uint8_t b:5; };" "b" [full_byte].
Proof.
  apply (write_leaves_separate_fields_unchanged 1
           "struct S { uint8_t a:3; uint8_t b:5; };" "a" "b" 0 [full_byte]
           (mkStructInfo "S"
              [mkFieldInfo "uint8_t" "a" 3 0 0 1 true false;
               mkFieldInfo "uint8_t" "b" 5 0 3 1 true false] 1)
           (mkFieldInfo "uint8_t" "a" 3 0 0 1 true false)
           (mkFieldInfo "uint8_t" "b" 5 0 3 1 true false)).
  - vm_compute. reflexivity.
  - reflexivity.
  - reflexivity.
  - reflexivity.
  - intros _. cbn. lia.
  - right. right. cbn. repeat split; try reflexivity. right. lia.
Defined.

(** Writing back to a field the value just read from it leaves the buffer
    as it is. *)
Theorem writing_back_what_was_read_changes_nothing :
  forall (sizeofT : Z) (structText fieldName : string) (buffer : list ascii)
         (structInfo : StructInfo) (field : FieldInfo) (v : Z),
    parseStruct structText = Ok structInfo ->
    find_field fieldName (fields structInfo) = Some field ->
    (isBitField field = true -> bitWidth field <= 8 * sizeofT) ->
    struct_read sizeofT structText fieldName buffer = Ok v ->
    struct_write structText fieldName v buffer = Ok buffer.
Proof.
  intros sizeofT structText fieldName buffer structInfo field v
    Hparse Hfind HT Hread.
  pose proof (found_field_wf _ _ _ _ Hparse Hfind) as Hwf.
  pose proof (getTypeSize_sizes _ _ (wf_size _ Hwf)) as Hsz.
  pose proof (wf_width _ Hwf) as Hw. pose proof (wf_bitOffset _ Hwf) as Hbo.
  destruct (isBitField field) eqn:Hbf.
  - specialize (HT eq_refl).
    assert (Hwidth : bitWidth field < 64).
    { destruct (Z.ltb_spec (bitWidth field) 64) as [ | Hwide]; [ assumption | ].
      exfalso. unfold struct_read in Hread. rewrite Hparse in Hread.
      cbn [bind] in Hread. rewrite Hfind, Hbf in Hread. cbn [negb] in Hread.
      destruct (memcpy_from _ _ _); cbn [bind] in Hread; [ | discriminate ].
      unfold shl64 in Hread.
      destruct (Z.ltb_spec (bitWidth field) 64); [ lia | ].
      rewrite andb_false_r in Hread. discriminate. }
    rewrite (struct_read_bitfield _ _ _ buffer _ _ Hparse Hfind Hbf) in Hread
      by (try assumption; lia).
    destruct (memcpy_from buffer _ _) as [cur | e] eqn:Hfrom;
      cbn [bind] in Hread; [ | discriminate ].
    apply memcpy_from_defined in Hfrom as [Hin ->].
    assert (Hv : Z.land (Z.shiftr (load (storage_unit buffer (byteOffset field)
                                          (size field))) (bitOffset field))
                   (Z.ones (bitWidth field)) mod 2 ^ (8 * sizeofT) = v)
      by congruence.
    clear Hread. subst v.
    rewrite (struct_write_bitfield _ _ _ buffer _ _ Hparse Hfind Hbf)
      by (try assumption; lia).
    rewrite (memcpy_from_unit _ _ _ Hin). cbn [bind].
    destruct (load_unit_range buffer (byteOffset field) (size field) Hin ltac:(lia))
      as [_ Hcur].
    set (cur := load _) in *.
    assert (Hsame : Z.land (Z.shiftr cur (bitOffset field)) (Z.ones (bitWidth field))
                      mod 2 ^ (8 * sizeofT)
                    = Z.land (Z.shiftr cur (bitOffset field)) (Z.ones (bitWidth field))).
    { apply Z.mod_small. rewrite Z.land_ones by lia.
      pose proof (Z.mod_pos_bound (Z.shiftr cur (bitOffset field))
                    (2 ^ bitWidth field) ltac:(apply Z.pow_pos_nonneg; lia)).
      assert (2 ^ bitWidth field <= 2 ^ (8 * sizeofT))
        by (apply Z.pow_le_mono_r; lia).
      lia. }
    rewrite Hsame, write_value_same by lia.
    apply memcpy_to_same. exact Hin.
  - rewrite (struct_read_plain _ _ _ buffer _ _ Hparse Hfind Hbf) in Hread.
    destruct (size field =? sizeofT); [ | discriminate ].
    apply memcpy_from_defined in Hread as [Hin ->].
    rewrite (struct_write_plain _ _ _ buffer _ _ Hparse Hfind Hbf).
    destruct (load_unit_range buffer (byteOffset field) (size field) Hin ltac:(lia))
      as [_ Hcur].
    rewrite to_size_t_small by exact Hcur.
    apply memcpy_to_same. exact Hin.
Qed.

Lemma writing_back_what_was_read_changes_nothing_witness :
  struct_write "struct S { uint8_t a:3; uint8_t b:5; uint16_t c; };" "b" 31
    [full_byte; zero_byte; full_byte]
  = Ok [full_byte; zero_byte; full_byte].
Proof.
  apply (writing_back_what_was_read_changes_nothing 1
           "struct S { uint8_t a:3; uint8_t b:5; uint16_t c; };" "b"
           [full_byte; zero_byte; full_byte]
           (mkStructInfo "S"
              [mkFieldInfo "uint8_t" "a" 3 0 0 1 true false;
               mkFieldInfo "uint8_t" "b" 5 0 3 1 true false;
               mkFieldInfo "uint16_t" "c" 0 1 0 2 false false] 3)
           (mkFieldInfo "uint8_t" "b" 5 0 3 1 true false) 31).
  - vm_compute. reflexivity.
  - reflexivity.
  - intros _. cbn. lia.
  - vm_compute. reflexivity.
Defined.

(** [struct_write] and [struct_read] throw "Field not found" exactly when
    the text parses and no field of its layout has the name asked for; the
    name in the message is that name. *)
Theorem field_not_found_exactly_when_not_listed :
  forall (sizeofT : Z) (structText fieldName n : string) (x : Z)
         (buffer : list ascii),
    (struct_write structText fieldName x buffer = Err (FieldNotFound n) <->
     n = fieldName /\
     exists structInfo,
       parseStruct structText = Ok structInfo /\
       Forall (fun f => name f <> fieldName) (fields structInfo))
    /\ (struct_read sizeofT structText fieldName buffer = Err (FieldNotFound n) <->
        n = fieldName /\
        exists structInfo,
          parseStruct structText = Ok structInfo /\
          Forall (fun f => name f <> fieldName) (fields structInfo)).
Proof.
  intros sizeofT structText fieldName n x buffer.
  assert (Hmissing : forall structInfo,
             find_field fieldName (fields structInfo) = None <->
             Forall (fun f => name f <> fieldName) (fields structInfo))
    by (intros structInfo; apply find_field_none).
  split; split.
  - intros Herr.
    destruct (parseStruct structText) as [structInfo | e] eqn:Hparse.
    + destruct (find_field fieldName (fields structInfo)) as [field | ] eqn:Hfind.
      * apply (struct_write_found _ _ _ _ _ _ _ Hparse Hfind) in Herr.
        discriminate Herr.
      * unfold struct_write in Herr. rewrite Hparse in Herr. cbn [bind] in Herr.
        rewrite Hfind in Herr.
        split; [ congruence | ]. exists structInfo.
        split; [ reflexivity | apply Hmissing; exact Hfind ].
    + unfold struct_write in Herr. rewrite Hparse in Herr. cbn [bind] in Herr.
      exfalso. apply (parseStruct_not_FieldNotFound structText n). congruence.
  - intros (-> & structInfo & Hparse & Hnone). apply Hmissing in Hnone.
    unfold struct_write. rewrite Hparse. cbn [bind]. rewrite Hnone. reflexivity.
  - intros Herr.
    destruct (parseStruct structText) as [structInfo | e] eqn:Hparse.
    + destruct (find_field fieldName (fields structInfo)) as [field | ] eqn:Hfind.
      * apply (struct_read_found _ _ _ _ _ _ _ Hparse Hfind) in Herr.
        discriminate Herr.
      * unfold struct_read in Herr. rewrite Hparse in Herr. cbn [bind] in Herr.
        rewrite Hfind in Herr.
        split; [ congruence | ]. exists structInfo.
        split; [ reflexivity | apply Hmissing; exact Hfind ].
    + unfold struct_read in Herr. rewrite Hparse in Herr. cbn [bind] in Herr.
      exfalso. apply (parseStruct_not_FieldNotFound structText n). congruence.
  - intros (-> & structInfo & Hparse & Hnone). apply Hmissing in Hnone.
    unfold struct_read. rewrite Hparse. cbn [bind]. rewrite Hnone. reflexivity.
Qed.

(** The layout of [S] lists [a] only: asking for [b] is "Field not found:
    b", for the write and for the read. *)
Lemma field_not_found_exactly_when_not_listed_witness :
  struct_write "struct S { uint8_t a; };" "b" 0 [zero_byte] = Err (FieldNotFound "b")
  /\ struct_read 1 "struct S { uint8_t a; };" "b" [zero_byte] = Err (FieldNotFound "b").
Proof.
  destruct (field_not_found_exactly_when_not_listed 1
              "struct S { uint8_t a; };" "b" "b" 0 [zero_byte]) as [Hwrite Hread].
  assert (Hmissing :
            "b" = "b" /\
            exists structInfo,
              parseStruct "struct S { uint8_t a; };" = Ok structInfo /\
              Forall (fun f => name f <> "b") (fields structInfo)).
  { split; [ reflexivity | ].
    exists (mkStructInfo "S" [mkFieldInfo "uint8_t" "a" 0 0 0 1 false false] 1).
    split; [ vm_compute; reflexivity | ].
    constructor; [ cbn; discriminate | constructor ]. }
  split; [ apply Hwrite; exact Hmissing | apply Hread; exact Hmissing ].
Defined.

(** ** FieldType, StructWrite, StructSizeOf *)

(** [FieldType] gives the declared type of the first field of the layout
    that has the name asked for, whatever fields of that name follow it;
    that type is a key of the registry.  It gives the empty string exactly
    when no field of the layout has that name. *)
Theorem FieldType_is_empty_exactly_for_missing_fields :
  forall (structText fieldName : string) (structInfo : StructInfo),
    parseStruct structText = Ok structInfo ->
    (forall (before after : list FieldInfo) (field : FieldInfo),
        fields structInfo = (before ++ field :: after)%list ->
        name field = fieldName ->
        Forall (fun f => name f <> fieldName) before ->
        FieldType structText fieldName = Ok (type field) /\
        find_type (type field) typeSizes = Some (size field))
    /\ (FieldType structText fieldName = Ok ""
        <-> Forall (fun f => name f <> fieldName) (fields structInfo)).
Proof.
  intros structText fieldName structInfo Hparse.
  assert (Hfound : forall field,
             find_field fieldName (fields structInfo) = Some field ->
             FieldType structText fieldName = Ok (type field) /\
             find_type (type field) typeSizes = Some (size field)).
  { intros field Hfind. unfold FieldType. rewrite Hparse. cbn [bind].
    rewrite Hfind. split; [ reflexivity | ].
    apply getTypeSize_Ok.
    exact (wf_size _ (found_field_wf _ _ _ _ Hparse Hfind)). }
  split.
  - intros before after field Hfields Hname Hbefore.
    apply Hfound. apply find_field_first. exists before, after. auto.
  - rewrite <- (find_field_none fieldName (fields structInfo)).
    destruct (find_field fieldName (fields structInfo)) as [field | ] eqn:Hfind.
    + destruct (Hfound field eq_refl) as [Htype Hkey].
      rewrite Htype. split; [ | discriminate ].
      intros [= Hempty]. rewrite Hempty in Hkey. discriminate Hkey.
    + unfold FieldType. rewrite Hparse. cbn [bind]. rewrite Hfind.
      split; reflexivity.
Qed.

(** Two bit-fields without a name, written with a blank before the colon,
    are both listed with the name [""]: [FieldType] gives the type of the
    first one. *)
Lemma FieldType_is_empty_exactly_for_missing_fields_witness :
  FieldType "struct S { uint8_t : 3; uint16_t : 5; };" "" = Ok "uint8_t"
  /\ find_type "uint8_t" typeSizes = Some 1.
Proof.
  apply (proj1 (FieldType_is_empty_exactly_for_missing_fields
                  "struct S { uint8_t : 3; uint16_t : 5; };" ""
                  (mkStructInfo "S"
                     [mkFieldInfo "uint8_t" "" 3 0 0 1 true false;
                      mkFieldInfo "uint16_t" "" 5 0 3 2 true false] 1)
                  ltac:(vm_compute; reflexivity))
          [] [mkFieldInfo "uint16_t" "" 5 0 3 2 true false]
          (mkFieldInfo "uint8_t" "" 3 0 0 1 true false)).
  - reflexivity.
  - reflexivity.
  - constructor.
Defined.

(** [StructWrite] returns 0 exactly when [struct_write] returns, with the
    buffer [struct_write] leaves; it returns -1 exactly when the text does
    not parse or lists no field of that name, and the buffer then is as it
    was; it returns nothing else. *)
Theorem StructWrite_reports_parse_and_lookup_failures :
  forall (structText fieldName : string) (value : Z) (buffer : list ascii)
         (code : Z) (buffer' : list ascii),
    StructWrite structText fieldName value buffer = Ok (code, buffer') ->
    (code = 0 /\ struct_write structText fieldName value buffer = Ok buffer')
    \/ (code = -1 /\ buffer' = buffer /\
        ((exists e, parseStruct structText = Err e)
         \/ (exists structInfo,
               parseStruct structText = Ok structInfo /\
               find_field fieldName (fields structInfo) = None))).
Proof.
  intros structText fieldName value buffer code buffer'. unfold StructWrite.
  destruct (struct_write structText fieldName value buffer) as [b | e] eqn:Hwrite.
  - intros [= <- <-]. left. split; reflexivity.
  - intros Hcode.
    assert (Hcaught : e <> Undefined /\ code = -1 /\ buffer' = buffer).
    { destruct e; try (injection Hcode as <- <-; repeat split; discriminate).
      discriminate Hcode. }
    destruct Hcaught as (Hdefined & -> & ->).
    right. split; [ reflexivity | ]. split; [ reflexivity | ].
    destruct (parseStruct structText) as [structInfo | e'] eqn:Hparse;
      [ right | left; exists e'; reflexivity ].
    exists structInfo. split; [ reflexivity | ].
    destruct (find_field fieldName (fields structInfo)) as [field | ] eqn:Hfind;
      [ | reflexivity ].
    exfalso. apply Hdefined.
    exact (struct_write_found _ _ _ _ _ _ _ Hparse Hfind Hwrite).
Qed.

Lemma StructWrite_reports_parse_and_lookup_failures_witness :
  (-1 = 0 /\ struct_write "struct S { uint8_t a; };" "b" 7 [zero_byte] = Ok [zero_byte])
  \/ (-1 = -1 /\ [zero_byte] = [zero_byte] /\
      ((exists e, parseStruct "struct S { uint8_t a; };" = Err e)
       \/ (exists structInfo,
             parseStruct "struct S { uint8_t a; };" = Ok structInfo /\
             find_field "b" (fields structInfo) = None))).
Proof.
  apply (StructWrite_reports_parse_and_lookup_failures
           "struct S { uint8_t a; };" "b" 7 [zero_byte] (-1) [zero_byte]).
  vm_compute. reflexivity.
Defined.

(** A negative [int64_t] handed to [StructWrite] is stored in two's
    complement: a plain field of [size] bytes, when the call returns 0, reads
    back as [value mod 2 ^ (8 * size)]; and the call returns 0 whenever the
    field is listed and the buffer holds it. *)
Theorem StructWrite_stores_two_s_complement :
  forall (structText fieldName : string) (value : Z) (buffer : list ascii)
         (structInfo : StructInfo) (field : FieldInfo),
    parseStruct structText = Ok structInfo ->
    find_field fieldName (fields structInfo) = Some field ->
    isBitField field = false ->
    in_buffer buffer (byteOffset field) (size field) = true ->
    exists buffer',
      StructWrite structText fieldName value buffer = Ok (0, buffer') /\
      struct_read (size field) structText fieldName buffer'
      = Ok (value mod 2 ^ (8 * size field)).
Proof.
  intros structText fieldName value buffer structInfo field
    Hparse Hfind Hplain Hin.
  pose proof (found_field_wf _ _ _ _ Hparse Hfind) as Hwf.
  pose proof (getTypeSize_sizes _ _ (wf_size _ Hwf)) as Hsz.
  destruct (struct_write_defined _ _ value _ _ _ Hparse Hfind Hin
              ltac:(rewrite Hplain; discriminate)) as (buffer' & Hwrite & Hcopy).
  exists buffer'. unfold StructWrite. rewrite Hwrite.
  split; [ reflexivity | ].
  rewrite Hplain in Hcopy.
  destruct (memcpy_to_props _ _ _ _ _ Hcopy) as (_ & Hlen & Hunit & _).
  rewrite (struct_read_plain _ _ _ buffer' _ _ Hparse Hfind Hplain).
  rewrite Z.eqb_refl.
  rewrite memcpy_from_unit
    by (rewrite (in_buffer_same_length _ _ _ _ Hlen); exact Hin).
  rewrite Hunit, load_store, Z2Nat.id by lia.
  f_equal. unfold to_size_t.
  destruct Hsz as [-> | [-> | [-> | ->]]]; Z.bitblast.
Qed.

(** -2 in an [int16_t] field reads back as 65534. *)
Lemma StructWrite_stores_two_s_complement_witness :
  exists buffer',
    StructWrite "struct S { uint8_t tag; int16_t delta; };" "delta" (-2)
      [zero_byte; zero_byte; zero_byte] = Ok (0, buffer') /\
    struct_read 2 "struct S { uint8_t tag; int16_t delta; };" "delta" buffer'
    = Ok ((-2) mod 2 ^ (8 * 2)).
Proof.
  apply (StructWrite_stores_two_s_complement
           "struct S { uint8_t tag; int16_t delta; };" "delta" (-2)
           [zero_byte; zero_byte; zero_byte]
           (mkStructInfo "S"
              [mkFieldInfo "uint8_t" "tag" 0 0 0 1 false false;
               mkFieldInfo "int16_t" "delta" 0 1 0 2 false false] 3)
           (mkFieldInfo "int16_t" "delta" 0 1 0 2 false false)).
  - vm_compute. reflexivity.
  - reflexivity.
  - reflexivity.
  - reflexivity.
Defined.

(** For a text under 2^27 characters the [int32_t] that [StructSizeOf]
    returns is the [size_t] of [struct_sizeof], unchanged by the
    conversion: it is never negative, and at most 16 bytes for each
    character of the text, plus one. *)
Theorem StructSizeOf_is_struct_sizeof_for_short_texts :
  forall structText : string,
    short_text structText ->
    StructSizeOf structText = struct_sizeof structText /\
    (forall n, StructSizeOf structText = Ok n ->
               0 <= n <= 16 * Z.of_nat (String.length structText) + 1).
Proof.
  intros structText Hshort.
  assert (Hsize : forall n, struct_sizeof structText = Ok n ->
                            0 <= n <= 16 * Z.of_nat (String.length structText) + 1).
  { unfold struct_sizeof. intros n.
    destruct (parseStruct structText) as [structInfo | e] eqn:Hparse;
      cbn [bind]; [ | discriminate ].
    intros [= <-].
    destruct (parseStruct_layout _ _ Hshort Hparse)
      as (lines & st & Hlines & _ & _ & (Hbc & _) & _ & _ & _ & ->).
    pose proof (fieldLines_count _ _ Hlines) as Hcount.
    destruct (currentBitOffset st >? 0); lia. }
  assert (Hsame : StructSizeOf structText = struct_sizeof structText).
  { unfold StructSizeOf.
    destruct (struct_sizeof structText) as [n | e] eqn:Hn; cbn [bind];
      [ | reflexivity ].
    specialize (Hsize n eq_refl). unfold short_text in Hshort.
    rewrite to_int_small by lia. reflexivity. }
  split; [ exact Hsame | ]. rewrite Hsame. exact Hsize.
Qed.

Lemma StructSizeOf_is_struct_sizeof_for_short_texts_witness :
  StructSizeOf "struct S { uint8_t a:3; uint32_t b; };"
  = struct_sizeof "struct S { uint8_t a:3; uint32_t b; };" /\
  (forall n, StructSizeOf "struct S { uint8_t a:3; uint32_t b; };" = Ok n ->
             0 <= n <= 16 * Z.of_nat
                            (String.length "struct S { uint8_t a:3; uint32_t b; };") + 1).
Proof.
  apply (StructSizeOf_is_struct_sizeof_for_short_texts
           "struct S { uint8_t a:3; uint32_t b; };").
  unfold short_text. cbn. lia.
Defined.
